(** * paths-filter: change-set discovery ([src/git.ts])

    A shallow embedding of the git front end of paths-filter and the
    properties of its parser, of its reference resolution and of its
    merge-base search.

    Conventions of the embedding.
    - A JavaScript string is a [string]: a sequence of code units, here
      restricted to the range 0..255.
    - A JavaScript number that the code only uses as an integer (exit code,
      fetch depth, commit count) is a [Z]; the model is exact where the
      double-precision arithmetic of the source is exact.
    - An [async] function is a computation in the monad [M] below: it reads
      and changes the repository through the accessor only, it may throw, and
      it leaves a trace of the accessor calls and of the log lines.
    - The one [while] loop of the file takes a bound on its iterations
      ([fuel]); the termination theorem says when a bound exists that the
      loop does not reach. *)

From Stdlib Require Import String Ascii List ZArith Lia Bool Arith.
From Stdlib Require Import DecimalString DecimalZ.
Import ListNotations.

Local Open Scope list_scope.
Local Open Scope string_scope.

Set Implicit Arguments.

(** ** Data model *)

(** Modelled from the spec: the enumeration [ChangeStatus] of [./file], which
    git.ts imports ("Added, Copied, Deleted, Modified, Renamed, Unmerged"). *)
Inductive ChangeStatus : Type :=
  | Added | Copied | Deleted | Modified | Renamed | Unmerged.

(** The value of the property read [statusMap[key]].  [statusMap] is an object
    literal, so a key that is not one of its own six keys either names a
    member inherited from [Object.prototype] or reads as [undefined]. *)
Inductive StatusSlot : Type :=
  | Own (s : ChangeStatus)
  | Inherited (member : string)
  | Undefined.

(** Modelled from the spec: the record [File] of [./file] ("FileChange —
    {path, status}"), with the field names git.ts writes. *)
Record File : Type := mkFile { status : StatusSlot; filename : string }.

Definition NULL_SHA : string := "0000000000000000000000000000000000000000".
Definition HEAD : string := "HEAD".

(** ** Strings *)

Definition NUL : ascii := Ascii.zero.
Definition LF : ascii := ascii_of_nat 10.
Definition CR : ascii := ascii_of_nat 13.

(** [s.split(sep)] for a one-character separator: never empty, the pieces
    between consecutive separators, empty pieces kept. *)
Fixpoint split (sep : ascii) (s : string) : list string :=
  match s with
  | EmptyString => [EmptyString]
  | String c r =>
      if Ascii.eqb c sep then EmptyString :: split sep r
      else match split sep r with
           | h :: t => String c h :: t
           | [] => [String c EmptyString]
           end
  end.

(** The callback [s => s.length > 0]. *)
Definition nonEmpty (s : string) : bool := Nat.ltb 0 (String.length s).

(** [output.split('\u0000').filter(s => s.length > 0)] *)
Definition tokens (output : string) : list string :=
  filter nonEmpty (split NUL output).

(** [str.startsWith(p)] *)
Definition startsWith (p str : string) : bool := String.prefix p str.

(** ** [statusMap] and [parseGitDiffOutput] *)

(** The property names every object inherits from [Object.prototype]. *)
Definition objectPrototypeMembers : list string :=
  [ "constructor"; "hasOwnProperty"; "isPrototypeOf"; "propertyIsEnumerable";
    "toLocaleString"; "toString"; "valueOf"; "__proto__";
    "__defineGetter__"; "__defineSetter__"; "__lookupGetter__";
    "__lookupSetter__" ].

Definition statusMap (key : string) : StatusSlot :=
  if String.eqb key "A" then Own Added
  else if String.eqb key "C" then Own Copied
  else if String.eqb key "D" then Own Deleted
  else if String.eqb key "M" then Own Modified
  else if String.eqb key "R" then Own Renamed
  else if String.eqb key "U" then Own Unmerged
  else if existsb (String.eqb key) objectPrototypeMembers then Inherited key
  else Undefined.

(** The loop [for (let i = 0; i + 1 < tokens.length; i += 2) files.push(...)]
    from the values of [i] and [files] at its head; [steps] bounds the number
    of iterations. *)
Fixpoint pushPairs (steps : nat) (toks : list string) (i : nat) (files : list File)
  : list File :=
  match steps with
  | O => files
  | S steps' =>
      if Nat.ltb (i + 1) (List.length toks) then
        pushPairs steps' toks (i + 2)
          (files ++ [ {| status := statusMap (nth i toks "");
                         filename := nth (i + 1) toks "" |} ])
      else files
  end.

(** [i] grows by two in every iteration and stays below [tokens.length], so
    [tokens.length] iterations are more than the loop ever makes. *)
Definition parseGitDiffOutput (output : string) : list File :=
  let toks := tokens output in
  pushPairs (List.length toks) toks 0 [].

(** What the loop computes, by recursion on the tokens: they are consumed two
    at a time, and fewer than two are dropped. *)
Fixpoint pairTokens (toks : list string) : list File :=
  match toks with
  | code :: path :: rest =>
      {| status := statusMap code; filename := path |} :: pairTokens rest
  | _ => []
  end.

(** The tail of [listAllFilesAsAdded]: every token becomes an added file. *)
Definition filesAsAdded (output : string) : list File :=
  map (fun path => {| status := Own Added; filename := path |}) (tokens output).

(** ** [isGitSha] *)

(** The character class [[a-z0-9]]. *)
Definition lowerAlnum (c : ascii) : bool :=
  let n := nat_of_ascii c in
  (((97 <=? n) && (n <=? 122)) || ((48 <=? n) && (n <=? 57)))%nat.

(** [cls{n}] at the head of [s]: the rest of [s] after exactly [n] characters
    of the class, if [s] starts with that many. *)
Fixpoint matchClassTimes (cls : ascii -> bool) (n : nat) (s : string)
  : option string :=
  match n with
  | O => Some s
  | S n' =>
      match s with
      | String c r => if cls c then matchClassTimes cls n' r else None
      | EmptyString => None
      end
  end.

(** [/^[a-z0-9]{40}$/.test(ref)]: the regular expression has no [m] flag, so
    [$] matches at the very end of the input only. *)
Definition isGitSha (ref : string) : bool :=
  match matchClassTimes lowerAlnum 40 ref with
  | Some EmptyString => true
  | _ => false
  end.

(** ** Helpers of [getFullRef] *)

(** [.] of a regular expression without the [s] flag excludes the line
    terminators; among the code units 0..255 these are LF and CR. *)
Definition lineTerminator (c : ascii) : bool := Ascii.eqb c LF || Ascii.eqb c CR.

Fixpoint noLineTerminator (s : string) : bool :=
  match s with
  | EmptyString => true
  | String c r => negb (lineTerminator c) && noLineTerminator r
  end.

(** [output.split(/\r?\n/g)]: a separator is LF, or CR immediately followed
    by LF; a CR that stands alone stays in its piece. *)
Fixpoint splitLines (s : string) : list string :=
  let keep c rest :=
    match rest with
    | h :: t => String c h :: t
    | [] => [String c EmptyString]
    end in
  match s with
  | EmptyString => [EmptyString]
  | String c r =>
      if Ascii.eqb c LF then EmptyString :: splitLines r
      else
        match r with
        | String c2 r2 =>
            if Ascii.eqb c CR && Ascii.eqb c2 LF
            then EmptyString :: splitLines r2
            else keep c (splitLines r)
        | EmptyString => keep c (splitLines r)
        end
  end.

(** [l.match(/refs\/.*$/)?.[0] ?? '']: the leftmost occurrence of [refs/] from
    which no line terminator occurs up to the end of [l], taken up to that
    end; the empty string when there is none. *)
Fixpoint matchRefs (l : string) : string :=
  match l with
  | EmptyString => EmptyString
  | String c r =>
      if startsWith "refs/" l && noLineTerminator l then l else matchRefs r
  end.

(** [output.split(/\r?\n/g).map(...).filter(l => l !== '')] *)
Definition candidateRefs (output : string) : list string :=
  filter (fun l => negb (String.eqb l "")) (map matchRefs (splitLines output)).

(** ** Numbers *)

Definition MAX_SAFE_INTEGER : Z := 9007199254740991.

(** A Number of JavaScript is a double.  The integer-valued Numbers are
    modelled as the integers they are, and the two infinities as [2^1024]
    and its opposite, the first magnitudes beyond every double; [-0] is [0],
    as it is for [===]; [NaN] has no value here, [None] stands for it where
    it can arise.  A depth or a count of the program is such a value. *)
Definition INFINITY : Z := (2 ^ 1024)%Z.

(** The Number value for a mathematical integer: the integer itself below
    [2^53]; from there on the nearest double, of two that are equally near
    the one whose significand is even, and an infinity when that is beyond
    the largest double. *)
Definition toNumber (z : Z) : Z :=
  (let a := Z.abs z in
   if a <? 2 ^ 53 then z
   else
     let e := Z.log2 a - 52 in
     let q := a / 2 ^ e in
     let r := a mod 2 ^ e in
     let half := 2 ^ (e - 1) in
     let q' := if r <? half then q
               else if half <? r then q + 1
               else if Z.even q then q else q + 1 in
     Z.sgn z * Z.min (q' * 2 ^ e) INFINITY)%Z.

(** The decimal digits of an integer, a minus sign before those of a
    negative one. *)
Definition decimal (n : Z) : string := NilZero.string_of_int (Z.to_int n).

(** Whether the real number [v2 / 2] is one that rounds to the double [a],
    for [2^53 <= a < 2^1024]: it lies between the midpoints to the doubles
    next to [a], a midpoint included when the significand of [a] is even. *)
Definition roundsTo (a v2 : Z) : bool :=
  (let e := Z.log2 a - 52 in
   let q := a / 2 ^ e in
   let up := 2 ^ e in
   let down := if q =? 2 ^ 52 then 2 ^ (e - 1) else 2 ^ e in
   let lo := 2 * a - down in
   let hi := 2 * a + up in
   ((lo <? v2) && (v2 <? hi)) || (Z.even q && ((v2 =? lo) || (v2 =? hi))))%Z.

(** Number::toString, the choice of the digits: the least [k] for which some
    [s] of [k] digits, followed by zeros up to the [digits] digits of [a],
    rounds to [a]; of two such [s] the nearer to [a], the even one when both
    are as near.  The result is [s] and the number of zeros. *)
Fixpoint shortestDigits (steps : nat) (a digits k : Z) : Z * Z :=
  match steps with
  | O => (a, 0%Z)
  | S steps' =>
      (let p := 10 ^ (digits - k) in
       let sLo := a / p in
       let vLo := sLo * p in
       let vHi := vLo + p in
       let lower := (sLo, digits - k) in
       let upper := (sLo + 1, digits - k) in
       if roundsTo a (2 * vLo) && roundsTo a (2 * vHi) then
         if a - vLo <? vHi - a then lower
         else if vHi - a <? a - vLo then upper
         else if Z.even sLo then lower else upper
       else if roundsTo a (2 * vLo) then lower
       else if roundsTo a (2 * vHi) then upper
       else shortestDigits steps' a digits (k + 1))%Z
  end.

Fixpoint zeroDigits (n : nat) : string :=
  match n with
  | O => ""
  | S n' => String "0" (zeroDigits n')
  end.

Fixpoint stripZeros (s : string) : string :=
  match s with
  | EmptyString => EmptyString
  | String c r =>
      match stripZeros r with
      | EmptyString => if Ascii.eqb c "0" then EmptyString else String c EmptyString
      | String c' r' => String c (String c' r')
      end
  end.

(** The template-literal conversion [`${n}`] of an integer-valued Number,
    that is Number::toString.  Up to [2^53] the digits that identify the
    Number are those of the integer.  Beyond, they are the shortest digits
    that round to it, followed by zeros while the Number is below [10^21]
    and written with an exponent from there on. *)
Definition numberToString (n : Z) : string :=
  let a := Z.abs n in
  if (a <=? 2 ^ 53)%Z then decimal n
  else
    let sign := if (n <? 0)%Z then "-" else "" in
    if (INFINITY <=? a)%Z then sign ++ "Infinity"
    else
      let digits := String.length (decimal a) in
      let '(s, z) := shortestDigits digits a (Z.of_nat digits) 1%Z in
      let ds := stripZeros (decimal s) in
      let n10 := (Z.of_nat (String.length (decimal s)) + z)%Z in
      if (n10 <=? 21)%Z then
        sign ++ ds ++ zeroDigits (Z.to_nat (n10 - Z.of_nat (String.length ds))%Z)
      else
        sign
        ++ match ds with
           | String c EmptyString => ds
           | String c r => String c (String "." r)
           | EmptyString => ds
           end
        ++ "e+" ++ decimal (n10 - 1)%Z.

(** [`${x}`] for [x : string | undefined]. *)
Definition refToString (r : option string) : string :=
  match r with Some s => s | None => "undefined" end.

(** White space that [parseInt] skips, among the code units 0..255. *)
Definition jsWhiteSpace (c : ascii) : bool :=
  let n := nat_of_ascii c in
  (((9 <=? n) && (n <=? 13)) || (n =? 32) || (n =? 160))%nat.

Fixpoint skipWhiteSpace (s : string) : string :=
  match s with
  | String c r => if jsWhiteSpace c then skipWhiteSpace r else s
  | EmptyString => s
  end.

Definition digitValue (radix : Z) (c : ascii) : option Z :=
  let n := Z.of_nat (nat_of_ascii c) in
  let v := (if (48 <=? n) && (n <=? 57) then n - 48
            else if (97 <=? n) && (n <=? 122) then n - 87
            else if (65 <=? n) && (n <=? 90) then n - 55
            else 99)%Z in
  if (v <? radix)%Z then Some v else None.

(** The longest prefix of digits of [s], accumulated in [acc]; [seen] tells
    whether a digit was read. *)
Fixpoint readDigits (radix : Z) (s : string) (acc : Z) (seen : bool) : option Z :=
  match s with
  | String c r =>
      match digitValue radix c with
      | Some v => readDigits radix r (acc * radix + v) true
      | None => if seen then Some acc else None
      end
  | EmptyString => if seen then Some acc else None
  end.

(** [parseInt(s)] without a radix: white space, an optional sign, an optional
    [0x] or [0X] that selects radix 16, then digits; [None] stands for [NaN].
    The result is the Number value for the integer that the digits denote;
    ECMAScript lets an implementation read the digits after the twentieth as
    zeros, V8 reads them all. *)
Definition parseInt (s : string) : option Z :=
  let s1 := skipWhiteSpace s in
  let '(sign, s2) :=
    match s1 with
    | String "-" r => (-1, r)
    | String "+" r => (1, r)
    | _ => (1, s1)
    end%Z in
  let '(radix, s3) :=
    match s2 with
    | String "0" (String "x" r) => (16, r)
    | String "0" (String "X" r) => (16, r)
    | _ => (10, s2)
    end%Z in
  option_map (fun v => toNumber (sign * v)) (readDigits radix s3 0 false).

(** [const count = parseInt(output); return isNaN(count) ? 0 : count] *)
Definition commitCountOf (output : string) : Z :=
  match parseInt output with
  | Some count => count
  | None => 0%Z
  end.

(** ** The repository accessor and the effects of an [async] function *)

(** Modelled from the spec: the interface of the function [exec] of [./exec],
    which git.ts imports ("run(subcommand, args[]) -> {stdoutText,
    exitCode}").  A call names the executable, its arguments and whether a
    non-zero exit code is tolerated; it either throws or yields the exit code
    and the output.  What [exec] replies is not fixed here: it is the
    parameter [run] of the section below. *)
Record Command : Type :=
  mkCommand { commandLine : string; args : list string; ignoreReturnCode : bool }.

Record ExecResult : Type := mkExecResult { code : Z; stdout : string }.

(** A thrown [new Error(message)]. *)
Inductive JsError : Type := Error (message : string).

Inductive Reply : Type :=
  | Failed (e : JsError)
  | Done (r : ExecResult).

(** What a run leaves behind, in order: the accessor calls with their replies
    and the calls of [core.startGroup], [core.endGroup], [core.info] and
    [core.warning]. *)
Inductive Event : Type :=
  | EExec (c : Command) (r : Reply)
  | EStartGroup (name : string)
  | EEndGroup
  | EInfo (message : string)
  | EWarning (message : string).

(** How a run ends: it returns, it throws, or the bound on the iterations of
    a [while] loop was too small for it. *)
Inductive Outcome (A : Type) : Type :=
  | Ret (a : A)
  | Throw (e : JsError)
  | OutOfFuel.

Arguments Ret {A} a.
Arguments Throw {A} e.
Arguments OutOfFuel {A}.

Record Result (World A : Type) : Type :=
  mkResult { trace : list Event; outcome : Outcome A; final : World }.

Section Discovery.

(** The repository and whatever else the accessor depends on, and the
    accessor itself: a call changes the world and replies. *)
Variable World : Type.
Variable run : Command -> World -> Reply * World.

Definition M (A : Type) : Type := World -> Result World A.

Definition ret {A} (a : A) : M A :=
  fun w => {| trace := []; outcome := Ret a; final := w |}.

Definition throw {A} (e : JsError) : M A :=
  fun w => {| trace := []; outcome := Throw e; final := w |}.

Definition diverge {A} : M A :=
  fun w => {| trace := []; outcome := OutOfFuel; final := w |}.

Definition bind {A B} (m : M A) (k : A -> M B) : M B :=
  fun w =>
    match m w with
    | {| trace := tr; outcome := Ret a; final := w1 |} =>
        match k a w1 with
        | {| trace := tr'; outcome := o; final := w2 |} =>
            {| trace := (tr ++ tr')%list; outcome := o; final := w2 |}
        end
    | {| trace := tr; outcome := Throw e; final := w1 |} =>
        {| trace := tr; outcome := Throw e; final := w1 |}
    | {| trace := tr; outcome := OutOfFuel; final := w1 |} =>
        {| trace := tr; outcome := OutOfFuel; final := w1 |}
    end.

Notation "x <- m ;; k" := (bind m (fun x => k))
  (at level 61, m at next level, right associativity).
Notation "m ;;; k" := (bind m (fun _ => k))
  (at level 61, right associativity).

(** [try { body } finally { fin }]: [fin] runs after [body] whether it
    returned or threw; the outcome of [body] stands unless [fin] throws. *)
Definition tryFinally {A} (body : M A) (fin : M unit) : M A :=
  fun w =>
    match body w with
    | {| trace := tr; outcome := OutOfFuel; final := w1 |} =>
        {| trace := tr; outcome := OutOfFuel; final := w1 |}
    | {| trace := tr; outcome := o; final := w1 |} =>
        match fin w1 with
        | {| trace := tr'; outcome := Ret _; final := w2 |} =>
            {| trace := (tr ++ tr')%list; outcome := o; final := w2 |}
        | {| trace := tr'; outcome := Throw e; final := w2 |} =>
            {| trace := (tr ++ tr')%list; outcome := Throw e; final := w2 |}
        | {| trace := tr'; outcome := OutOfFuel; final := w2 |} =>
            {| trace := (tr ++ tr')%list; outcome := OutOfFuel; final := w2 |}
        end
    end.

Definition emit (e : Event) : M unit :=
  fun w => {| trace := [e]; outcome := Ret tt; final := w |}.

Definition startGroup (name : string) : M unit := emit (EStartGroup name).
Definition endGroup : M unit := emit EEndGroup.
Definition info (message : string) : M unit := emit (EInfo message).
Definition warning (message : string) : M unit := emit (EWarning message).

(** [await exec(commandLine, args, {ignoreReturnCode})] *)
Definition exec (cl : string) (a : list string) (ignore : bool) : M ExecResult :=
  fun w =>
    let c := {| commandLine := cl; args := a; ignoreReturnCode := ignore |} in
    let '(reply, w') := run c w in
    {| trace := [EExec c reply];
       outcome := match reply with Done r => Ret r | Failed e => Throw e end;
       final := w' |}.

Definition fixStdOutNullTermination : M unit := info "".

Definition getChangesInLastCommit : M (list File) :=
  startGroup "Change detection in last commit" ;;;
  output <- tryFinally
    (r <- exec "git" ["log"; "--format="; "--no-renames"; "--name-status"; "-z"; "-n"; "1"] false ;;
     ret (stdout r))
    (fixStdOutNullTermination ;;; endGroup) ;;
  ret (parseGitDiffOutput output).

Definition hasCommit (ref : string) : M bool :=
  startGroup ("Checking if commit for " ++ ref ++ " is locally available") ;;;
  tryFinally
    (r <- exec "git" ["cat-file"; "-e"; ref ++ "^{commit}"] true ;;
     ret (code r =? 0)%Z)
    endGroup.

Definition getChanges (baseRef : string) : M (list File) :=
  has <- hasCommit baseRef ;;
  (if negb has then
     startGroup ("Fetching " ++ baseRef ++ " from origin") ;;;
     exec "git" ["fetch"; "--depth=1"; "--no-tags"; "origin"; baseRef] false ;;;
     endGroup
   else ret tt) ;;;
  startGroup ("Change detection " ++ baseRef ++ "..HEAD") ;;;
  output <- tryFinally
    (r <- exec "git" ["diff"; "--no-renames"; "--name-status"; "-z"; baseRef ++ "..HEAD"] false ;;
     ret (stdout r))
    (fixStdOutNullTermination ;;; endGroup) ;;
  ret (parseGitDiffOutput output).

Definition getChangesOnHead : M (list File) :=
  startGroup "Change detection on HEAD" ;;;
  output <- tryFinally
    (r <- exec "git" ["diff"; "--no-renames"; "--name-status"; "-z"; "HEAD"] false ;;
     ret (stdout r))
    (fixStdOutNullTermination ;;; endGroup) ;;
  ret (parseGitDiffOutput output).

Definition listAllFilesAsAdded : M (list File) :=
  startGroup "Listing all files tracked by git" ;;;
  output <- tryFinally
    (r <- exec "git" ["ls-files"; "-z"] false ;;
     ret (stdout r))
    (fixStdOutNullTermination ;;; endGroup) ;;
  ret (filesAsAdded output).

Definition getCommitCount : M Z :=
  r <- exec "git" ["rev-list"; "--count"; "--all"] false ;;
  ret (commitCountOf (stdout r)).

Definition getFullRef (shortName : string) : M (option string) :=
  if isGitSha shortName then ret (Some shortName)
  else
    r <- exec "git" ["show-ref"; shortName] true ;;
    let refs := candidateRefs (stdout r) in
    match refs with
    | [] => ret None
    | first :: _ =>
        match find (startsWith "refs/remotes/origin/") refs with
        | Some remoteRef =>
            (* [if (remoteRef)]: a string is truthy unless it is empty *)
            if nonEmpty remoteRef then ret (Some remoteRef) else ret (Some first)
        | None => ret (Some first)
        end
    end.

(** The closure [hasMergeBase] of [getChangesSinceMergeBase], over the current
    value of [baseRef]. *)
Definition hasMergeBase (baseRef : option string) (ref : string) : M bool :=
  match baseRef with
  | None => ret false
  | Some b =>
      r <- exec "git" ["merge-base"; b; ref] true ;;
      ret (code r =? 0)%Z
  end.

(** [Math.min(depth * 2, Number.MAX_SAFE_INTEGER)] *)
Definition deepen (depth : Z) : Z := Z.min (depth * 2) MAX_SAFE_INTEGER.

Definition deepenFetch (base ref : string) (depth : Z) : list string :=
  ["fetch"; "--deepen=" ++ numberToString depth; "origin"; base; ref].

(** The loop [while (!(await hasMergeBase())) { ... }] with the values of
    [depth] and [lastCommitCount] at its head; it yields the final value of
    [noMergeBase].  [fuel] bounds the number of iterations. *)
Fixpoint mergeBaseLoop (fuel : nat) (baseRef : option string) (base ref : string)
    (depth lastCommitCount : Z) : M bool :=
  match fuel with
  | O => diverge
  | S fuel' =>
      found <- hasMergeBase baseRef ref ;;
      if found then ret false
      else
        let depth := deepen depth in
        exec "git" (deepenFetch base ref depth) false ;;;
        commitCount <- getCommitCount ;;
        if (commitCount =? lastCommitCount)%Z then
          info "No more commits were fetched" ;;;
          info "Last attempt will be to fetch full history" ;;;
          exec "git" ["fetch"] false ;;;
          found <- hasMergeBase baseRef ref ;;
          ret (negb found)
        else mergeBaseLoop fuel' baseRef base ref depth commitCount
  end.

Definition couldNotDetermine (base : string) : JsError :=
  Error ("Could not determine what is " ++ base
         ++ " - fetch works but it's not a branch or tag").

(** The statement [if (baseRef === undefined) { ... }] that follows the
    shallow fetch; it yields the new value of [baseRef]. *)
Definition ensureBaseRef (base ref : string) (baseRef : option string)
  : M (option string) :=
  match baseRef with
  | Some _ => ret baseRef
  | None =>
      baseRef <- getFullRef base ;;
      match baseRef with
      | Some _ => ret baseRef
      | None =>
          exec "git" ["fetch"; "--tags"; "--depth=1"; "origin"; base; ref] false ;;;
          baseRef <- getFullRef base ;;
          match baseRef with
          | Some _ => ret baseRef
          | None => throw (couldNotDetermine base)
          end
      end
  end.

(** The body of the first [try] of [getChangesSinceMergeBase]; it yields the
    values of [baseRef] and [noMergeBase] the rest of the function reads.
    [initialFetchDepth] is an integer-valued Number. *)
Definition searchMergeBase (fuel : nat) (base ref : string) (initialFetchDepth : Z)
  : M (option string * bool) :=
  baseRef <- getFullRef base ;;
  found <- hasMergeBase baseRef ref ;;
  if found then ret (baseRef, false)
  else
    exec "git" ["fetch"; "--no-tags"; "--depth=" ++ numberToString initialFetchDepth;
                "origin"; base; ref] false ;;;
    baseRef <- ensureBaseRef base ref baseRef ;;
    lastCommitCount <- getCommitCount ;;
    noMergeBase <- mergeBaseLoop fuel baseRef base ref initialFetchDepth lastCommitCount ;;
    ret (baseRef, noMergeBase).

Definition noMergeBaseWarning : string :=
  "No merge base found - change detection will use direct <commit>..<commit> comparison".

Definition getChangesSinceMergeBase (fuel : nat) (base ref : string)
    (initialFetchDepth : Z) : M (list File) :=
  startGroup ("Searching for merge-base " ++ base ++ "..." ++ ref) ;;;
  found <- tryFinally (searchMergeBase fuel base ref initialFetchDepth) endGroup ;;
  let '(baseRef, noMergeBase) := found in
  diffArg <-
    (if noMergeBase then
       warning noMergeBaseWarning ;;;
       ret (refToString baseRef ++ ".." ++ ref)
     else ret (refToString baseRef ++ "..." ++ ref)) ;;
  startGroup ("Change detection " ++ diffArg) ;;;
  output <- tryFinally
    (r <- exec "git" ["diff"; "--no-renames"; "--name-status"; "-z"; diffArg] false ;;
     ret (stdout r))
    (fixStdOutNullTermination ;;; endGroup) ;;
  ret (parseGitDiffOutput output).

End Discovery.

Arguments ret {World A} a _.
Arguments throw {World A} e _.
Arguments diverge {World A} _.
Arguments bind {World A B} m k _.
Arguments tryFinally {World A} body fin _.
Arguments emit {World} e _.
Arguments startGroup {World} name _.
Arguments endGroup {World} _.
Arguments info {World} message _.
Arguments warning {World} message _.
Arguments fixStdOutNullTermination {World} _.

Notation "x <- m ;; k" := (bind m (fun x => k))
  (at level 61, m at next level, right associativity).
Notation "m ;;; k" := (bind m (fun _ => k))
  (at level 61, right associativity).

(** ** Accessors to run the model on *)

(** An accessor that replies from a script, whatever the call, and succeeds
    with no output once the script is used up. *)
Definition scripted (c : Command) (w : list Reply) : Reply * list Reply :=
  match w with
  | r :: rest => (r, rest)
  | [] => (Done {| code := 0; stdout := "" |}, [])
  end.

Definition ok (out : string) : Reply := Done {| code := 0; stdout := out |}.
Definition exited (c : Z) : Reply := Done {| code := c; stdout := "" |}.

(** The accessor calls of a trace, in order. *)
Definition commands (tr : list Event) : list (list string) :=
  flat_map (fun e => match e with EExec c _ => [args c] | _ => [] end) tr.

(** ** Vocabulary of the statements *)

(** A string without the delimiter, and a token: a non-empty such string. *)
Definition nulFree (s : string) : bool :=
  forallb (fun c => negb (Ascii.eqb c NUL)) (list_ascii_of_string s).

Definition isToken (s : string) : bool := nonEmpty s && nulFree s.

(** The stream git writes with [-z] for a list of (status code, path)
    records: every code and every path is followed by the delimiter. *)
Fixpoint renderRecords (recs : list (string * string)) : string :=
  match recs with
  | [] => ""
  | (c, p) :: rest => c ++ String NUL (p ++ String NUL (renderRecords rest))
  end.

(** The stream of [git ls-files -z]. *)
Fixpoint renderPaths (paths : list string) : string :=
  match paths with
  | [] => ""
  | p :: rest => p ++ String NUL (renderPaths rest)
  end.

Definition wellFormedRecord (rec : string * string) : Prop :=
  isToken (fst rec) = true /\ isToken (snd rec) = true.

Definition fileOfRecord (rec : string * string) : File :=
  {| status := statusMap (fst rec); filename := snd rec |}.

(** [k] delimiters in a row. *)
Fixpoint nuls (k : nat) : string :=
  match k with
  | O => ""
  | S k' => String NUL (nuls k')
  end.

Definition sampleStream : string :=
  "A" ++ String NUL ("foo.txt" ++ String NUL ("D" ++ String NUL ("bar.txt" ++ String NUL ""))).

(** The accessor calls of the discovery functions, by name. *)
Definition git (a : list string) (ignore : bool) : Command :=
  {| commandLine := "git"; args := a; ignoreReturnCode := ignore |}.

Definition showRef (shortName : string) : Command :=
  git ["show-ref"; shortName] true.

Definition catFile (ref : string) : Command :=
  git ["cat-file"; "-e"; ref ++ "^{commit}"] true.

Definition fetchOne (ref : string) : Command :=
  git ["fetch"; "--depth=1"; "--no-tags"; "origin"; ref] false.

Definition diff (range : string) : Command :=
  git ["diff"; "--no-renames"; "--name-status"; "-z"; range] false.

Definition mergeBase (baseRef ref : string) : Command :=
  git ["merge-base"; baseRef; ref] true.

Definition fetchShallow (base ref : string) (depth : Z) : Command :=
  git ["fetch"; "--no-tags"; "--depth=" ++ numberToString depth; "origin"; base; ref] false.

Definition fetchTags (base ref : string) : Command :=
  git ["fetch"; "--tags"; "--depth=1"; "origin"; base; ref] false.

Definition fetchDeepen (base ref : string) (depth : Z) : Command :=
  git (deepenFetch base ref depth) false.

Definition fetchAll : Command := git ["fetch"] false.

Definition revListCount : Command := git ["rev-list"; "--count"; "--all"] false.

(** The accessor calls of a trace with their flags, in order. *)
Definition calls (tr : list Event) : list Command :=
  flat_map (fun e => match e with EExec c _ => [c] | _ => [] end) tr.

(** The output of the last accessor call of a trace that replied. *)
Fixpoint lastOutput (tr : list Event) : option string :=
  match tr with
  | [] => None
  | e :: rest =>
      match lastOutput rest with
      | Some out => Some out
      | None => match e with
                | EExec _ (Done x) => Some (stdout x)
                | _ => None
                end
      end
  end.

(** A discovery that reads records: whenever it returns and the output it
    read lists well-formed records with pairwise distinct paths, no two of
    the files it returns have the same name. *)
Definition uniquePathsOfRecords (World : Type) (m : World -> Result World (list File)) : Prop :=
  forall (w : World) (files : list File) (recs : list (string * string)),
    outcome (m w) = Ret files ->
    lastOutput (trace (m w)) = Some (renderRecords recs) ->
    Forall wellFormedRecord recs ->
    NoDup (map snd recs) ->
    NoDup (map filename files).

(** The same for a discovery that reads a list of paths. *)
Definition uniquePathsOfList (World : Type) (m : World -> Result World (list File)) : Prop :=
  forall (w : World) (files : list File) (paths : list string),
    outcome (m w) = Ret files ->
    lastOutput (trace (m w)) = Some (renderPaths paths) ->
    Forall (fun p => isToken p = true) paths ->
    NoDup paths ->
    NoDup (map filename files).

(** The commit counts a trace reports, in order: the parsed outputs of the
    calls of [git rev-list] that replied. *)
Definition isRevList (c : Command) : bool := String.eqb (hd "" (args c)) "rev-list".

Definition counts (tr : list Event) : list Z :=
  flat_map (fun e => match e with
                     | EExec c (Done x) =>
                         if isRevList c then [commitCountOf (stdout x)] else []
                     | _ => []
                     end) tr.

(** The exit codes of the merge-base checks of a trace that replied. *)
Definition isMergeBase (c : Command) : bool :=
  String.eqb (hd "" (args c)) "merge-base".

Definition mergeBaseCodes (tr : list Event) : list Z :=
  flat_map (fun e => match e with
                     | EExec c (Done x) => if isMergeBase c then [code x] else []
                     | _ => []
                     end) tr.

(** No merge-base check of the trace found a merge base. *)
Definition noMergeBaseIn (tr : list Event) : Prop :=
  Forall (fun v => v <> 0%Z) (mergeBaseCodes tr).

(** Every count differs from the one before it. *)
Fixpoint changing (cs : list Z) : bool :=
  match cs with
  | a :: rest =>
      match rest with
      | b :: _ => negb (a =? b)%Z && changing rest
      | [] => true
      end
  | [] => true
  end.

(** The counts of a search: each differs from the one before it, except that
    in a search that stalled the last count repeats the one before it. *)
Definition countsOfSearch (cs : list Z) (stalled : bool) : Prop :=
  if stalled
  then exists front c, cs = (front ++ [c; c])%list /\ changing (front ++ [c]) = true
  else changing cs = true.

(** The depth of the [j]-th deepen fetch, [j] counted from 1: the initial
    depth doubled [j] times, capped. *)
Definition saturatedDepth (d0 : Z) (j : nat) : Z :=
  Z.min (d0 * 2 ^ Z.of_nat j) MAX_SAFE_INTEGER.

(** The calls of one round of the search that ends with a count. *)
Definition round (b base ref : string) (depth : Z) : list Command :=
  [mergeBase b ref; fetchDeepen base ref depth; revListCount].

Definition rounds (b base ref : string) (d0 : Z) (k : nat) : list Command :=
  flat_map (fun j => round b base ref (saturatedDepth d0 j)) (seq 1 k).

(** The rounds as the loop makes them, each depth computed from the last. *)
Fixpoint roundsFrom (b base ref : string) (depth : Z) (k : nat) : list Command :=
  match k with
  | O => []
  | S k' => (round b base ref (deepen depth) ++ roundsFrom b base ref (deepen depth) k')%list
  end.

(** How a search that returns ends: after a stalled round, the two log lines
    and the full fetch; in any case a last merge-base check. *)
Definition searchEnding (b ref : string) (stalled : bool) (g z : ExecResult)
  : list Event :=
  ((if stalled
    then [EInfo "No more commits were fetched";
          EInfo "Last attempt will be to fetch full history";
          EExec fetchAll (Done g)]
    else [])
   ++ [EExec (mergeBase b ref) (Done z)])%list.

(** The comparison itself, for a range [base..ref] or [base...ref]. *)
Definition diffEvents (range : string) (y : ExecResult) : list Event :=
  [EStartGroup ("Change detection " ++ range); EExec (diff range) (Done y);
   EInfo ""; EEndGroup].

Definition notDiff (c : Command) : Prop := hd "" (args c) <> "diff".

(** A stretch of a trace that reports no commit count, logs no warning,
    finds no merge base and calls only the commands of [allowed]. *)
Definition quiet (allowed : list Command) (tr : list Event) : Prop :=
  counts tr = []
  /\ incl (calls tr) allowed
  /\ (forall m, ~ In (EWarning m) tr)
  /\ noMergeBaseIn tr.

(** What [getChangesSinceMergeBase] may call before the first round of the
    search. *)
Definition preludeCalls (b base ref : string) (d0 : Z) : list Command :=
  [showRef base; mergeBase b ref; fetchShallow base ref d0; fetchTags base ref;
   revListCount].

(** Repeated deepen fetches: the depth, the last count and the world after
    [n] rounds of merge-base check, deepen fetch and count, whatever the
    checks and the counts say; [None] when a call of these rounds throws. *)
Fixpoint afterRounds (World : Type) (run : Command -> World -> Reply * World)
    (b base ref : string) (n : nat) (depth lastCommitCount : Z) (w : World)
  : option (Z * Z * World) :=
  match n with
  | O => Some (depth, lastCommitCount, w)
  | S n' =>
      match run (mergeBase b ref) w with
      | (Done _, w1) =>
          match run (fetchDeepen base ref (deepen depth)) w1 with
          | (Done _, w2) =>
              match run revListCount w2 with
              | (Done y, w3) =>
                  afterRounds run b base ref n' (deepen depth) (commitCountOf (stdout y)) w3
              | (Failed _, _) => None
              end
          | (Failed _, _) => None
          end
      | (Failed _, _) => None
      end
  end.

(** The rounds as the loop makes them: the state after [n] rounds each of
    which found no merge base and a commit count that changed; [None] when
    the loop does not make [n] such rounds. *)
Fixpoint searchRounds (World : Type) (run : Command -> World -> Reply * World)
    (b base ref : string) (n : nat) (depth lastCommitCount : Z) (w : World)
  : option (Z * Z * World) :=
  match n with
  | O => Some (depth, lastCommitCount, w)
  | S n' =>
      match run (mergeBase b ref) w with
      | (Done z, w1) =>
          if (code z =? 0)%Z then None
          else
            match run (fetchDeepen base ref (deepen depth)) w1 with
            | (Done _, w2) =>
                match run revListCount w2 with
                | (Done y, w3) =>
                    if (commitCountOf (stdout y) =? lastCommitCount)%Z then None
                    else searchRounds run b base ref n' (deepen depth)
                           (commitCountOf (stdout y)) w3
                | (Failed _, _) => None
                end
            | (Failed _, _) => None
            end
      | (Failed _, _) => None
      end
  end.

(** A merge base is visible in world [w]. *)
Definition mergeBaseVisible (World : Type) (run : Command -> World -> Reply * World)
    (b ref : string) (w : World) : Prop :=
  exists z w1, run (mergeBase b ref) w = (Done z, w1) /\ code z = 0%Z.

(** The next deepen fetch leaves the commit count as it is. *)
Definition countStalls (World : Type) (run : Command -> World -> Reply * World)
    (b base ref : string) (depth lastCommitCount : Z) (w : World) : Prop :=
  exists depth' w',
    afterRounds run b base ref 1 depth lastCommitCount w
    = Some (depth', lastCommitCount, w').

(** A state in which the loop does not go on to another round: a merge base
    is visible, or the next count is unchanged, or a call of the round
    throws. *)
Definition lastRound (World : Type) (run : Command -> World -> Reply * World)
    (b base ref : string) (s : Z * Z * World) : Prop :=
  let '(d, c, w) := s in
  mergeBaseVisible run b ref w
  \/ countStalls run b base ref d c w
  \/ afterRounds run b base ref 1 d c w = None.

(** The three ways in which the repository can behave so that the search
    ends, each from a start of the loop with values [depth] and
    [lastCommitCount] in world [w]: a merge base becomes visible after some
    rounds; some deepen fetch leaves the count unchanged; from some round on
    the counts are natural numbers that no longer increase. *)
Definition eventuallyVisible (World : Type) (run : Command -> World -> Reply * World)
    (b base ref : string) (depth lastCommitCount : Z) (w : World) : Prop :=
  exists n d' c' w',
    afterRounds run b base ref n depth lastCommitCount w = Some (d', c', w')
    /\ mergeBaseVisible run b ref w'.

Definition eventuallyUnchanged (World : Type) (run : Command -> World -> Reply * World)
    (b base ref : string) (depth lastCommitCount : Z) (w : World) : Prop :=
  exists n d' c' w',
    afterRounds run b base ref n depth lastCommitCount w = Some (d', c', w')
    /\ countStalls run b base ref d' c' w'.

Definition eventuallyNotIncreasing (World : Type) (run : Command -> World -> Reply * World)
    (b base ref : string) (depth lastCommitCount : Z) (w : World) : Prop :=
  exists n,
    forall m d1 c1 w1 d2 c2 w2,
      (n <= m)%nat ->
      afterRounds run b base ref m depth lastCommitCount w = Some (d1, c1, w1) ->
      afterRounds run b base ref (S m) depth lastCommitCount w = Some (d2, c2, w2) ->
      (0 <= c2 <= c1)%Z.

(** The alphabet of [[a-z0-9]], spelled out. *)
Definition lowerAlnumAlphabet : list ascii :=
  list_ascii_of_string "abcdefghijklmnopqrstuvwxyz0123456789".

Definition fortyZ : string := "zzzzzzzzzzzzzzzzzzzzzzzzzzzzzzzzzzzzzzzz".

(** ** The other functions of git.ts *)

(** [s.slice(n)] for [0 <= n]: [s] without its first [n] characters. *)
Fixpoint sliceFrom (n : nat) (s : string) : string :=
  match n, s with
  | O, _ => s
  | S n', String _ r => sliceFrom n' r
  | S _, EmptyString => EmptyString
  end.

Definition getShortName (ref : string) : string :=
  if negb (nonEmpty ref) then ""
  else
    let heads := "refs/heads/" in
    let tags := "refs/tags/" in
    if startsWith heads ref then sliceFrom (String.length heads) ref
    else if startsWith tags ref then sliceFrom (String.length tags) ref
    else ref.

(** [s.trimEnd()]: [s] without the white space at its end. *)
Fixpoint trimEnd (s : string) : string :=
  match s with
  | EmptyString => EmptyString
  | String c r =>
      match trimEnd r with
      | EmptyString => if jsWhiteSpace c then EmptyString else String c EmptyString
      | String c' r' => String c (String c' r')
      end
  end.

(** [s.trim()]: white space and line terminators go from both ends; among
    the code units 0..255 these are the characters [parseInt] skips. *)
Definition trim (s : string) : string := trimEnd (skipWhiteSpace s).

Section CurrentRef.

Variable World : Type.
Variable run : Command -> World -> Reply * World.

Definition getCurrentRef : M World string :=
  startGroup "Determining current ref" ;;;
  tryFinally
    (r <- exec run "git" ["branch"; "--show-current"] false ;;
     let branch := trim (stdout r) in
     if nonEmpty branch then ret branch
     else
       describe <- exec run "git" ["describe"; "--tags"; "--exact-match"] true ;;
       if (code describe =? 0)%Z then ret (trim (stdout describe))
       else
         r <- exec run "git" ["rev-parse"; HEAD] false ;;
         ret (trim (stdout r)))
    endGroup.

End CurrentRef.

(** ** More vocabulary *)

(** The key of [statusMap] that holds a status. *)
Definition statusLetter (s : ChangeStatus) : string :=
  match s with
  | Added => "A"
  | Copied => "C"
  | Deleted => "D"
  | Modified => "M"
  | Renamed => "R"
  | Unmerged => "U"
  end.

(** The input of the parser by what stands between its delimiters: the
    strings [pieces], none of which holds a delimiter, joined by single
    delimiters, and the number of those pieces that are not empty. *)
Fixpoint joinNul (pieces : list string) : string :=
  match pieces with
  | [] => ""
  | p :: rest =>
      match rest with
      | [] => p
      | _ :: _ => p ++ String NUL (joinNul rest)
      end
  end.

Definition countNonEmpty (pieces : list string) : nat :=
  List.length (filter (fun p => negb (String.eqb p "")) pieces).

(** The fetches of the search as git is given them, the depth written in
    decimal digits, and the rounds and the prelude of the search with these
    fetches. *)
Definition gitFetchShallow (base ref : string) (depth : Z) : Command :=
  git ["fetch"; "--no-tags"; "--depth=" ++ decimal depth; "origin"; base; ref] false.

Definition gitFetchDeepen (base ref : string) (depth : Z) : Command :=
  git ["fetch"; "--deepen=" ++ decimal depth; "origin"; base; ref] false.

Definition searchRoundCalls (b base ref : string) (depth : Z) : list Command :=
  [mergeBase b ref; gitFetchDeepen base ref depth; revListCount].

Definition searchRoundsCalls (b base ref : string) (d0 : Z) (k : nat) : list Command :=
  flat_map (fun j => searchRoundCalls b base ref (saturatedDepth d0 j)) (seq 1 k).

Definition searchPreludeCalls (b base ref : string) (d0 : Z) : list Command :=
  [showRef base; mergeBase b ref; gitFetchShallow base ref d0; fetchTags base ref;
   revListCount].

(** The fetch without any argument, of the whole history. *)
Definition isFullFetch (c : Command) : bool :=
  match args c with
  | [a] => String.eqb a "fetch"
  | _ => false
  end.

(** The accessor calls of [getCurrentRef]. *)
Definition branchShowCurrent : Command := git ["branch"; "--show-current"] false.
Definition describeExact : Command := git ["describe"; "--tags"; "--exact-match"] true.
Definition revParseHead : Command := git ["rev-parse"; HEAD] false.

(** White space only; white space at the start; white space at the end. *)
Definition allWhiteSpace (s : string) : bool :=
  forallb jsWhiteSpace (list_ascii_of_string s).

Definition beginsBlank (s : string) : bool :=
  match s with
  | String c _ => jsWhiteSpace c
  | EmptyString => false
  end.

Fixpoint endsBlank (s : string) : bool :=
  match s with
  | EmptyString => false
  | String c EmptyString => jsWhiteSpace c
  | String _ r => endsBlank r
  end.

(** What [git show-ref] prints: for every reference a line with its SHA, a
    space and its full name; [eol] ends every line. *)
Fixpoint renderShowRef (eol : string) (entries : list (string * string)) : string :=
  match entries with
  | [] => ""
  | (sha, ref) :: rest => sha ++ String " " (ref ++ eol ++ renderShowRef eol rest)
  end.

(** The line ends of git: LF, or CR LF. *)
Definition lineEnd (eol : string) : Prop :=
  eol = String LF "" \/ eol = String CR (String LF "").

(** A line of [git show-ref]. *)
Definition showRefEntry (entry : string * string) : Prop :=
  isGitSha (fst entry) = true
  /\ startsWith "refs/" (snd entry) = true
  /\ noLineTerminator (snd entry) = true.

(** The replies of a trace, in order. *)
Definition replies (tr : list Event) : list Reply :=
  flat_map (fun e => match e with EExec _ r => [r] | _ => [] end) tr.

Definition replied (r : Reply) : bool :=
  match r with Done _ => true | Failed _ => false end.

(** How the errors of the accessor show in a run.  A run that does not
    throw made no call that threw.  A run that throws [e] either made a
    last call that threw [e], after calls that all replied, or threw an
    error of its own, one of [own], after calls that all replied. *)
Definition failFast {World A : Type} (own : JsError -> Prop) (r : Result World A) : Prop :=
  match outcome r with
  | Throw e =>
      (exists rs, replies (trace r) = (rs ++ [Failed e])%list /\ forallb replied rs = true)
      \/ (own e /\ forallb replied (replies (trace r)) = true)
  | _ => forallb replied (replies (trace r)) = true
  end.

(** A run that the bound on the iterations of the loop stops has read at
    least [n] commit counts. *)
Definition countsWhenOutOfFuel {World A : Type} (n : nat) (r : Result World A) : Prop :=
  outcome r = OutOfFuel -> (n <= List.length (counts (trace r)))%nat.

(** The subcommands of git that git.ts runs, and those of them whose exit
    code it reads instead of having a failure thrown. *)
Definition subcommands : list string :=
  ["log"; "cat-file"; "fetch"; "diff"; "ls-files"; "rev-list"; "show-ref";
   "merge-base"; "branch"; "describe"; "rev-parse"].

Definition probes : list string := ["cat-file"; "show-ref"; "merge-base"; "describe"].

Definition knownCall (c : Command) : bool :=
  String.eqb (commandLine c) "git"
  && match args c with
     | sub :: _ =>
         existsb (String.eqb sub) subcommands
         && Bool.eqb (ignoreReturnCode c) (existsb (String.eqb sub) probes)
     | [] => false
     end.

Definition knownEvent (e : Event) : Prop :=
  match e with
  | EExec c _ => knownCall c = true
  | _ => True
  end.

(** An event that neither opens nor closes a log group. *)
Definition noGroup (e : Event) : Prop :=
  match e with
  | EStartGroup _ | EEndGroup => False
  | _ => True
  end.

(** The subcommands of the search for the merge base. *)
Definition searchCommands : list string := ["show-ref"; "merge-base"; "fetch"; "rev-list"].

(** What the search for the merge base leaves in a trace: calls of its
    subcommands and messages, no warning and no log group. *)
Definition plainEvent (e : Event) : Prop :=
  match e with
  | EExec c _ =>
      knownCall c = true /\ existsb (String.eqb (hd "" (args c))) searchCommands = true
  | EInfo _ => True
  | _ => False
  end.

(** The log groups of a trace, read from a state in which a group is open
    or none is: a group is opened only when none is open and closed only
    when one is.  The result is the state at the end of the trace,
    [None] when the groups are not so nested. *)
Fixpoint groupState (open : bool) (tr : list Event) : option bool :=
  match tr with
  | [] => Some open
  | EStartGroup _ :: rest => if open then None else groupState true rest
  | EEndGroup :: rest => if open then groupState false rest else None
  | _ :: rest => groupState open rest
  end.



Example parse_sample :
  parseGitDiffOutput ("A" ++ String NUL "foo.txt") =
  [ {| status := Own Added; filename := "foo.txt" |} ].
Proof. reflexivity. Qed.

Example isGitSha_null : isGitSha NULL_SHA = true.
Proof. reflexivity. Qed.

Example candidateRefs_sample :
  candidateRefs ("abc refs/heads/main" ++ String CR (String LF "def refs/remotes/origin/main" ++ String LF ""))
  = ["refs/heads/main"; "refs/remotes/origin/main"].
Proof. reflexivity. Qed.

Example commitCountOf_sample :
  commitCountOf ("42" ++ String LF "") = 42%Z /\ commitCountOf "" = 0%Z
  /\ numberToString 20 = "20" /\ numberToString (-3) = "-3" /\ numberToString 0 = "0".
Proof. repeat split; reflexivity. Qed.

Example number_samples :
  toNumber 9007199254740993 = 9007199254740992%Z
  /\ toNumber 9007199254740995 = 9007199254740996%Z
  /\ commitCountOf "9007199254740993" = commitCountOf "9007199254740992"
  /\ numberToString 9007199254740992 = "9007199254740992"
  /\ numberToString (2 ^ 64) = "18446744073709552000"
  /\ numberToString (10 ^ 21) = "1e+21"
  /\ numberToString (- 2 ^ 70) = "-1.1805916207174113e+21"
  /\ numberToString ((2 ^ 53 - 1) * 2 ^ 971) = "1.7976931348623157e+308".
Proof. vm_compute. repeat split. Qed.

Example getChangesSinceMergeBase_sample :
  let r := getChangesSinceMergeBase scripted 5 "main" "HEAD" 10
             [ ok "abc refs/heads/main"; exited 1; ok ""; ok "10";
               exited 1; ok ""; ok "20"; exited 1; ok ""; ok "20"; ok ""; exited 1;
               ok ("A" ++ String NUL "x") ] in
  commands (trace r) =
    [ ["show-ref"; "main"]; ["merge-base"; "refs/heads/main"; "HEAD"];
      ["fetch"; "--no-tags"; "--depth=10"; "origin"; "main"; "HEAD"];
      ["rev-list"; "--count"; "--all"];
      ["merge-base"; "refs/heads/main"; "HEAD"];
      ["fetch"; "--deepen=20"; "origin"; "main"; "HEAD"];
      ["rev-list"; "--count"; "--all"];
      ["merge-base"; "refs/heads/main"; "HEAD"];
      ["fetch"; "--deepen=40"; "origin"; "main"; "HEAD"];
      ["rev-list"; "--count"; "--all"];
      ["fetch"];
      ["merge-base"; "refs/heads/main"; "HEAD"];
      ["diff"; "--no-renames"; "--name-status"; "-z"; "refs/heads/main..HEAD"] ]
  /\ outcome r = Ret [ {| status := Own Added; filename := "x" |} ].
Proof. vm_compute. split; reflexivity. Qed.

(** ** Splitting and tokens *)

Lemma append_empty_r (s : string) : s ++ "" = s.
Proof. induction s as [|c s IH]; simpl; [reflexivity | now rewrite IH]. Qed.

Lemma split_not_nil (sep : ascii) (s : string) : split sep s <> [].
Proof.
  destruct s as [|c r]; simpl; [discriminate|].
  destruct (Ascii.eqb c sep); [discriminate|].
  destruct (split sep r); discriminate.
Qed.

Lemma split_app_sep (sep : ascii) (a b : string) :
  split sep (a ++ String sep b) = (split sep a ++ split sep b)%list.
Proof.
  induction a as [|c a IH]; simpl.
  - now rewrite Ascii.eqb_refl.
  - destruct (Ascii.eqb c sep).
    + now rewrite IH.
    + rewrite IH. pose proof (split_not_nil sep a) as Hn.
      destruct (split sep a) as [|h t]; [congruence | reflexivity].
Qed.

Lemma split_nulFree (s : string) : nulFree s = true -> split NUL s = [s].
Proof.
  unfold nulFree. induction s as [|c s IH]; simpl; [reflexivity|].
  intros H. apply andb_true_iff in H as [Hc Hs].
  apply negb_true_iff in Hc. rewrite Hc, (IH Hs). reflexivity.
Qed.

Lemma split_pieces_nulFree (s : string) :
  Forall (fun t => nulFree t = true) (split NUL s).
Proof.
  induction s as [|c s IH]; simpl; [now repeat constructor|].
  destruct (Ascii.eqb c NUL) eqn:Hc; [now constructor|].
  destruct (split NUL s) as [|h t].
  - repeat constructor. unfold nulFree. simpl. now rewrite Hc.
  - inversion IH as [|? ? Hh Ht]; subst. constructor; [|exact Ht].
    unfold nulFree in *. simpl. now rewrite Hc, Hh.
Qed.

Lemma split_joinNul (pieces : list string) :
  pieces <> [] -> Forall (fun p => nulFree p = true) pieces ->
  split NUL (joinNul pieces) = pieces.
Proof.
  intros Hne H. induction H as [|p rest Hp Hrest IH]; [congruence|].
  destruct rest as [|q rest].
  - simpl. now apply split_nulFree.
  - change (joinNul (p :: q :: rest)) with (p ++ String NUL (joinNul (q :: rest))).
    rewrite split_app_sep, (split_nulFree _ Hp), IH by discriminate. reflexivity.
Qed.

Lemma joinNul_split (s : string) : joinNul (split NUL s) = s.
Proof.
  induction s as [|c s IH]; [reflexivity|].
  cbn [split]. destruct (Ascii.eqb c NUL) eqn:Hc.
  - apply Ascii.eqb_eq in Hc. subst c.
    pose proof (split_not_nil NUL s) as Hne.
    destruct (split NUL s) as [|h t]; [congruence|].
    change (joinNul ("" :: h :: t)) with ("" ++ String NUL (joinNul (h :: t))).
    now rewrite IH.
  - pose proof (split_not_nil NUL s) as Hne.
    destruct (split NUL s) as [|h t]; [congruence|].
    destruct t as [|h' t]; simpl in *; now rewrite <- IH.
Qed.

Lemma nonEmpty_not_empty (p : string) : nonEmpty p = negb (String.eqb p "").
Proof. now destruct p. Qed.

Lemma tokens_joinNul (pieces : list string) :
  Forall (fun p => nulFree p = true) pieces ->
  tokens (joinNul pieces) = filter (fun p => negb (String.eqb p "")) pieces.
Proof.
  intros H. unfold tokens. destruct pieces as [|p rest]; [reflexivity|].
  rewrite split_joinNul by (discriminate || exact H).
  apply filter_ext. intros a. apply nonEmpty_not_empty.
Qed.

Lemma tokens_app_nul (a b : string) :
  tokens (a ++ String NUL b) = (tokens a ++ tokens b)%list.
Proof. unfold tokens. now rewrite split_app_sep, filter_app. Qed.

Lemma tokens_token (t : string) : isToken t = true -> tokens t = [t].
Proof.
  unfold isToken, tokens. intros H. apply andb_true_iff in H as [Hn Hf].
  rewrite (split_nulFree _ Hf). simpl. now rewrite Hn.
Qed.

Lemma tokens_nulFree (t : string) :
  nulFree t = true -> tokens t = if nonEmpty t then [t] else [].
Proof. unfold tokens. intros Hf. now rewrite (split_nulFree _ Hf). Qed.

Lemma tokens_nuls (k : nat) : tokens (nuls k) = [].
Proof.
  induction k as [|k IH]; [reflexivity|].
  change (nuls (S k)) with ("" ++ String NUL (nuls k)).
  now rewrite tokens_app_nul, IH.
Qed.

Lemma tokens_trailing_nuls (s : string) (k : nat) : tokens (s ++ nuls k) = tokens s.
Proof.
  destruct k as [|k]; simpl.
  - now rewrite append_empty_r.
  - now rewrite tokens_app_nul, tokens_nuls, app_nil_r.
Qed.

Lemma tokens_renderRecords (recs : list (string * string)) :
  Forall wellFormedRecord recs ->
  tokens (renderRecords recs) = flat_map (fun rec => [fst rec; snd rec]) recs.
Proof.
  induction 1 as [|[c p] recs [Hc Hp] _ IH]; [reflexivity|].
  simpl in *. rewrite !tokens_app_nul, (tokens_token _ Hc), (tokens_token _ Hp), IH.
  reflexivity.
Qed.

Lemma tokens_renderPaths (paths : list string) :
  Forall (fun p => isToken p = true) paths -> tokens (renderPaths paths) = paths.
Proof.
  induction 1 as [|p paths Hp _ IH]; [reflexivity|].
  simpl. now rewrite tokens_app_nul, (tokens_token _ Hp), IH.
Qed.

(** Induction two elements at a time, as [pairTokens] recurses. *)
Lemma pair_induction (A : Type) (P : list A -> Prop) :
  P [] -> (forall a, P [a]) -> (forall a b l, P l -> P (a :: b :: l)) ->
  forall l, P l.
Proof.
  intros H0 H1 H2.
  assert (H : forall l, P l /\ forall a, P (a :: l)).
  { induction l as [|x l [IHl IHc]]; split; auto. }
  intro l. apply H.
Qed.

Lemma skipn_pair (toks : list string) :
  forall i, (i + 1 < List.length toks)%nat ->
            skipn i toks = nth i toks "" :: nth (i + 1) toks "" :: skipn (i + 2) toks.
Proof.
  induction toks as [|a toks IH]; intros i Hi; [simpl in Hi; lia|].
  destruct i as [|i].
  - destruct toks as [|b rest]; [simpl in Hi; lia | reflexivity].
  - simpl in Hi. cbn [skipn nth Nat.add]. apply IH. lia.
Qed.

Lemma pairTokens_short (toks : list string) :
  (List.length toks <= 1)%nat -> pairTokens toks = [].
Proof. destruct toks as [|a [|b rest]]; simpl; [reflexivity | reflexivity | lia]. Qed.

Lemma pushPairs_pairTokens (toks : list string) :
  forall steps i files,
    (List.length toks <= i + 2 * steps)%nat ->
    pushPairs steps toks i files = (files ++ pairTokens (skipn i toks))%list.
Proof.
  induction steps as [|steps IH]; intros i files Hsteps.
  - rewrite pairTokens_short, app_nil_r; [reflexivity|].
    rewrite length_skipn. lia.
  - cbn [pushPairs]. destruct (Nat.ltb_spec (i + 1) (List.length toks)) as [Hlt|Hge].
    + rewrite IH by lia. rewrite (skipn_pair toks i Hlt).
      cbn [pairTokens]. now rewrite <- app_assoc.
    + rewrite pairTokens_short, app_nil_r; [reflexivity|].
      rewrite length_skipn. lia.
Qed.

(** The parser pairs the tokens of its input. *)
Lemma parseGitDiffOutput_pairs (output : string) :
  parseGitDiffOutput output = pairTokens (tokens output).
Proof.
  unfold parseGitDiffOutput. rewrite pushPairs_pairTokens by lia. reflexivity.
Qed.

Lemma pairTokens_flat_map (recs : list (string * string)) :
  pairTokens (flat_map (fun rec => [fst rec; snd rec]) recs) = map fileOfRecord recs.
Proof. induction recs as [|[c p] recs IH]; simpl; [reflexivity | now rewrite IH]. Qed.

Lemma pairTokens_length (toks : list string) :
  List.length (pairTokens toks) = Nat.div2 (List.length toks).
Proof.
  induction toks as [| a | a b l IH] using pair_induction; simpl; auto.
Qed.

Lemma pairTokens_unpaired (toks extra : list string) :
  Nat.even (List.length toks) = true -> (List.length extra <= 1)%nat ->
  pairTokens (toks ++ extra) = pairTokens toks.
Proof.
  intros He Hx. induction toks as [| a | a b l IH] using pair_induction.
  - destruct extra as [|x [|y extra]]; simpl in *; [reflexivity | reflexivity | lia].
  - discriminate.
  - simpl. rewrite IH; [reflexivity | exact He].
Qed.

Lemma pairTokens_filenames (recs : list (string * string)) :
  map filename (map fileOfRecord recs) = map snd recs.
Proof. rewrite map_map. apply map_ext. now intros [c p]. Qed.

(** ** The parser *)

Lemma statusMap_decorated (c : ascii) (score : string) :
  statusMap (String "R" (String c score)) = Undefined
  /\ statusMap (String "C" (String c score)) = Undefined.
Proof. split; reflexivity. Qed.

Lemma isToken_cons (c : ascii) (s : string) :
  Ascii.eqb c NUL = false -> nulFree s = true -> isToken (String c s) = true.
Proof.
  intros Hc Hs. unfold isToken, nulFree in *. simpl. now rewrite Hc, Hs.
Qed.

Lemma isToken_nulFree (s : string) : isToken s = true -> nulFree s = true.
Proof. unfold isToken. intros H. now apply andb_true_iff in H. Qed.

Lemma parse_renderRecords (recs : list (string * string)) (k : nat) :
  Forall wellFormedRecord recs ->
  parseGitDiffOutput (renderRecords recs ++ nuls k) = map fileOfRecord recs.
Proof.
  intros Hwf. rewrite parseGitDiffOutput_pairs.
  now rewrite tokens_trailing_nuls, tokens_renderRecords, pairTokens_flat_map.
Qed.

(** C4: a null-delimited stream of (status code, path) records parses to the
    corresponding files, one per record and in order; delimiters added at the
    end of any input, however many, change nothing; and the stream
    A, foo.txt, D, bar.txt with its trailing delimiter yields exactly the two
    files foo.txt (added) and bar.txt (deleted). *)
Theorem parseGitDiffOutput_records :
  (forall (recs : list (string * string)) (k : nat),
      Forall wellFormedRecord recs ->
      parseGitDiffOutput (renderRecords recs ++ nuls k) = map fileOfRecord recs)
  /\ (forall (output : string) (k : nat),
      parseGitDiffOutput (output ++ nuls k) = parseGitDiffOutput output)
  /\ parseGitDiffOutput sampleStream =
       [ {| status := Own Added; filename := "foo.txt" |};
         {| status := Own Deleted; filename := "bar.txt" |} ].
Proof.
  split; [|split].
  - intros recs k Hwf. now apply parse_renderRecords.
  - intros output k. rewrite !parseGitDiffOutput_pairs. now rewrite tokens_trailing_nuls.
  - reflexivity.
Qed.

Lemma parseGitDiffOutput_records_witness :
  parseGitDiffOutput (renderRecords [("M", "src/git.ts"); ("U", "a b")] ++ nuls 2)
  = [ {| status := Own Modified; filename := "src/git.ts" |};
      {| status := Own Unmerged; filename := "a b" |} ].
Proof.
  apply (proj1 parseGitDiffOutput_records [("M", "src/git.ts"); ("U", "a b")] 2).
  repeat constructor.
Defined.

(** C9: [parseGitDiffOutput] is a total function that returns floor(n/2)
    files, n being the number of non-empty pieces between the delimiters of
    its input.  Every input is a list of delimiter-free pieces joined by
    single delimiters; for every such list the parser returns half as many
    files, rounded down, as there are non-empty pieces; and a last piece
    that is left without a partner is dropped: the result is that of the
    input without it. *)
Theorem parseGitDiffOutput_length :
  (forall pieces : list string,
      Forall (fun p => nulFree p = true) pieces ->
      List.length (parseGitDiffOutput (joinNul pieces)) = (countNonEmpty pieces / 2)%nat)
  /\ (forall output : string,
      exists pieces : list string,
        Forall (fun p => nulFree p = true) pieces /\ output = joinNul pieces)
  /\ (forall (pieces : list string) (unpaired : string),
      Forall (fun p => nulFree p = true) pieces ->
      nulFree unpaired = true ->
      Nat.even (countNonEmpty pieces) = true ->
      parseGitDiffOutput (joinNul (pieces ++ [unpaired])%list)
      = parseGitDiffOutput (joinNul pieces)).
Proof.
  split; [|split].
  - intros pieces H. unfold countNonEmpty.
    now rewrite parseGitDiffOutput_pairs, pairTokens_length, Nat.div2_div, tokens_joinNul.
  - intros output. exists (split NUL output). split.
    + apply split_pieces_nulFree.
    + symmetry. apply joinNul_split.
  - intros pieces unpaired H Hu He. unfold countNonEmpty in He.
    rewrite !parseGitDiffOutput_pairs, !tokens_joinNul
      by (try apply Forall_app; auto).
    rewrite filter_app. apply pairTokens_unpaired; [exact He|].
    simpl. destruct (negb (unpaired =? "")); simpl; lia.
Qed.

Lemma parseGitDiffOutput_length_witness :
  List.length (parseGitDiffOutput (joinNul ["A"; "foo.txt"; ""; "D"; "bar.txt"; "M"; ""]))
  = 2%nat
  /\ parseGitDiffOutput (joinNul (["A"; "foo.txt"; "D"; "bar.txt"; ""] ++ ["M"])%list)
     = parseGitDiffOutput (joinNul ["A"; "foo.txt"; "D"; "bar.txt"; ""]).
Proof.
  split.
  - apply (proj1 parseGitDiffOutput_length ["A"; "foo.txt"; ""; "D"; "bar.txt"; "M"; ""]).
    repeat constructor.
  - apply (proj2 (proj2 parseGitDiffOutput_length)
             ["A"; "foo.txt"; "D"; "bar.txt"; ""] "M");
      [repeat constructor | reflexivity | reflexivity].
Defined.

(** C3, as the code has it: the status token is looked up as it stands.  A
    record whose token is a rename or copy code followed by a similarity
    score gets an undefined status; only the bare codes R and C give Renamed
    and Copied. *)
Theorem parseGitDiffOutput_keeps_score :
  forall (score path : string),
    isToken score = true -> isToken path = true ->
    parseGitDiffOutput (renderRecords [("R" ++ score, path)])
      = [ {| status := Undefined; filename := path |} ]
    /\ parseGitDiffOutput (renderRecords [("C" ++ score, path)])
      = [ {| status := Undefined; filename := path |} ]
    /\ parseGitDiffOutput (renderRecords [("R", path)])
      = [ {| status := Own Renamed; filename := path |} ]
    /\ parseGitDiffOutput (renderRecords [("C", path)])
      = [ {| status := Own Copied; filename := path |} ].
Proof.
  intros score path Hs Hp.
  assert (Hwf : forall code, isToken code = true ->
            parseGitDiffOutput (renderRecords [(code, path)])
            = [ {| status := statusMap code; filename := path |} ]).
  { intros code Hc.
    rewrite <- (append_empty_r (renderRecords _)).
    change "" with (nuls 0). rewrite parse_renderRecords; [reflexivity|].
    constructor; [split; assumption | constructor]. }
  pose proof (isToken_nulFree _ Hs) as Hf.
  destruct score as [|c score]; [discriminate|].
  repeat split.
  - rewrite Hwf; [reflexivity | now apply isToken_cons].
  - rewrite Hwf; [reflexivity | now apply isToken_cons].
  - now rewrite Hwf.
  - now rewrite Hwf.
Qed.

Lemma parseGitDiffOutput_keeps_score_witness :
  parseGitDiffOutput (renderRecords [("R" ++ "087", "lib/a.js")])
  = [ {| status := Undefined; filename := "lib/a.js" |} ].
Proof.
  apply (proj1 (parseGitDiffOutput_keeps_score "087" "lib/a.js" eq_refl eq_refl)).
Defined.

(** C3 as stated fails: the tokens R100 and C75 are not stripped, and the
    files that come out have neither status Renamed nor status Copied. *)
Lemma similarity_score_not_stripped :
  map status (parseGitDiffOutput (renderRecords [("R100", "old.txt")])) <> [Own Renamed]
  /\ map status (parseGitDiffOutput (renderRecords [("C75", "old.txt")])) <> [Own Copied]
  /\ parseGitDiffOutput (renderRecords [("R100", "old.txt")])
     = [ {| status := Undefined; filename := "old.txt" |} ].
Proof. repeat split; vm_compute; discriminate. Qed.

(** ** [isGitSha] *)

Lemma lowerAlnum_alphabet (c : ascii) :
  lowerAlnum c = existsb (Ascii.eqb c) lowerAlnumAlphabet.
Proof. destruct c as [[] [] [] [] [] [] [] []]; reflexivity. Qed.

Lemma lowerAlnum_In (c : ascii) : lowerAlnum c = true <-> In c lowerAlnumAlphabet.
Proof.
  rewrite lowerAlnum_alphabet, existsb_exists. split.
  - intros [x [Hin Heq]]. apply Ascii.eqb_eq in Heq. now subst.
  - intros Hin. exists c. split; [exact Hin | apply Ascii.eqb_refl].
Qed.

Lemma matchClassTimes_all (cls : ascii -> bool) (n : nat) :
  forall s, matchClassTimes cls n s = Some "" <->
            String.length s = n /\ forallb cls (list_ascii_of_string s) = true.
Proof.
  induction n as [|n IH]; intros [|c r]; simpl.
  - tauto.
  - split; [discriminate | intros [H _]; discriminate].
  - split; [discriminate | intros [H _]; discriminate].
  - destruct (cls c); simpl.
    + rewrite IH. split; intros [H1 H2]; split; congruence || lia.
    + split; [discriminate | intros [_ H]; discriminate].
Qed.

Lemma isGitSha_match (ref : string) :
  isGitSha ref = true <-> matchClassTimes lowerAlnum 40 ref = Some "".
Proof.
  unfold isGitSha. destruct (matchClassTimes lowerAlnum 40 ref) as [[|c r]|].
  - tauto.
  - split; discriminate.
  - split; discriminate.
Qed.

(** C10: [isGitSha] holds exactly of the strings of 40 characters taken from
    a-z and 0-9, so also of forty times the letter z, which is no hexadecimal
    number; and [getFullRef] returns such a string as it is, without any call
    of the accessor. *)
Theorem isGitSha_exactly_40_lowerAlnum :
  (forall ref : string,
      isGitSha ref = true <->
      String.length ref = 40%nat
      /\ Forall (fun c => In c lowerAlnumAlphabet) (list_ascii_of_string ref))
  /\ isGitSha fortyZ = true
  /\ (forall (World : Type) (run : Command -> World -> Reply * World)
             (ref : string) (w : World),
        isGitSha ref = true ->
        getFullRef run ref w = {| trace := []; outcome := Ret (Some ref); final := w |}).
Proof.
  split; [|split].
  - intros ref. rewrite isGitSha_match, matchClassTimes_all, forallb_forall, Forall_forall.
    split; intros [Hl Hc]; (split; [exact Hl|]); intros c Hin; apply lowerAlnum_In; auto.
  - reflexivity.
  - intros World run ref w H. unfold getFullRef. now rewrite H.
Qed.

Lemma isGitSha_exactly_40_lowerAlnum_witness :
  getFullRef scripted fortyZ [Failed (Error "unused")]
  = {| trace := []; outcome := Ret (Some fortyZ); final := [Failed (Error "unused")] |}
  /\ Forall (fun c => In c lowerAlnumAlphabet) (list_ascii_of_string NULL_SHA).
Proof.
  split.
  - apply (proj2 (proj2 isGitSha_exactly_40_lowerAlnum)). reflexivity.
  - apply (proj1 (proj1 isGitSha_exactly_40_lowerAlnum NULL_SHA)). reflexivity.
Defined.

(** ** [getFullRef] *)

Section Resolution.

Variable World : Type.
Variable run : Command -> World -> Reply * World.

Lemma startsWith_nonEmpty (c : ascii) (p s : string) :
  startsWith (String c p) s = true -> nonEmpty s = true.
Proof. destruct s; simpl; [discriminate | reflexivity]. Qed.

Lemma find_first (A : Type) (f : A -> bool) (before : list A) (x : A) (after : list A) :
  Forall (fun y => f y = false) before -> f x = true ->
  find f (before ++ x :: after) = Some x.
Proof.
  induction 1 as [|y before Hy _ IH]; intros Hx; simpl.
  - now rewrite Hx.
  - rewrite Hy. now apply IH.
Qed.

Lemma find_absent (A : Type) (f : A -> bool) (l : list A) :
  Forall (fun y => f y = false) l -> find f l = None.
Proof. induction 1 as [|y l Hy _ IH]; simpl; [reflexivity | now rewrite Hy]. Qed.

(** What [getFullRef] does with the reply to [git show-ref]. *)
Lemma getFullRef_show_ref (shortName : string) (w : World) :
  isGitSha shortName = false ->
  getFullRef run shortName w =
  let '(reply, w') := run (showRef shortName) w in
  {| trace := [EExec (showRef shortName) reply];
     outcome :=
       match reply with
       | Failed e => Throw e
       | Done r =>
           match candidateRefs (stdout r) with
           | [] => Ret None
           | first :: _ =>
               match find (startsWith "refs/remotes/origin/") (candidateRefs (stdout r)) with
               | Some remoteRef => Ret (Some remoteRef)
               | None => Ret (Some first)
               end
           end
       end;
     final := w' |}.
Proof.
  intros Hsha. unfold getFullRef. rewrite Hsha. unfold bind, exec.
  fold (git ["show-ref"; shortName] true). fold (showRef shortName).
  destruct (run (showRef shortName) w) as [[e|r] w']; simpl; [reflexivity|].
  destruct (candidateRefs (stdout r)) as [|first rest] eqn:Hrefs; simpl; [reflexivity|].
  destruct (startsWith "refs/remotes/origin/" first) eqn:Hfirst.
  - rewrite (startsWith_nonEmpty _ _ _ Hfirst). reflexivity.
  - destruct (find (startsWith "refs/remotes/origin/") rest) as [remote|] eqn:Hfind; [|reflexivity].
    apply find_some in Hfind as [_ Hremote].
    rewrite (startsWith_nonEmpty _ _ _ Hremote). reflexivity.
Qed.

(** C6: for a short name that is not a SHA, [getFullRef] asks [git show-ref]
    and resolves among the candidate refs of its output: none gives
    undefined; the first candidate under refs/remotes/origin/ is returned
    when there is one; otherwise the first candidate is returned. *)
Theorem getFullRef_prefers_remote :
  forall (shortName : string) (w w' : World) (r : ExecResult),
    isGitSha shortName = false ->
    run (showRef shortName) w = (Done r, w') ->
    let refs := candidateRefs (stdout r) in
    let resolved := outcome (getFullRef run shortName w) in
    trace (getFullRef run shortName w) = [EExec (showRef shortName) (Done r)]
    /\ (refs = [] -> resolved = Ret None)
    /\ (forall before remote after,
          refs = (before ++ remote :: after)%list ->
          Forall (fun x => startsWith "refs/remotes/origin/" x = false) before ->
          startsWith "refs/remotes/origin/" remote = true ->
          resolved = Ret (Some remote))
    /\ (forall first rest,
          refs = first :: rest ->
          Forall (fun x => startsWith "refs/remotes/origin/" x = false) refs ->
          resolved = Ret (Some first)).
Proof.
  intros shortName w w' r Hsha Hrun refs resolved. subst refs resolved.
  rewrite (getFullRef_show_ref _ _ Hsha), Hrun. simpl.
  split; [reflexivity|]. split; [|split].
  - intros ->. reflexivity.
  - intros before remote after Hrefs Hbefore Hremote.
    rewrite Hrefs, (find_first _ _ _ Hbefore Hremote).
    destruct before; reflexivity.
  - intros first rest Hrefs Hnone. rewrite Hrefs in *.
    now rewrite (find_absent _ Hnone).
Qed.

End Resolution.

Lemma getFullRef_prefers_remote_witness :
  outcome (getFullRef scripted "main"
             [ok ("1f2e refs/heads/main" ++ String LF ("1f2e refs/remotes/origin/main" ++ String LF ""))])
  = Ret (Some "refs/remotes/origin/main").
Proof.
  refine (proj1 (proj2 (proj2
    (@getFullRef_prefers_remote _ scripted "main"
       [ok ("1f2e refs/heads/main" ++ String LF ("1f2e refs/remotes/origin/main" ++ String LF ""))]
       [] _ eq_refl eq_refl)))
    ["refs/heads/main"] "refs/remotes/origin/main" [] eq_refl _ eq_refl).
  repeat constructor.
Defined.

(** ** Tactics *)

(** One step of symbolic execution: case analysis on the next reply of the
    accessor. *)
Ltac next_reply e x w :=
  match goal with
  | |- context [?run ?c ?w0] =>
      match type of (run c w0) with
      | (Reply * _)%type => destruct (run c w0) as [[e|x] w] eqn:?; simpl
      end
  end.

(** Membership in a list that is written out. *)
Ltac in_list := simpl; repeat (first [left; reflexivity | right]).

(** ** Reasoning about the effects *)

Section Effects.

Variable World : Type.
Variable run : Command -> World -> Reply * World.

Lemma bind_Ret (A B : Type) (m : M World A) (k : A -> M World B) (w : World) (a : A) :
  outcome (m w) = Ret a ->
  bind m k w = {| trace := (trace (m w) ++ trace (k a (final (m w))))%list;
                  outcome := outcome (k a (final (m w)));
                  final := final (k a (final (m w))) |}.
Proof.
  unfold bind. destruct (m w) as [tr o w1]; simpl. intros ->.
  destruct (k a w1); reflexivity.
Qed.

Lemma bind_known (A B : Type) (m : M World A) (k : A -> M World B) (w w1 : World)
    (tr : list Event) (a : A) :
  m w = {| trace := tr; outcome := Ret a; final := w1 |} ->
  bind m k w = {| trace := (tr ++ trace (k a w1))%list;
                  outcome := outcome (k a w1);
                  final := final (k a w1) |}.
Proof. unfold bind. intros ->. destruct (k a w1); reflexivity. Qed.

Lemma bind_Throw (A B : Type) (m : M World A) (k : A -> M World B) (w : World) (e : JsError) :
  outcome (m w) = Throw e ->
  bind m k w = {| trace := trace (m w); outcome := Throw e; final := final (m w) |}.
Proof. unfold bind. destruct (m w) as [tr o w1]; simpl. intros ->. reflexivity. Qed.

Lemma bind_OutOfFuel (A B : Type) (m : M World A) (k : A -> M World B) (w : World) :
  outcome (m w) = OutOfFuel ->
  bind m k w = {| trace := trace (m w); outcome := OutOfFuel; final := final (m w) |}.
Proof. unfold bind. destruct (m w) as [tr o w1]; simpl. intros ->. reflexivity. Qed.

Lemma bind_returns (A B : Type) (m : M World A) (k : A -> M World B) (w : World) (b : B) :
  outcome (bind m k w) = Ret b ->
  exists a, outcome (m w) = Ret a
            /\ outcome (k a (final (m w))) = Ret b
            /\ trace (bind m k w) = (trace (m w) ++ trace (k a (final (m w))))%list.
Proof.
  destruct (outcome (m w)) as [a|e|] eqn:Hm.
  - rewrite (bind_Ret _ _ _ Hm). simpl. intros H. exists a. auto.
  - rewrite (bind_Throw _ _ _ Hm). discriminate.
  - rewrite (bind_OutOfFuel _ _ _ Hm). discriminate.
Qed.

Lemma bind_ret (A B : Type) (a : A) (k : A -> M World B) (w : World) :
  bind (ret a) k w = k a w.
Proof. unfold bind, ret. destruct (k a w); reflexivity. Qed.

Lemma bind_assoc (A B C : Type) (m : M World A) (k1 : A -> M World B)
    (k2 : B -> M World C) (w : World) :
  bind (bind m k1) k2 w = bind m (fun a => bind (k1 a) k2) w.
Proof.
  unfold bind. destruct (m w) as [tr [a|e|] w1]; try reflexivity.
  destruct (k1 a w1) as [tr1 [b|e|] w2]; try reflexivity.
  destruct (k2 b w2) as [tr2 o w3]. now rewrite app_assoc.
Qed.

Lemma bind_emit (B : Type) (e : Event) (k : unit -> M World B) (w : World) :
  bind (emit e) k w = {| trace := e :: trace (k tt w);
                         outcome := outcome (k tt w);
                         final := final (k tt w) |}.
Proof. unfold bind, emit. destruct (k tt w); reflexivity. Qed.

Lemma bind_exec_Done (B : Type) (a : list string) (ignore : bool)
    (k : ExecResult -> M World B) (w w1 : World) (x : ExecResult) :
  run (git a ignore) w = (Done x, w1) ->
  bind (exec run "git" a ignore) k w =
  {| trace := EExec (git a ignore) (Done x) :: trace (k x w1);
     outcome := outcome (k x w1);
     final := final (k x w1) |}.
Proof.
  unfold bind, exec, git. intros ->. destruct (k x w1); reflexivity.
Qed.

Lemma bind_exec_Failed (B : Type) (a : list string) (ignore : bool)
    (k : ExecResult -> M World B) (w w1 : World) (e : JsError) :
  run (git a ignore) w = (Failed e, w1) ->
  bind (exec run "git" a ignore) k w =
  {| trace := [EExec (git a ignore) (Failed e)]; outcome := Throw e; final := w1 |}.
Proof. unfold bind, exec, git. intros ->. reflexivity. Qed.

Lemma tryFinally_endGroup (A : Type) (body : M World A) (w : World) :
  tryFinally body endGroup w =
  match outcome (body w) with
  | OutOfFuel => {| trace := trace (body w); outcome := OutOfFuel; final := final (body w) |}
  | o => {| trace := (trace (body w) ++ [EEndGroup])%list; outcome := o; final := final (body w) |}
  end.
Proof. unfold tryFinally, endGroup, emit. destruct (body w) as [tr [a|e|] w1]; reflexivity. Qed.

Lemma tryFinally_known (A : Type) (body : M World A) (w w1 : World)
    (tr : list Event) (a : A) :
  body w = {| trace := tr; outcome := Ret a; final := w1 |} ->
  tryFinally body endGroup w
  = {| trace := (tr ++ [EEndGroup])%list; outcome := Ret a; final := w1 |}.
Proof. unfold tryFinally, endGroup, emit. intros ->. reflexivity. Qed.

Lemma calls_app (tr1 tr2 : list Event) :
  calls (tr1 ++ tr2) = (calls tr1 ++ calls tr2)%list.
Proof. unfold calls. apply flat_map_app. Qed.

(** [getFullRef] calls nothing but [git show-ref]. *)
Lemma getFullRef_calls (shortName : string) (w : World) :
  calls (trace (getFullRef run shortName w)) = []
  \/ calls (trace (getFullRef run shortName w)) = [showRef shortName].
Proof.
  destruct (isGitSha shortName) eqn:Hsha.
  - left. unfold getFullRef. now rewrite Hsha.
  - right. unfold getFullRef. rewrite Hsha. unfold bind, exec.
    fold (git ["show-ref"; shortName] true). fold (showRef shortName).
    destruct (run (showRef shortName) w) as [[e|x] w1]; simpl; [reflexivity|].
    destruct (candidateRefs (stdout x)) as [|first rest]; simpl; [reflexivity|].
    destruct (startsWith "refs/remotes/origin/" first).
    + destruct (nonEmpty first); reflexivity.
    + destruct (find (startsWith "refs/remotes/origin/") rest) as [remote|]; [|reflexivity].
      destruct (nonEmpty remote); reflexivity.
Qed.

Lemma lastOutput_app (tr1 tr2 : list Event) (out : string) :
  lastOutput tr2 = Some out -> lastOutput (tr1 ++ tr2)%list = Some out.
Proof. intros H. induction tr1 as [|e tr1 IH]; simpl; [exact H | now rewrite IH]. Qed.

(** The tail of a discovery function when its accessor call replies. *)
Lemma read_output_run (A : Type) (name : string) (a : list string)
    (post : string -> A) (w w' : World) (y : ExecResult) :
  run (git a false) w = (Done y, w') ->
  (startGroup name ;;;
   output <- tryFinally (r <- exec run "git" a false ;; ret (stdout r))
                        (fixStdOutNullTermination ;;; endGroup) ;;
   ret (post output)) w
  = {| trace := [EStartGroup name; EExec (git a false) (Done y); EInfo ""; EEndGroup];
       outcome := Ret (post (stdout y));
       final := w' |}.
Proof.
  intros Hrun.
  unfold fixStdOutNullTermination, startGroup, endGroup, info, emit, bind, tryFinally,
    exec, ret.
  fold (git a false). now rewrite Hrun.
Qed.

End Effects.

(** ** [getChanges] *)

Section DirectCompare.

Variable World : Type.
Variable run : Command -> World -> Reply * World.

(** The calls of [getChanges] and what it returns. *)
Lemma getChanges_calls :
  forall (baseRef : string) (w w1 : World) (reply : Reply),
    run (catFile baseRef) w = (reply, w1) ->
    let r := getChanges run baseRef w in
    let present := match reply with Done x => (code x =? 0)%Z | Failed _ => false end in
    (exists rest,
        calls (trace r) = catFile baseRef :: rest
        /\ incl rest [fetchOne baseRef; diff (baseRef ++ "..HEAD")])
    /\ (In (fetchOne baseRef) (calls (trace r)) <->
        exists x, reply = Done x /\ code x <> 0%Z)
    /\ (forall files,
          outcome r = Ret files ->
          calls (trace r) =
            (catFile baseRef :: (if present then [] else [fetchOne baseRef])
               ++ [diff (baseRef ++ "..HEAD")])%list
          /\ exists x,
               In (EExec (diff (baseRef ++ "..HEAD")) (Done x)) (trace r)
               /\ files = parseGitDiffOutput (stdout x)).
Proof.
  intros baseRef w w1 reply Hrun r present. subst r present.
  unfold getChanges, hasCommit, fixStdOutNullTermination, startGroup, endGroup, info,
    emit, bind, tryFinally, exec, ret.
  fold (git ["cat-file"; "-e"; baseRef ++ "^{commit}"] true). fold (catFile baseRef).
  rewrite Hrun. destruct reply as [e|x]; simpl.
  - split; [exists []; split; [reflexivity | apply incl_nil_l]|].
    split; [|discriminate].
    split; [intros [H|[]]; discriminate H | intros [x [H _]]; discriminate H].
  - destruct (code x =? 0)%Z eqn:Hcode; simpl.
    + next_reply e y w2.
      * split; [eexists; split; [reflexivity | intros c [<-|[]]; simpl; auto]|].
        split; [|discriminate].
        apply Z.eqb_eq in Hcode.
        split; [intros [H|[H|[]]]; discriminate H | intros [x' [H Hx]]; congruence].
      * split; [eexists; split; [reflexivity | intros c [<-|[]]; simpl; auto]|].
        apply Z.eqb_eq in Hcode.
        split; [split; [intros [H|[H|[]]]; discriminate H
                       | intros [x' [H Hx]]; congruence]|].
        intros files [= <-]. split; [reflexivity|].
        exists y. split; [in_list | reflexivity].
    + apply Z.eqb_neq in Hcode.
      next_reply e z w2.
      * split; [eexists; split; [reflexivity | intros c [<-|[]]; simpl; auto]|].
        split; [|discriminate].
        split; [intros _; exists x; auto | simpl; auto].
      * next_reply e y w3.
        -- split; [eexists; split; [reflexivity | intros c [<-|[<-|[]]]; simpl; auto]|].
           split; [|discriminate].
           split; [intros _; exists x; auto | simpl; auto].
        -- split; [eexists; split; [reflexivity | intros c [<-|[<-|[]]]; simpl; auto]|].
           split; [split; [intros _; exists x; auto | simpl; auto]|].
           intros files [= <-]. split; [reflexivity|].
           exists y. split; [in_list | reflexivity].
Qed.

(** [getChanges] returns when its calls reply. *)
Lemma getChanges_returns (baseRef : string) (w w1 : World) (x : ExecResult) :
  run (catFile baseRef) w = (Done x, w1) ->
  (code x = 0%Z ->
   forall (y : ExecResult) (w2 : World),
     run (diff (baseRef ++ "..HEAD")) w1 = (Done y, w2) ->
     outcome (getChanges run baseRef w) = Ret (parseGitDiffOutput (stdout y)))
  /\ (code x <> 0%Z ->
      forall (f y : ExecResult) (w2 w3 : World),
        run (fetchOne baseRef) w1 = (Done f, w2) ->
        run (diff (baseRef ++ "..HEAD")) w2 = (Done y, w3) ->
        outcome (getChanges run baseRef w) = Ret (parseGitDiffOutput (stdout y))).
Proof.
  intros Hcat.
  assert (Hhas : hasCommit run baseRef w
                 = {| trace := [EStartGroup ("Checking if commit for " ++ baseRef
                                             ++ " is locally available");
                                EExec (catFile baseRef) (Done x); EEndGroup];
                      outcome := Ret (code x =? 0)%Z;
                      final := w1 |}).
  { unfold hasCommit, startGroup, endGroup, emit, bind, tryFinally, exec, ret.
    fold (git ["cat-file"; "-e"; baseRef ++ "^{commit}"] true). fold (catFile baseRef).
    now rewrite Hcat. }
  split.
  - intros Hx y w2 Hdiff. apply Z.eqb_eq in Hx. unfold getChanges.
    erewrite bind_known by exact Hhas. rewrite Hx. cbn [negb outcome].
    rewrite bind_ret. erewrite read_output_run by exact Hdiff. reflexivity.
  - intros Hx f y w2 w3 Hfetch Hdiff. apply Z.eqb_neq in Hx. unfold getChanges.
    erewrite bind_known by exact Hhas. rewrite Hx. cbn [negb outcome].
    unfold startGroup at 1. rewrite bind_assoc, bind_emit. cbn [outcome].
    rewrite bind_assoc. erewrite bind_exec_Done by exact Hfetch. cbn [outcome].
    unfold endGroup at 1. rewrite bind_emit. cbn [outcome].
    erewrite read_output_run by exact Hdiff. reflexivity.
Qed.

(** C7: [getChanges] first asks whether the commit of [baseRef] is locally
    available; it fetches that single commit from origin (depth 1, no tags)
    exactly when the answer is a non-zero exit code; the only other call it
    makes is the two-dot comparison [baseRef..HEAD]; what it returns is the
    parse of the output of that comparison, and it does return it whenever
    the calls it makes reply. *)
Theorem getChanges_direct_compare :

  forall (baseRef : string) (w w1 : World) (reply : Reply),
    run (catFile baseRef) w = (reply, w1) ->
    let r := getChanges run baseRef w in
    let present := match reply with Done x => (code x =? 0)%Z | Failed _ => false end in
    (exists rest,
        calls (trace r) = catFile baseRef :: rest
        /\ incl rest [fetchOne baseRef; diff (baseRef ++ "..HEAD")])
    /\ (In (fetchOne baseRef) (calls (trace r)) <->
        exists x, reply = Done x /\ code x <> 0%Z)
    /\ (forall files,
          outcome r = Ret files ->
          calls (trace r) =
            (catFile baseRef :: (if present then [] else [fetchOne baseRef])
               ++ [diff (baseRef ++ "..HEAD")])%list
          /\ exists x,
               In (EExec (diff (baseRef ++ "..HEAD")) (Done x)) (trace r)
               /\ files = parseGitDiffOutput (stdout x))
    /\ (forall x,
          reply = Done x ->
          (code x = 0%Z ->
           forall (y : ExecResult) (w2 : World),
             run (diff (baseRef ++ "..HEAD")) w1 = (Done y, w2) ->
             outcome r = Ret (parseGitDiffOutput (stdout y)))
          /\ (code x <> 0%Z ->
              forall (f y : ExecResult) (w2 w3 : World),
                run (fetchOne baseRef) w1 = (Done f, w2) ->
                run (diff (baseRef ++ "..HEAD")) w2 = (Done y, w3) ->
                outcome r = Ret (parseGitDiffOutput (stdout y)))).
Proof.
  intros baseRef w w1 reply Hrun r present.
  pose proof (getChanges_calls Hrun) as (Hfirst & Hfetch & Hret).
  split; [exact Hfirst|]. split; [exact Hfetch|]. split; [exact Hret|].
  intros x ->. now apply getChanges_returns.
Qed.

End DirectCompare.

Lemma getChanges_direct_compare_witness :
  In (fetchOne "v1") (calls (trace (getChanges scripted "v1"
        [exited 128; ok ""; ok ("M" ++ String NUL "README.md")]))).
Proof.
  apply (proj1 (proj2 (@getChanges_direct_compare _ scripted "v1"
           [exited 128; ok ""; ok ("M" ++ String NUL "README.md")] _ _ eq_refl))).
  exists {| code := 128; stdout := "" |}. split; [reflexivity | discriminate].
Defined.

(** ** Uniqueness of the paths of a change-set *)

Section Uniqueness.

Variable World : Type.
Variable run : Command -> World -> Reply * World.

(** The common tail of the discovery functions: one accessor call inside a
    log group, whose output is handed to [post]. *)
Lemma read_output_returns (A : Type) (name : string) (a : list string)
    (post : string -> A) (w : World) (v : A) :
  outcome ((startGroup name ;;;
            output <- tryFinally (r <- exec run "git" a false ;; ret (stdout r))
                                 (fixStdOutNullTermination ;;; endGroup) ;;
            ret (post output)) w) = Ret v ->
  exists out,
    lastOutput (trace ((startGroup name ;;;
            output <- tryFinally (r <- exec run "git" a false ;; ret (stdout r))
                                 (fixStdOutNullTermination ;;; endGroup) ;;
            ret (post output)) w)) = Some out
    /\ v = post out.
Proof.
  unfold fixStdOutNullTermination, startGroup, endGroup, info, emit, bind, tryFinally,
    exec, ret.
  next_reply e x w1; [discriminate|].
  intros [= <-]. exists (stdout x). split; reflexivity.
Qed.

Lemma getChanges_reads (baseRef : string) (w : World) (files : list File) :
  outcome (getChanges run baseRef w) = Ret files ->
  exists out, lastOutput (trace (getChanges run baseRef w)) = Some out
              /\ files = parseGitDiffOutput out.
Proof.
  unfold getChanges. intros H.
  apply bind_returns in H as (has & _ & H & ->).
  apply bind_returns in H as (u & _ & H & ->).
  apply read_output_returns in H as (out & Hout & ->).
  exists out. split; [|reflexivity].
  now do 2 apply lastOutput_app.
Qed.

Lemma getChangesSinceMergeBase_reads (fuel : nat) (base ref : string) (depth : Z)
    (w : World) (files : list File) :
  outcome (getChangesSinceMergeBase run fuel base ref depth w) = Ret files ->
  exists out,
    lastOutput (trace (getChangesSinceMergeBase run fuel base ref depth w)) = Some out
    /\ files = parseGitDiffOutput out.
Proof.
  unfold getChangesSinceMergeBase. intros H.
  apply bind_returns in H as (u & _ & H & ->).
  apply bind_returns in H as ([baseRef noMergeBase] & _ & H & ->).
  apply bind_returns in H as (diffArg & _ & H & ->).
  apply read_output_returns in H as (out & Hout & ->).
  exists out. split; [|reflexivity].
  now do 3 apply lastOutput_app.
Qed.

Lemma records_unique (recs : list (string * string)) (out : string) (files : list File) :
  Some out = Some (renderRecords recs) ->
  files = parseGitDiffOutput out ->
  Forall wellFormedRecord recs ->
  NoDup (map snd recs) ->
  NoDup (map filename files).
Proof.
  intros [= ->] -> Hwf Hnd.
  rewrite <- (append_empty_r (renderRecords recs)). change "" with (nuls 0).
  now rewrite (parse_renderRecords 0 Hwf), pairTokens_filenames.
Qed.

(** C8: whenever one of the five discovery functions returns, and the output
    it read from the accessor lists every path at most once (well-formed
    records, or paths for [listAllFilesAsAdded], pairwise distinct), the
    files returned have pairwise distinct names. *)
Theorem discovery_paths_unique :
  forall (fuel : nat) (base ref baseRef : string) (initialFetchDepth : Z),
    uniquePathsOfRecords (getChanges run baseRef)
    /\ uniquePathsOfRecords (getChangesInLastCommit run)
    /\ uniquePathsOfRecords (getChangesOnHead run)
    /\ uniquePathsOfRecords (getChangesSinceMergeBase run fuel base ref initialFetchDepth)
    /\ uniquePathsOfList (listAllFilesAsAdded run).
Proof.
  intros fuel base ref baseRef depth. repeat split.
  - intros w files recs Hret Hout Hwf Hnd.
    apply getChanges_reads in Hret as (out & Hout' & Hfiles).
    rewrite Hout' in Hout. eapply records_unique; eauto.
  - intros w files recs Hret Hout Hwf Hnd.
    apply read_output_returns in Hret as (out & Hout' & Hfiles).
    unfold getChangesInLastCommit in Hout. rewrite Hout' in Hout.
    eapply records_unique; eauto.
  - intros w files recs Hret Hout Hwf Hnd.
    apply read_output_returns in Hret as (out & Hout' & Hfiles).
    unfold getChangesOnHead in Hout. rewrite Hout' in Hout.
    eapply records_unique; eauto.
  - intros w files recs Hret Hout Hwf Hnd.
    apply getChangesSinceMergeBase_reads in Hret as (out & Hout' & Hfiles).
    rewrite Hout' in Hout. eapply records_unique; eauto.
  - intros w files paths Hret Hout Hwf Hnd.
    apply read_output_returns in Hret as (out & Hout' & Hfiles).
    unfold listAllFilesAsAdded in Hout. rewrite Hout' in Hout.
    injection Hout as ->. subst files. unfold filesAsAdded.
    rewrite (tokens_renderPaths Hwf), map_map. simpl. now rewrite map_id.
Qed.

End Uniqueness.

Lemma discovery_paths_unique_witness :
  NoDup (map filename
           [ {| status := Own Added; filename := "a.txt" |};
             {| status := Own Modified; filename := "b.txt" |} ]).
Proof.
  refine (proj1 (@discovery_paths_unique _ scripted 0 "" "" "v1" 0)
            [exited 0; ok (renderRecords [("A", "a.txt"); ("M", "b.txt")])]
            _ [("A", "a.txt"); ("M", "b.txt")] eq_refl eq_refl _ _).
  - repeat constructor.
  - repeat constructor; simpl; intuition discriminate.
Defined.

(** ** An unresolved base *)

Section Unresolved.

Variable World : Type.
Variable run : Command -> World -> Reply * World.

Lemma getFullRef_notDiff (shortName : string) (w : World) :
  Forall notDiff (calls (trace (getFullRef run shortName w))).
Proof.
  destruct (getFullRef_calls run shortName w) as [-> | ->]; repeat constructor.
  discriminate.
Qed.

(** The search of [getChangesSinceMergeBase] when the base resolves neither
    at first nor after the shallow fetch nor after the fetch with tags. *)
Lemma searchMergeBase_unresolved (fuel : nat) (base ref : string) (depth : Z)
    (w w1 w2 : World) (x1 x2 : ExecResult) :
  outcome (getFullRef run base w) = Ret None ->
  run (fetchShallow base ref depth) (final (getFullRef run base w)) = (Done x1, w1) ->
  outcome (getFullRef run base w1) = Ret None ->
  run (fetchTags base ref) (final (getFullRef run base w1)) = (Done x2, w2) ->
  outcome (getFullRef run base w2) = Ret None ->
  outcome (searchMergeBase run fuel base ref depth w) = Throw (couldNotDetermine base)
  /\ trace (searchMergeBase run fuel base ref depth w) =
     (trace (getFullRef run base w)
        ++ EExec (fetchShallow base ref depth) (Done x1)
        :: trace (getFullRef run base w1)
        ++ EExec (fetchTags base ref) (Done x2)
        :: trace (getFullRef run base w2))%list.
Proof.
  intros H0 Hf1 H1 Hf2 H2. unfold searchMergeBase, ensureBaseRef.
  rewrite (bind_Ret _ _ _ H0). cbn [hasMergeBase trace outcome final].
  rewrite bind_ret. cbn iota.
  erewrite bind_exec_Done by exact Hf1. cbn [trace outcome final].
  rewrite bind_assoc, (bind_Ret _ _ _ H1). cbn [trace outcome final].
  rewrite bind_assoc. erewrite bind_exec_Done by exact Hf2. cbn [trace outcome final].
  rewrite bind_assoc, (bind_Ret _ _ _ H2). cbn [trace outcome final].
  unfold bind, throw. cbn. rewrite app_nil_r. split; reflexivity.
Qed.

Lemma bind_trace (A B : Type) (m : M World A) (k : A -> M World B) (w : World) :
  exists rest, trace (bind m k w) = (trace (m w) ++ rest)%list.
Proof.
  unfold bind. destruct (m w) as [tr [a|e|] w1]; simpl.
  - destruct (k a w1) as [tr' o w2]. now exists tr'.
  - exists []. now rewrite app_nil_r.
  - exists []. now rewrite app_nil_r.
Qed.

Lemma tryFinally_trace (A : Type) (body : M World A) (w : World) :
  exists rest, trace (tryFinally body endGroup w) = (trace (body w) ++ rest)%list.
Proof.
  rewrite tryFinally_endGroup. destruct (outcome (body w)); simpl; eauto.
  exists []. now rewrite app_nil_r.
Qed.

(** The calls of the search are calls of [getChangesSinceMergeBase]. *)
Lemma search_calls_included (fuel : nat) (base ref : string) (depth : Z) (w : World)
    (c : Command) :
  In c (calls (trace (searchMergeBase run fuel base ref depth w))) ->
  In c (calls (trace (getChangesSinceMergeBase run fuel base ref depth w))).
Proof.
  intros Hin. unfold getChangesSinceMergeBase, startGroup. rewrite bind_emit.
  cbn [trace].
  match goal with |- context [bind ?m ?k w] =>
    destruct (bind_trace m k w) as [rest1 ->];
    destruct (tryFinally_trace (searchMergeBase run fuel base ref depth) w) as [rest2 ->]
  end.
  change (EStartGroup ?n :: ?l) with ([EStartGroup n] ++ l)%list.
  rewrite !calls_app, !in_app_iff. auto.
Qed.

Lemma searchMergeBase_retries_with_tags (fuel : nat) (base ref : string) (depth : Z)
    (w w1 : World) (x1 : ExecResult) :
  outcome (getFullRef run base w) = Ret None ->
  run (fetchShallow base ref depth) (final (getFullRef run base w)) = (Done x1, w1) ->
  outcome (getFullRef run base w1) = Ret None ->
  In (fetchTags base ref) (calls (trace (searchMergeBase run fuel base ref depth w))).
Proof.
  intros H0 Hf1 H1. unfold searchMergeBase, ensureBaseRef.
  rewrite (bind_Ret _ _ _ H0). cbn [hasMergeBase trace outcome final].
  rewrite bind_ret. cbn iota.
  erewrite bind_exec_Done by exact Hf1. cbn [trace outcome final].
  rewrite bind_assoc, (bind_Ret _ _ _ H1). cbn [trace outcome final].
  rewrite bind_assoc.
  match goal with |- context [bind ?m ?k ?w0] =>
    destruct (bind_trace m k w0) as [rest ->] end.
  unfold exec. fold (git ["fetch"; "--tags"; "--depth=1"; "origin"; base; ref] false).
  fold (fetchTags base ref).
  destruct (run (fetchTags base ref) (final (getFullRef run base w1))) as [reply w2].
  cbn [trace].
  change (EExec ?c ?r :: ?l) with ([EExec c r] ++ l)%list.
  rewrite !calls_app, !in_app_iff. simpl. auto 10.
Qed.

(** C5: when the base resolves neither at first nor after the shallow fetch,
    [getChangesSinceMergeBase] fetches again with tags; when the base does not
    resolve after that fetch either, it throws the error that names the base
    and has called no [git diff]. *)
Theorem getChangesSinceMergeBase_unresolved_base :
  forall (fuel : nat) (base ref : string) (initialFetchDepth : Z)
         (w w1 : World) (x1 : ExecResult),
    outcome (getFullRef run base w) = Ret None ->
    run (fetchShallow base ref initialFetchDepth) (final (getFullRef run base w))
      = (Done x1, w1) ->
    outcome (getFullRef run base w1) = Ret None ->
    let r := getChangesSinceMergeBase run fuel base ref initialFetchDepth w in
    In (fetchTags base ref) (calls (trace r))
    /\ forall (w2 : World) (x2 : ExecResult),
         run (fetchTags base ref) (final (getFullRef run base w1)) = (Done x2, w2) ->
         outcome (getFullRef run base w2) = Ret None ->
         outcome r =
           Throw (Error ("Could not determine what is " ++ base
                         ++ " - fetch works but it's not a branch or tag"))
         /\ Forall notDiff (calls (trace r)).
Proof.
  intros fuel base ref depth w w1 x1 H0 Hf1 H1 r. subst r. split.
  - apply search_calls_included. eapply searchMergeBase_retries_with_tags; eauto.
  - intros w2 x2 Hf2 H2.
    destruct (@searchMergeBase_unresolved fuel _ _ _ _ _ _ _ _ H0 Hf1 H1 Hf2 H2) as [Hout Htr].
    unfold getChangesSinceMergeBase, startGroup. rewrite bind_emit.
    assert (Hfin : outcome (tryFinally (searchMergeBase run fuel base ref depth) endGroup w)
                   = Throw (couldNotDetermine base)).
    { rewrite tryFinally_endGroup, Hout. reflexivity. }
    rewrite (bind_Throw _ _ _ Hfin). cbn [trace outcome final].
    split; [reflexivity|].
    rewrite tryFinally_endGroup, Hout. cbn [trace]. rewrite Htr.
    change (EStartGroup ?n :: ?l) with ([EStartGroup n] ++ l)%list.
    change (EExec ?c ?r :: ?l) with ([EExec c r] ++ l)%list.
    rewrite !calls_app, !Forall_app.
    pose proof (getFullRef_notDiff base) as Hres.
    repeat split; try apply Hres; try apply Forall_nil;
      repeat (apply Forall_cons; [discriminate|]); try apply Hres; apply Forall_nil.
Qed.

End Unresolved.

Lemma getChangesSinceMergeBase_unresolved_base_witness :
  outcome (getChangesSinceMergeBase scripted 3 "nope" "HEAD" 10
             [exited 1; ok ""; exited 1; ok ""; exited 1])
  = Throw (Error "Could not determine what is nope - fetch works but it's not a branch or tag").
Proof.
  exact (proj1 (proj2
    (@getChangesSinceMergeBase_unresolved_base _ scripted 3 "nope" "HEAD" 10
       [exited 1; ok ""; exited 1; ok ""; exited 1] _ _ eq_refl eq_refl eq_refl)
    _ _ eq_refl eq_refl)).
Defined.

(** ** The merge-base search *)

Lemma saturatedDepth_deepen (d : Z) (j : nat) :
  saturatedDepth (deepen d) j = saturatedDepth d (S j).
Proof.
  unfold saturatedDepth, deepen, MAX_SAFE_INTEGER.
  rewrite Nat2Z.inj_succ, Z.pow_succ_r by lia.
  assert (Hp : (0 < 2 ^ Z.of_nat j)%Z) by (apply Z.pow_pos_nonneg; lia).
  destruct (Z.min_spec (d * 2) 9007199254740991) as [[Hlt ->] | [Hle ->]].
  - f_equal. ring.
  - rewrite !Z.min_r; nia.
Qed.

Lemma saturatedDepth_first (d : Z) : deepen d = saturatedDepth d 1.
Proof. unfold saturatedDepth, deepen. f_equal. Qed.

Lemma flat_map_seq_shift (A : Type) (f : nat -> list A) (start len : nat) :
  flat_map f (seq (S start) len) = flat_map (fun j => f (S j)) (seq start len).
Proof.
  revert start. induction len as [|len IH]; intros start; simpl; [reflexivity|].
  now rewrite IH.
Qed.

Lemma roundsFrom_rounds (b base ref : string) (k : nat) :
  forall d, roundsFrom b base ref d k = rounds b base ref d k.
Proof.
  induction k as [|k IH]; intros d; [reflexivity|].
  cbn [roundsFrom]. rewrite IH. unfold rounds. cbn [seq flat_map].
  rewrite (flat_map_seq_shift _ 1 k).
  rewrite (flat_map_ext (fun j => round b base ref (saturatedDepth (deepen d) j))
             (fun j => round b base ref (saturatedDepth d (S j))))
    by (intros j; now rewrite saturatedDepth_deepen).
  now rewrite saturatedDepth_first.
Qed.

Section Search.

Variable World : Type.
Variable run : Command -> World -> Reply * World.

Lemma exec_returns (a : list string) (ignore : bool) (w : World) (x : ExecResult) :
  outcome (exec run "git" a ignore w) = Ret x ->
  trace (exec run "git" a ignore w) = [EExec (git a ignore) (Done x)].
Proof.
  unfold exec, git. destruct (run _ w) as [[e|y] w1]; simpl; [discriminate|].
  now intros [= ->].
Qed.

Lemma ret_returns (A : Type) (a b : A) (w : World) :
  outcome (ret a w) = Ret b -> a = b.
Proof. now intros [= ->]. Qed.

Lemma hasMergeBase_returns (b ref : string) (w : World) (found : bool) :
  outcome (hasMergeBase run (Some b) ref w) = Ret found ->
  exists z, trace (hasMergeBase run (Some b) ref w) = [EExec (mergeBase b ref) (Done z)]
            /\ found = (code z =? 0)%Z.
Proof.
  unfold hasMergeBase. intros H.
  apply bind_returns in H as (z & Hz & H & ->).
  apply ret_returns in H. exists z.
  rewrite (exec_returns _ _ _ Hz). split; [reflexivity | now subst].
Qed.

Lemma getCommitCount_returns (w : World) (c : Z) :
  outcome (getCommitCount run w) = Ret c ->
  exists y, trace (getCommitCount run w) = [EExec revListCount (Done y)]
            /\ c = commitCountOf (stdout y).
Proof.
  unfold getCommitCount. intros H.
  apply bind_returns in H as (y & Hy & H & ->).
  apply ret_returns in H. exists y.
  rewrite (exec_returns _ _ _ Hy). split; [reflexivity | now subst].
Qed.

Lemma mergeBaseLoop_step (fuel : nat) (baseRef : option string) (base ref : string)
    (depth lastCommitCount : Z) :
  mergeBaseLoop run (S fuel) baseRef base ref depth lastCommitCount =
  (found <- hasMergeBase run baseRef ref ;;
   if found then ret false
   else
     exec run "git" (deepenFetch base ref (deepen depth)) false ;;;
     commitCount <- getCommitCount run ;;
     if (commitCount =? lastCommitCount)%Z then
       info "No more commits were fetched" ;;;
       info "Last attempt will be to fetch full history" ;;;
       exec run "git" ["fetch"] false ;;;
       found <- hasMergeBase run baseRef ref ;;
       ret (negb found)
     else mergeBaseLoop run fuel baseRef base ref (deepen depth) commitCount).
Proof. reflexivity. Qed.

Lemma changing_cons_app (c c' : Z) (front : list Z) (x : Z) (cs : list Z) :
  (c =? c')%Z = false ->
  c' :: cs = (front ++ [x; x])%list ->
  changing (front ++ [x]) = true ->
  changing ((c :: front) ++ [x]) = true.
Proof.
  intros Hc Heq Hch. destruct front as [|f front]; simpl in *.
  - injection Heq as -> _. now rewrite Hc.
  - injection Heq as -> _. rewrite Hc. exact Hch.
Qed.

Lemma counts_round (b base ref : string) (d : Z) (z x y : ExecResult) (before : list Event) :
  counts ([EExec (mergeBase b ref) (Done z); EExec (fetchDeepen base ref d) (Done x);
           EExec revListCount (Done y)] ++ before)
  = commitCountOf (stdout y) :: counts before.
Proof. reflexivity. Qed.

(** The shape of a run of the loop that returns: [k] rounds of merge-base
    check, deepen fetch and count, then the ending. *)
Lemma mergeBaseLoop_shape (b base ref : string) :
  forall (fuel : nat) (d c : Z) (w : World) (nm : bool),
    outcome (mergeBaseLoop run fuel (Some b) base ref d c w) = Ret nm ->
    exists k stalled before g z,
      trace (mergeBaseLoop run fuel (Some b) base ref d c w)
        = (before ++ searchEnding b ref stalled g z)%list
      /\ calls before = roundsFrom b base ref d k
      /\ countsOfSearch (c :: counts before) stalled
      /\ List.length (counts before) = k
      /\ (forall m, ~ In (EWarning m) before)
      /\ noMergeBaseIn before
      /\ nm = stalled && negb (code z =? 0)%Z
      /\ (stalled = false -> code z = 0%Z)
      /\ (stalled = true -> (1 <= k)%nat).
Proof.
  induction fuel as [|fuel IH]; intros d c w nm H; [discriminate|].
  rewrite mergeBaseLoop_step in *.
  apply bind_returns in H as (found & Hmb & H & ->).
  apply hasMergeBase_returns in Hmb as (z & -> & ->).
  destruct (code z =? 0)%Z eqn:Hz.
  - apply ret_returns in H. subst nm.
    exists 0%nat, false, [], z, z. cbn.
    repeat split; auto; [constructor | intros _; now apply Z.eqb_eq | discriminate].
  - apply bind_returns in H as (x & Hx & H & ->). rewrite (exec_returns _ _ _ Hx).
    apply bind_returns in H as (cc & Hc & H & ->).
    apply getCommitCount_returns in Hc as (y & -> & ->).
    destruct (commitCountOf (stdout y) =? c)%Z eqn:Hcc.
    + unfold info in *. rewrite !bind_emit in *. cbn [trace outcome final] in *.
      apply bind_returns in H as (g & Hg & H & ->). rewrite (exec_returns _ _ _ Hg).
      apply bind_returns in H as (found & Hmb & H & ->).
      apply hasMergeBase_returns in Hmb as (z' & -> & ->).
      apply ret_returns in H. subst nm.
      exists 1%nat, true,
        [EExec (mergeBase b ref) (Done z); EExec (fetchDeepen base ref (deepen d)) (Done x);
         EExec revListCount (Done y)], g, z'.
      apply Z.eqb_eq in Hcc.
      split; [reflexivity|]. split; [reflexivity|].
      split; [exists [], c; cbn; rewrite Hcc; auto|].
      split; [reflexivity|].
      split; [intros m [Hm|[Hm|[Hm|[]]]]; discriminate Hm|].
      split; [apply Z.eqb_neq in Hz; repeat constructor; exact Hz|].
      repeat split; auto; discriminate.
    + apply IH in H as (k & stalled & before & g & z' & -> & Hcalls & Hcounts & Hlen
                        & Hwarn & Hnomb & Hnm & Hfound & Hk).
      exists (S k), stalled,
        ([EExec (mergeBase b ref) (Done z); EExec (fetchDeepen base ref (deepen d)) (Done x);
          EExec revListCount (Done y)] ++ before)%list, g, z'.
      split; [reflexivity|].
      split; [cbn [app calls flat_map roundsFrom round]; now rewrite <- Hcalls|].
      split.
      { rewrite counts_round. destruct stalled; cbn [countsOfSearch] in *.
        - destruct Hcounts as (front & v & Heq & Hch).
          exists (c :: front), v. split; [cbn; now rewrite Heq|].
          rewrite Z.eqb_sym in Hcc. eapply changing_cons_app; eauto.
        - cbn [changing]. rewrite Z.eqb_sym in Hcc. now rewrite Hcc. }
      split; [rewrite counts_round; cbn [List.length]; now rewrite Hlen|].
      split; [intros m [Hm|[Hm|[Hm|Hm]]]; try discriminate Hm; now apply (Hwarn m)|].
      split; [apply Z.eqb_neq in Hz; constructor; [exact Hz | exact Hnomb]|].
      repeat split; auto; intros Hs; specialize (Hk Hs); lia.
Qed.

Lemma counts_app (tr1 tr2 : list Event) :
  counts (tr1 ++ tr2) = (counts tr1 ++ counts tr2)%list.
Proof. unfold counts. apply flat_map_app. Qed.

Lemma mergeBaseCodes_app (tr1 tr2 : list Event) :
  mergeBaseCodes (tr1 ++ tr2) = (mergeBaseCodes tr1 ++ mergeBaseCodes tr2)%list.
Proof. unfold mergeBaseCodes. apply flat_map_app. Qed.

Lemma noMergeBaseIn_app (tr1 tr2 : list Event) :
  noMergeBaseIn tr1 -> noMergeBaseIn tr2 -> noMergeBaseIn (tr1 ++ tr2).
Proof.
  unfold noMergeBaseIn. intros H1 H2. rewrite mergeBaseCodes_app.
  apply Forall_app. now split.
Qed.

Lemma quiet_nil (allowed : list Command) : quiet allowed [].
Proof. repeat split; [apply incl_nil_l | intros m [] | constructor]. Qed.

Lemma quiet_app (allowed : list Command) (tr1 tr2 : list Event) :
  quiet allowed tr1 -> quiet allowed tr2 -> quiet allowed (tr1 ++ tr2).
Proof.
  intros (Hc1 & Hi1 & Hw1 & Hm1) (Hc2 & Hi2 & Hw2 & Hm2).
  split; [|split; [|split]].
  - now rewrite counts_app, Hc1, Hc2.
  - rewrite calls_app. now apply incl_app.
  - intros m Hin. apply in_app_iff in Hin as [Hin|Hin]; [eapply Hw1 | eapply Hw2]; eauto.
  - now apply noMergeBaseIn_app.
Qed.

Lemma quiet_exec (allowed : list Command) (c : Command) (reply : Reply) :
  In c allowed -> isRevList c = false -> isMergeBase c = false ->
  quiet allowed [EExec c reply].
Proof.
  intros Hin Hrev Hmb. split; [|split; [|split]].
  - cbn. destruct reply; [reflexivity | now rewrite Hrev].
  - intros c' [<-|[]]. exact Hin.
  - intros m [H|[]]. discriminate H.
  - unfold noMergeBaseIn. cbn. destruct reply; [constructor | rewrite Hmb; constructor].
Qed.

Lemma getFullRef_trace (shortName : string) (w : World) :
  trace (getFullRef run shortName w) = []
  \/ exists reply, trace (getFullRef run shortName w) = [EExec (showRef shortName) reply].
Proof.
  destruct (isGitSha shortName) eqn:Hsha.
  - left. unfold getFullRef. now rewrite Hsha.
  - right. rewrite (getFullRef_show_ref _ _ _ Hsha).
    destruct (run (showRef shortName) w) as [reply w1]. now exists reply.
Qed.

Lemma getFullRef_quiet (allowed : list Command) (shortName : string) (w : World) :
  In (showRef shortName) allowed -> quiet allowed (trace (getFullRef run shortName w)).
Proof.
  intros Hin. destruct (getFullRef_trace shortName w) as [-> | [reply ->]].
  - apply quiet_nil.
  - now apply quiet_exec.
Qed.

Lemma hasMergeBase_quiet (allowed : list Command) (b ref : string)
    (baseRef : option string) (w : World) :
  In (mergeBase b ref) allowed ->
  (forall b0, baseRef = Some b0 -> b0 = b) ->
  outcome (hasMergeBase run baseRef ref w) = Ret false ->
  quiet allowed (trace (hasMergeBase run baseRef ref w)).
Proof.
  intros Hin Hsame Hret. destruct baseRef as [b0|]; [|apply quiet_nil].
  rewrite (Hsame b0 eq_refl) in *.
  apply hasMergeBase_returns in Hret as (z & -> & Hz).
  split; [|split; [|split]].
  - reflexivity.
  - intros c' [<-|[]]. exact Hin.
  - intros m [H|[]]. discriminate H.
  - unfold noMergeBaseIn. cbn. constructor; [|constructor].
    symmetry in Hz. now apply Z.eqb_neq in Hz.
Qed.

Lemma ensureBaseRef_returns (b' base ref : string) (d0 : Z) (baseRef resolved : option string)
    (w : World) :
  outcome (ensureBaseRef run base ref baseRef w) = Ret resolved ->
  exists b, resolved = Some b
            /\ (forall b0, baseRef = Some b0 -> b0 = b)
            /\ quiet (preludeCalls b' base ref d0) (trace (ensureBaseRef run base ref baseRef w)).
Proof.
  unfold ensureBaseRef. intros H.
  assert (Hshow : In (showRef base) (preludeCalls b' base ref d0)) by in_list.
  destruct baseRef as [b0|].
  - apply ret_returns in H. subst resolved. exists b0.
    split; [reflexivity|]. split; [congruence | apply quiet_nil].
  - apply bind_returns in H as (r1 & H1 & H & ->).
    destruct r1 as [b1|].
    + apply ret_returns in H. subst resolved. exists b1.
      split; [reflexivity|]. split; [discriminate|].
      apply quiet_app; [now apply getFullRef_quiet | apply quiet_nil].
    + apply bind_returns in H as (x & Hx & H & ->). rewrite (exec_returns _ _ _ Hx).
      apply bind_returns in H as (r2 & H2 & H & ->).
      destruct r2 as [b2|]; [|discriminate].
      apply ret_returns in H. subst resolved. exists b2.
      split; [reflexivity|]. split; [discriminate|].
      repeat apply quiet_app; try (now apply getFullRef_quiet); try apply quiet_nil.
      apply quiet_exec; [in_list | reflexivity | reflexivity].
Qed.

(** The shape of the search as a whole, when it returns. *)
Lemma searchMergeBase_shape (fuel : nat) (base ref : string) (d0 : Z) (w : World)
    (baseRef : option string) (nm : bool) :
  outcome (searchMergeBase run fuel base ref d0 w) = Ret (baseRef, nm) ->
  exists b before prelude k stalled g z,
    baseRef = Some b
    /\ trace (searchMergeBase run fuel base ref d0 w)
       = (before ++ searchEnding b ref stalled g z)%list
    /\ calls before = (prelude ++ rounds b base ref d0 k)%list
    /\ incl prelude (preludeCalls b base ref d0)
    /\ countsOfSearch (counts before) stalled
    /\ (List.length (counts before) = S k \/ (k = 0%nat /\ counts before = []))
    /\ (forall m, ~ In (EWarning m) before)
    /\ noMergeBaseIn before
    /\ nm = stalled && negb (code z =? 0)%Z
    /\ (stalled = false -> code z = 0%Z)
    /\ (stalled = true -> (1 <= k)%nat).
Proof.
  unfold searchMergeBase. intros H.
  apply bind_returns in H as (br0 & Hr0 & H & ->).
  apply bind_returns in H as (found & Hmb & H & ->).
  destruct found.
  - apply ret_returns in H. injection H as <- <-.
    destruct br0 as [b|]; [|discriminate].
    apply hasMergeBase_returns in Hmb as (z & -> & Hz).
    assert (Hq : quiet (preludeCalls b base ref d0) (trace (getFullRef run base w)))
      by (apply getFullRef_quiet; in_list).
    destruct Hq as (Hc & Hi & Hw & Hm).
    exists b, (trace (getFullRef run base w)), (calls (trace (getFullRef run base w))),
      0%nat, false, z, z.
    split; [reflexivity|]. split; [reflexivity|].
    split; [now rewrite app_nil_r|]. split; [exact Hi|].
    split; [now rewrite Hc|]. split; [now right|]. split; [exact Hw|].
    split; [exact Hm|]. split; [reflexivity|]. split; [intros _; apply Z.eqb_eq; now symmetry | discriminate].
  - apply bind_returns in H as (x & Hx & H & ->). rewrite (exec_returns _ _ _ Hx).
    apply bind_returns in H as (br & Hens & H & ->).
    pose proof Hens as Hens'.
    apply ensureBaseRef_returns with (b' := "") (d0 := d0) in Hens'
      as (b & -> & Hsame & _).
    apply ensureBaseRef_returns with (b' := b) (d0 := d0) in Hens
      as (b1 & [= <-] & _ & Hq3).
    apply bind_returns in H as (c0 & Hc & H & ->).
    apply getCommitCount_returns in Hc as (n & -> & ->).
    apply bind_returns in H as (nm' & Hloop & H & ->).
    apply ret_returns in H. injection H as <- <-.
    apply mergeBaseLoop_shape in Hloop
      as (k & stalled & lb & g & z & -> & Hcalls & Hcounts & Hlen & Hwarn & Hnomb & Hnm
          & Hz & Hk).
    assert (Hq1 : quiet (preludeCalls b base ref d0) (trace (getFullRef run base w)))
      by (apply getFullRef_quiet; in_list).
    assert (Hq2 : quiet (preludeCalls b base ref d0)
                    (trace (hasMergeBase run br0 ref (final (getFullRef run base w)))))
      by (apply hasMergeBase_quiet with (b := b); [in_list | exact Hsame | exact Hmb]).
    assert (Hq4 : quiet (preludeCalls b base ref d0)
                    [EExec (git ["fetch"; "--no-tags"; "--depth=" ++ numberToString d0;
                                 "origin"; base; ref] false) (Done x)])
      by (apply quiet_exec; [in_list | reflexivity | reflexivity]).
    match goal with |- context [trace (ensureBaseRef run base ref br0 ?w0)] =>
      set (trE := trace (ensureBaseRef run base ref br0 w0)) in * end.
    set (trR := trace (getFullRef run base w)) in *.
    set (trM := trace (hasMergeBase run br0 ref _)) in *.
    set (ev := [EExec _ (Done x)]) in *.
    pose proof (quiet_app Hq1 (quiet_app Hq2 (quiet_app Hq4 Hq3)))
      as (Hqc & Hqi & Hqw & Hqm).
    set (pre := (trR ++ trM ++ ev ++ trE)%list) in *.
    exists b, (pre ++ EExec revListCount (Done n) :: lb)%list,
      (calls pre ++ [revListCount])%list, k, stalled, g, z.
    split; [reflexivity|].
    split.
    { subst pre. cbn [trace ret]. rewrite app_nil_r.
      rewrite <- !app_assoc. reflexivity. }
    split.
    { change (EExec revListCount (Done n) :: lb)
        with ([EExec revListCount (Done n)] ++ lb)%list.
      rewrite !calls_app, Hcalls, roundsFrom_rounds, <- app_assoc. reflexivity. }
    split.
    { apply incl_app; [exact Hqi|]. intros c [<-|[]]. in_list. }
    assert (Hcs : counts (pre ++ EExec revListCount (Done n) :: lb)
                  = commitCountOf (stdout n) :: counts lb).
    { rewrite counts_app, Hqc. reflexivity. }
    rewrite Hcs.
    split; [exact Hcounts|].
    split; [left; cbn; now rewrite Hlen|].
    split.
    { intros m Hin. apply in_app_iff in Hin as [Hin|[Hin|Hin]].
      - now apply (Hqw m).
      - discriminate Hin.
      - now apply (Hwarn m). }
    split.
    { apply noMergeBaseIn_app; [exact Hqm|].
      change (EExec revListCount (Done n) :: lb)
        with ([EExec revListCount (Done n)] ++ lb)%list.
      apply noMergeBaseIn_app; [constructor | exact Hnomb]. }
    repeat split; assumption.
Qed.

Lemma read_output_events (A : Type) (name : string) (a : list string)
    (post : string -> A) (w : World) (v : A) :
  outcome ((startGroup name ;;;
            output <- tryFinally (r <- exec run "git" a false ;; ret (stdout r))
                                 (fixStdOutNullTermination ;;; endGroup) ;;
            ret (post output)) w) = Ret v ->
  exists y,
    trace ((startGroup name ;;;
            output <- tryFinally (r <- exec run "git" a false ;; ret (stdout r))
                                 (fixStdOutNullTermination ;;; endGroup) ;;
            ret (post output)) w)
    = [EStartGroup name; EExec (git a false) (Done y); EInfo ""; EEndGroup]
    /\ v = post (stdout y).
Proof.
  unfold fixStdOutNullTermination, startGroup, endGroup, info, emit, bind, tryFinally,
    exec, ret.
  next_reply e x w1; [discriminate|].
  intros [= <-]. exists x. split; reflexivity.
Qed.

(** The shape of a run of [getChangesSinceMergeBase] that returns. *)
Lemma getChangesSinceMergeBase_shape :
  forall (fuel : nat) (base ref : string) (initialFetchDepth : Z) (w : World)
         (files : list File),
    let r := getChangesSinceMergeBase run fuel base ref initialFetchDepth w in
    outcome r = Ret files ->
    exists (b : string) (before : list Event) (prelude : list Command) (k : nat)
           (stalled : bool) (g z y : ExecResult),
      let fallback := stalled && negb (code z =? 0)%Z in
      let range := b ++ (if fallback then ".." else "...") ++ ref in
      trace r = (before ++ searchEnding b ref stalled g z
                   ++ EEndGroup
                   :: (if fallback then [EWarning noMergeBaseWarning] else [])
                   ++ diffEvents range y)%list
      /\ files = parseGitDiffOutput (stdout y)
      /\ calls before = (prelude ++ rounds b base ref initialFetchDepth k)%list
      /\ incl prelude (preludeCalls b base ref initialFetchDepth)
      /\ countsOfSearch (counts before) stalled
      /\ (List.length (counts before) = S k \/ (k = 0%nat /\ counts before = []))
      /\ (forall m, ~ In (EWarning m) before)
      /\ noMergeBaseIn before
      /\ (stalled = false -> code z = 0%Z)
      /\ (stalled = true -> (1 <= k)%nat).
Proof.
  intros fuel base ref d0 w files r H. subst r.
  unfold getChangesSinceMergeBase in *. unfold startGroup at 1 in H. unfold startGroup at 1.
  rewrite bind_emit in *. cbn [trace outcome final] in *.
  apply bind_returns in H as ([baseRef nm] & Hs & H & ->).
  rewrite tryFinally_endGroup in *.
  destruct (outcome (searchMergeBase run fuel base ref d0 w)) as [[br nm']|e|] eqn:HS;
    cbn [trace outcome final] in *; try discriminate.
  injection Hs as -> ->.
  apply searchMergeBase_shape in HS
    as (b & before & prelude & k & stalled & g & z & -> & -> & Hcalls & Hincl & Hcounts
        & Hlen & Hwarn & Hnomb & -> & Hz & Hk).
  exists b, (EStartGroup ("Searching for merge-base " ++ base ++ "..." ++ ref) :: before),
    prelude, k, stalled, g, z.
  assert (Hwarn' : forall m,
             ~ In (EWarning m)
                 (EStartGroup ("Searching for merge-base " ++ base ++ "..." ++ ref) :: before)).
  { intros m [Hm|Hm]; [discriminate Hm | now apply (Hwarn m)]. }
  destruct (stalled && negb (code z =? 0)%Z) eqn:Hfb.
  - unfold warning in *. rewrite bind_assoc, bind_emit, bind_ret in *.
    cbn [trace outcome final refToString] in *.
    apply read_output_events in H as (y & -> & ->).
    exists y. cbn zeta.
    split; [cbn [app]; rewrite <- !app_assoc; reflexivity|].
    repeat split; assumption.
  - rewrite bind_ret in *. cbn [refToString] in *.
    apply read_output_events in H as (y & -> & ->).
    exists y. cbn zeta.
    split; [cbn [app]; rewrite <- !app_assoc; reflexivity|].
    repeat split; assumption.
Qed.


(** The loop through [n] rounds that go on. *)
Lemma mergeBaseLoop_goes_on (b base ref : string) :
  forall (n : nat) (d c : Z) (w : World) (d' c' : Z) (w' : World) (fuel : nat),
    searchRounds run b base ref n d c w = Some (d', c', w') ->
    exists pre,
      mergeBaseLoop run (n + fuel) (Some b) base ref d c w
      = {| trace := (pre ++ trace (mergeBaseLoop run fuel (Some b) base ref d' c' w'))%list;
           outcome := outcome (mergeBaseLoop run fuel (Some b) base ref d' c' w');
           final := final (mergeBaseLoop run fuel (Some b) base ref d' c' w') |}
      /\ calls pre = roundsFrom b base ref d n
      /\ (forall k, roundsFrom b base ref d (n + k)
                    = (roundsFrom b base ref d n ++ roundsFrom b base ref d' k)%list)
      /\ (forall m, ~ In (EWarning m) pre).
Proof.
  induction n as [|n IH]; intros d c w d' c' w' fuel Hrounds.
  - injection Hrounds as <- <- <-. exists []. cbn [Nat.add app].
    split; [destruct (mergeBaseLoop run fuel (Some b) base ref d c w); reflexivity|].
    split; [reflexivity|]. split; [reflexivity | intros m []].
  - cbn [searchRounds] in Hrounds.
    destruct (run (mergeBase b ref) w) as [[e|z] w1] eqn:Hmb; [discriminate|].
    destruct (code z =? 0)%Z eqn:Hz; [discriminate|].
    destruct (run (fetchDeepen base ref (deepen d)) w1) as [[e|x] w2] eqn:Hfetch;
      [discriminate|].
    destruct (run revListCount w2) as [[e|y] w3] eqn:Hcount; [discriminate|].
    destruct (commitCountOf (stdout y) =? c)%Z eqn:Hc; [discriminate|].
    destruct (IH _ _ _ _ _ _ fuel Hrounds) as (pre & Hloop & Hcalls & Hsplit & Hwarn).
    exists ([EExec (mergeBase b ref) (Done z);
             EExec (fetchDeepen base ref (deepen d)) (Done x);
             EExec revListCount (Done y)] ++ pre)%list.
    split.
    { cbn [Nat.add]. rewrite mergeBaseLoop_step.
      unfold hasMergeBase at 1. rewrite bind_assoc.
      erewrite bind_exec_Done by exact Hmb. rewrite bind_ret, Hz.
      erewrite bind_exec_Done by exact Hfetch.
      unfold getCommitCount. rewrite bind_assoc.
      erewrite bind_exec_Done by exact Hcount. rewrite bind_ret, Hc, Hloop.
      reflexivity. }
    split; [cbn [app calls flat_map roundsFrom round]; now rewrite <- Hcalls|].
    split.
    { intros k. cbn [Nat.add roundsFrom]. rewrite Hsplit, <- app_assoc. reflexivity. }
    intros m [Hm|[Hm|[Hm|Hm]]]; try discriminate Hm. now apply (Hwarn m).
Qed.

(** The round in which the count stalls, when all its calls reply. *)
Lemma mergeBaseLoop_stalled_round (fuel : nat) (b base ref : string) (d c : Z)
    (w w1 w2 w3 w4 w5 : World) (z1 x1 y1 g z2 : ExecResult) :
  run (mergeBase b ref) w = (Done z1, w1) ->
  code z1 <> 0%Z ->
  run (fetchDeepen base ref (deepen d)) w1 = (Done x1, w2) ->
  run revListCount w2 = (Done y1, w3) ->
  commitCountOf (stdout y1) = c ->
  run fetchAll w3 = (Done g, w4) ->
  run (mergeBase b ref) w4 = (Done z2, w5) ->
  mergeBaseLoop run (S fuel) (Some b) base ref d c w
  = {| trace := [EExec (mergeBase b ref) (Done z1);
                 EExec (fetchDeepen base ref (deepen d)) (Done x1);
                 EExec revListCount (Done y1);
                 EInfo "No more commits were fetched";
                 EInfo "Last attempt will be to fetch full history";
                 EExec fetchAll (Done g);
                 EExec (mergeBase b ref) (Done z2)];
       outcome := Ret (negb (code z2 =? 0)%Z);
       final := w5 |}.
Proof.
  intros Hmb Hz Hfetch Hcount Hc Hall Hmb2.
  apply Z.eqb_neq in Hz. apply Z.eqb_eq in Hc.
  rewrite mergeBaseLoop_step.
  unfold hasMergeBase. rewrite bind_assoc.
  erewrite bind_exec_Done by exact Hmb. rewrite bind_ret, Hz.
  erewrite bind_exec_Done by exact Hfetch.
  unfold getCommitCount. rewrite bind_assoc.
  erewrite bind_exec_Done by exact Hcount. rewrite bind_ret, Hc.
  unfold info. rewrite !bind_emit.
  erewrite bind_exec_Done by exact Hall. rewrite bind_assoc.
  erewrite bind_exec_Done by exact Hmb2. rewrite bind_ret.
  reflexivity.
Qed.

End Search.

(** ** Termination of the search *)

Section Termination.

Variable World : Type.
Variable run : Command -> World -> Reply * World.

(** The branch of a stalled round never asks for more fuel. *)
Lemma stalled_branch_ends (baseRef : option string) (ref : string) (w : World) :
  outcome ((info "No more commits were fetched" ;;;
            info "Last attempt will be to fetch full history" ;;;
            exec run "git" ["fetch"] false ;;;
            found <- hasMergeBase run baseRef ref ;;
            ret (negb found)) w) <> OutOfFuel.
Proof.
  unfold hasMergeBase, info, emit, exec, ret, bind. cbn.
  next_reply e x w1; [discriminate|].
  destruct baseRef as [b|]; cbn; [|discriminate].
  next_reply e z w2; discriminate.
Qed.

(** Fuel beyond what a run needs changes nothing. *)
Lemma mergeBaseLoop_more_fuel (baseRef : option string) (base ref : string) :
  forall (fuel : nat) (d c : Z) (w : World),
    outcome (mergeBaseLoop run fuel baseRef base ref d c w) <> OutOfFuel ->
    mergeBaseLoop run (S fuel) baseRef base ref d c w
    = mergeBaseLoop run fuel baseRef base ref d c w.
Proof.
  induction fuel as [|fuel IH]; intros d c w H; [now elim H|].
  rewrite (mergeBaseLoop_step run (S fuel)).
  rewrite mergeBaseLoop_step in H |- *.
  unfold bind in H |- *.
  destruct (hasMergeBase run baseRef ref w) as [tr1 [[|]|e|] w1]; try reflexivity.
  destruct (exec run "git" (deepenFetch base ref (deepen d)) false w1)
    as [tr2 [x|e|] w2]; try reflexivity.
  destruct (getCommitCount run w2) as [tr3 [cc|e|] w3]; try reflexivity.
  destruct (cc =? c)%Z; [reflexivity|].
  rewrite IH; [reflexivity|].
  intros Hout. apply H.
  destruct (mergeBaseLoop run fuel baseRef base ref (deepen d) cc w3) as [tr4 o w4].
  cbn in Hout. subst o. reflexivity.
Qed.

Lemma mergeBaseLoop_fuel_le (baseRef : option string) (base ref : string)
    (fuel fuel' : nat) (d c : Z) (w : World) :
  outcome (mergeBaseLoop run fuel baseRef base ref d c w) <> OutOfFuel ->
  (fuel <= fuel')%nat ->
  mergeBaseLoop run fuel' baseRef base ref d c w
  = mergeBaseLoop run fuel baseRef base ref d c w.
Proof.
  intros H Hle. induction Hle as [|fuel' Hle IH]; [reflexivity|].
  rewrite mergeBaseLoop_more_fuel; [exact IH | now rewrite IH].
Qed.

(** When the loop runs out of fuel, its first round went through and asked
    for another one, which ran out of fuel. *)
Lemma mergeBaseLoop_out_of_fuel (fuel : nat) (b base ref : string) (d c : Z) (w : World) :
  outcome (mergeBaseLoop run (S fuel) (Some b) base ref d c w) = OutOfFuel ->
  exists z w1 x w2 y w3,
    run (mergeBase b ref) w = (Done z, w1)
    /\ run (fetchDeepen base ref (deepen d)) w1 = (Done x, w2)
    /\ run revListCount w2 = (Done y, w3)
    /\ code z <> 0%Z
    /\ commitCountOf (stdout y) <> c
    /\ outcome (mergeBaseLoop run fuel (Some b) base ref (deepen d)
                  (commitCountOf (stdout y)) w3) = OutOfFuel.
Proof.
  rewrite mergeBaseLoop_step.
  unfold hasMergeBase at 1. rewrite bind_assoc.
  destruct (run (mergeBase b ref) w) as [[e|z] w1] eqn:Hmb.
  { erewrite bind_exec_Failed by exact Hmb. discriminate. }
  erewrite bind_exec_Done by exact Hmb. cbn [outcome]. rewrite bind_ret.
  destruct (code z =? 0)%Z eqn:Hz; [discriminate|].
  destruct (run (fetchDeepen base ref (deepen d)) w1) as [[e|x] w2] eqn:Hfetch.
  { erewrite bind_exec_Failed by exact Hfetch. discriminate. }
  erewrite bind_exec_Done by exact Hfetch. cbn [outcome].
  unfold getCommitCount. rewrite bind_assoc.
  destruct (run revListCount w2) as [[e|y] w3] eqn:Hcount.
  { erewrite bind_exec_Failed by exact Hcount. discriminate. }
  erewrite bind_exec_Done by exact Hcount. cbn [outcome]. rewrite bind_ret.
  destruct (commitCountOf (stdout y) =? c)%Z eqn:Hc.
  { intros H. now apply stalled_branch_ends in H. }
  intros H. exists z, w1, x, w2, y, w3.
  apply Z.eqb_neq in Hz, Hc. repeat split; auto.
Qed.

Lemma afterRounds_next (b base ref : string) (n : nat) (d c : Z) (w w1 w2 w3 : World)
    (z x y : ExecResult) :
  run (mergeBase b ref) w = (Done z, w1) ->
  run (fetchDeepen base ref (deepen d)) w1 = (Done x, w2) ->
  run revListCount w2 = (Done y, w3) ->
  afterRounds run b base ref (S n) d c w
  = afterRounds run b base ref n (deepen d) (commitCountOf (stdout y)) w3.
Proof. intros Hmb Hfetch Hcount. cbn [afterRounds]. now rewrite Hmb, Hfetch, Hcount. Qed.

(** The rounds counted from the end: one more round after [m] rounds. *)
Lemma afterRounds_last (b base ref : string) (m : nat) :
  forall (d c : Z) (w : World),
    afterRounds run b base ref (S m) d c w =
    match afterRounds run b base ref m d c w with
    | Some (d1, c1, w1) => afterRounds run b base ref 1 d1 c1 w1
    | None => None
    end.
Proof.
  induction m as [|m IH]; intros d c w; [reflexivity|].
  cbn [afterRounds] in *.
  destruct (run (mergeBase b ref) w) as [[e|z] w1]; [reflexivity|].
  destruct (run (fetchDeepen base ref (deepen d)) w1) as [[e|x] w2]; [reflexivity|].
  destruct (run revListCount w2) as [[e|y] w3]; [reflexivity|].
  apply IH.
Qed.

Lemma mergeBaseLoop_ends (b base ref : string) :
  forall (n : nat) (d c : Z) (w : World) (s : Z * Z * World),
    afterRounds run b base ref n d c w = Some s ->
    lastRound run b base ref s ->
    outcome (mergeBaseLoop run (S n) (Some b) base ref d c w) <> OutOfFuel.
Proof.
  induction n as [|n IH]; intros d c w s Hafter Hlast Hout;
    apply mergeBaseLoop_out_of_fuel in Hout
      as (z & w1 & x & w2 & y & w3 & Hmb & Hfetch & Hcount & Hz & Hc & Hout).
  - injection Hafter as <-. cbn [lastRound] in Hlast.
    destruct Hlast as [(z' & w1' & Hrun & Hz') | [(d' & w' & Hstall) | Hnone]].
    + rewrite Hmb in Hrun. injection Hrun as <- _. contradiction.
    + rewrite (@afterRounds_next b base ref 0 d c _ _ _ _ _ _ _ Hmb Hfetch Hcount) in Hstall.
      injection Hstall as _ Hsame _. contradiction.
    + rewrite (@afterRounds_next b base ref 0 d c _ _ _ _ _ _ _ Hmb Hfetch Hcount) in Hnone. discriminate.
  - rewrite (@afterRounds_next b base ref n d c _ _ _ _ _ _ _ Hmb Hfetch Hcount) in Hafter.
    exact (IH _ _ _ s Hafter Hlast Hout).
Qed.

(** Counts that are natural numbers and no longer increase reach a last
    round: a deepen fetch that leaves the count unchanged, or a call that
    throws. *)
Lemma settled_counts_stall (b base ref : string) (d c : Z) (w : World) (n : nat) :
  (forall m d1 c1 w1 d2 c2 w2,
      (n <= m)%nat ->
      afterRounds run b base ref m d c w = Some (d1, c1, w1) ->
      afterRounds run b base ref (S m) d c w = Some (d2, c2, w2) ->
      (0 <= c2 <= c1)%Z) ->
  forall (k m : nat) (d1 c1 : Z) (w1 : World),
    (n <= m)%nat ->
    afterRounds run b base ref m d c w = Some (d1, c1, w1) ->
    (c1 <= Z.of_nat k)%Z ->
    exists m' s, afterRounds run b base ref m' d c w = Some s /\ lastRound run b base ref s.
Proof.
  intros Hsettle. induction k as [|k IH]; intros m d1 c1 w1 Hle Hm Hc1.
  - destruct (afterRounds run b base ref (S m) d c w) as [[[d2 c2] w2]|] eqn:Hnext.
    + pose proof (Hsettle _ _ _ _ _ _ _ Hle Hm Hnext) as Hc2.
      exists m, (d1, c1, w1). split; [exact Hm|]. right. left.
      rewrite afterRounds_last, Hm in Hnext.
      exists d2, w2. rewrite Hnext. repeat f_equal. lia.
    + exists m, (d1, c1, w1). split; [exact Hm|]. right. right.
      now rewrite afterRounds_last, Hm in Hnext.
  - destruct (afterRounds run b base ref (S m) d c w) as [[[d2 c2] w2]|] eqn:Hnext.
    + pose proof (Hsettle _ _ _ _ _ _ _ Hle Hm Hnext) as Hc2.
      destruct (Z.eq_dec c2 c1) as [-> | Hneq].
      * exists m, (d1, c1, w1). split; [exact Hm|]. right. left.
        rewrite afterRounds_last, Hm in Hnext. now exists d2, w2.
      * apply (IH (S m) d2 c2 w2); [lia | exact Hnext | lia].
    + exists m, (d1, c1, w1). split; [exact Hm|]. right. right.
      now rewrite afterRounds_last, Hm in Hnext.
Qed.

(** Rounds that cannot all be made contain a first one in which a call
    throws. *)
Lemma afterRounds_first_failure (b base ref : string) (d c : Z) (w : World) :
  forall n,
    afterRounds run b base ref n d c w = None ->
    exists m s, afterRounds run b base ref m d c w = Some s /\ lastRound run b base ref s.
Proof.
  induction n as [|n IH]; intros Hnone; [discriminate|].
  destruct (afterRounds run b base ref n d c w) as [[[d1 c1] w1]|] eqn:Hn.
  - exists n, (d1, c1, w1). split; [exact Hn|]. right. right.
    now rewrite afterRounds_last, Hn in Hnone.
  - now apply IH.
Qed.

(** C2: the loop ends, by returning or by throwing, and more fuel changes
    nothing, for every behaviour of the repository in which, along the rounds
    of repeated deepen fetches, a merge base becomes visible, or a deepen
    fetch leaves the commit count unchanged, or the commit counts are from
    some round on natural numbers that no longer increase. *)
Theorem mergeBaseLoop_terminates :
  forall (b base ref : string) (d c : Z) (w : World),
    eventuallyVisible run b base ref d c w
    \/ eventuallyUnchanged run b base ref d c w
    \/ eventuallyNotIncreasing run b base ref d c w ->
    exists bound : nat,
      forall fuel,
        (bound <= fuel)%nat ->
        outcome (mergeBaseLoop run fuel (Some b) base ref d c w) <> OutOfFuel
        /\ mergeBaseLoop run fuel (Some b) base ref d c w
           = mergeBaseLoop run bound (Some b) base ref d c w.
Proof.
  intros b base ref d c w Hbehaviour.
  assert (Hlast : exists m s, afterRounds run b base ref m d c w = Some s
                              /\ lastRound run b base ref s).
  { destruct Hbehaviour as [(n & d' & c' & w' & Hn & Hvis)
                           | [(n & d' & c' & w' & Hn & Hstall) | (n & Hsettle)]].
    - exists n, (d', c', w'). split; [exact Hn | now left].
    - exists n, (d', c', w'). split; [exact Hn | right; now left].
    - destruct (afterRounds run b base ref n d c w) as [[[d1 c1] w1]|] eqn:Hn;
        [|eapply afterRounds_first_failure; eauto].
      destruct (afterRounds run b base ref (S n) d c w) as [[[d2 c2] w2]|] eqn:Hnext;
        [|eapply afterRounds_first_failure; eauto].
      pose proof (Hsettle _ _ _ _ _ _ _ (le_n n) Hn Hnext) as Hc2.
      apply (@settled_counts_stall b base ref d c w n Hsettle (Z.to_nat c2) (S n) d2 c2 w2);
        [lia | exact Hnext | lia]. }
  destruct Hlast as (m & s & Hm & Hs).
  pose proof (@mergeBaseLoop_ends b base ref m d c w s Hm Hs) as Hends.
  exists (S m). intros fuel Hle.
  rewrite (@mergeBaseLoop_fuel_le _ _ _ _ _ _ _ _ Hends Hle).
  split; [exact Hends | reflexivity].
Qed.

End Termination.

Lemma mergeBaseLoop_terminates_witness :
  exists bound : nat,
    forall fuel,
      (bound <= fuel)%nat ->
      outcome (mergeBaseLoop scripted fuel (Some "refs/heads/main") "main" "HEAD" 10 3
                 [ exited 1; ok ""; ok "8"; exited 1; ok ""; ok "8"; ok ""; exited 0 ])
      <> OutOfFuel
      /\ mergeBaseLoop scripted fuel (Some "refs/heads/main") "main" "HEAD" 10 3
           [ exited 1; ok ""; ok "8"; exited 1; ok ""; ok "8"; ok ""; exited 0 ]
         = mergeBaseLoop scripted bound (Some "refs/heads/main") "main" "HEAD" 10 3
             [ exited 1; ok ""; ok "8"; exited 1; ok ""; ok "8"; ok ""; exited 0 ].
Proof.
  apply (@mergeBaseLoop_terminates _ scripted).
  right. left. exists 1%nat. do 3 eexists. split; [reflexivity|].
  eexists. eexists. reflexivity.
Defined.

(** * Further properties of git.ts *)

(** ** [getShortName] *)

Lemma startsWith_slice (p s : string) :
  startsWith p s = true -> s = p ++ sliceFrom (String.length p) s.
Proof.
  unfold startsWith. revert s. induction p as [|c p IH]; intros s H; [reflexivity|].
  destruct s as [|c' s]; [discriminate|]. cbn in H |- *.
  destruct (ascii_dec c c') as [->|]; [|discriminate].
  f_equal. now apply IH.
Qed.

Lemma startsWith_append (p s : string) : startsWith p (p ++ s) = true.
Proof.
  unfold startsWith. induction p as [|c p IH]; [now destruct s|].
  cbn. destruct (ascii_dec c c); [exact IH | congruence].
Qed.

Lemma sliceFrom_append (p s : string) : sliceFrom (String.length p) (p ++ s) = s.
Proof. induction p as [|c p IH]; [reflexivity | exact IH]. Qed.

(** X1: [getShortName] undoes the qualification of a branch and of a tag:
    whatever the name, also the empty one, [refs/heads/name] and
    [refs/tags/name] are shortened to [name]. *)
Theorem getShortName_unqualifies :
  forall name : string,
    getShortName ("refs/heads/" ++ name) = name
    /\ getShortName ("refs/tags/" ++ name) = name.
Proof.
  intros name. unfold getShortName. split.
  - rewrite startsWith_append. cbn [negb nonEmpty]. apply (sliceFrom_append "refs/heads/").
  - change (startsWith "refs/heads/" ("refs/tags/" ++ name)) with false.
    rewrite startsWith_append. apply (sliceFrom_append "refs/tags/").
Qed.

(** X2: [getShortName] removes at most one of the two prefixes and nothing
    else: its argument is the result behind [refs/heads/], behind
    [refs/tags/] or as it is, and a reference with neither prefix (a remote
    reference, a SHA) is returned unchanged. *)
Theorem getShortName_suffix :
  forall ref : string,
    (exists p, In p [""; "refs/heads/"; "refs/tags/"] /\ ref = p ++ getShortName ref)
    /\ (startsWith "refs/heads/" ref = false ->
        startsWith "refs/tags/" ref = false ->
        getShortName ref = ref).
Proof.
  intros ref. unfold getShortName. split.
  - destruct ref as [|c ref]; [exists ""; split; [in_list | reflexivity]|].
    cbn [negb nonEmpty String.length Nat.ltb Nat.leb].
    destruct (startsWith "refs/heads/" (String c ref)) eqn:Hh.
    + exists "refs/heads/". split; [in_list | now apply startsWith_slice].
    + destruct (startsWith "refs/tags/" (String c ref)) eqn:Ht.
      * exists "refs/tags/". split; [in_list | now apply startsWith_slice].
      * exists "". split; [in_list | reflexivity].
  - intros -> ->. now destruct ref.
Qed.

Lemma getShortName_suffix_witness :
  getShortName "refs/remotes/origin/main" = "refs/remotes/origin/main".
Proof. apply (proj2 (getShortName_suffix "refs/remotes/origin/main")); reflexivity. Defined.

(** ** The parsers on any output *)

Lemma tokens_isToken (s : string) : Forall (fun t => isToken t = true) (tokens s).
Proof.
  apply Forall_forall. intros t Ht. unfold tokens in Ht.
  apply filter_In in Ht as [Hin Hne]. unfold isToken. rewrite Hne. simpl.
  exact (proj1 (Forall_forall _ _) (split_pieces_nulFree s) t Hin).
Qed.

Lemma pairTokens_filename_In (toks : list string) (f : File) :
  In f (pairTokens toks) -> In (filename f) toks.
Proof.
  induction toks as [| a | a b l IH] using pair_induction; simpl; try tauto.
  intros [<- | H]; simpl; auto.
Qed.

Lemma pairTokens_app_even (toks rest : list string) :
  Nat.even (List.length toks) = true ->
  pairTokens (toks ++ rest) = (pairTokens toks ++ pairTokens rest)%list.
Proof.
  induction toks as [| a | a b l IH] using pair_induction; intros He.
  - reflexivity.
  - discriminate.
  - simpl. f_equal. now apply IH.
Qed.

Lemma tokens_leading_nuls (k : nat) (s : string) : tokens (nuls k ++ s) = tokens s.
Proof.
  induction k as [|k IH]; [reflexivity|].
  change (nuls (S k) ++ s) with ("" ++ String NUL (nuls k ++ s)).
  now rewrite tokens_app_nul, IH.
Qed.

(** X3: whatever git printed, no file of [parseGitDiffOutput] and none of
    [listAllFilesAsAdded] has an empty name or a name that holds the
    delimiter. *)
Theorem filenames_are_tokens :
  forall output : string,
    Forall (fun f => isToken (filename f) = true) (parseGitDiffOutput output)
    /\ Forall (fun f => isToken (filename f) = true) (filesAsAdded output).
Proof.
  intros output.
  pose proof (proj1 (Forall_forall _ _) (tokens_isToken output)) as Htok.
  split; apply Forall_forall; intros f Hf.
  - rewrite parseGitDiffOutput_pairs in Hf. now apply Htok, pairTokens_filename_In.
  - unfold filesAsAdded in Hf. apply in_map_iff in Hf as (p & <- & Hp). now apply Htok.
Qed.

(** X4: the parsers work record by record.  Of two outputs joined by a
    delimiter, [listAllFilesAsAdded] lists the files of the first and then
    those of the second; so does [parseGitDiffOutput] when the first holds
    complete records, that is an even number of tokens. *)
Theorem parsers_concatenate :
  forall a b : string,
    filesAsAdded (a ++ String NUL b) = (filesAsAdded a ++ filesAsAdded b)%list
    /\ (Nat.even (List.length (tokens a)) = true ->
        parseGitDiffOutput (a ++ String NUL b)
        = (parseGitDiffOutput a ++ parseGitDiffOutput b)%list).
Proof.
  intros a b. split.
  - unfold filesAsAdded. now rewrite tokens_app_nul, map_app.
  - intros He. rewrite !parseGitDiffOutput_pairs, tokens_app_nul.
    now apply pairTokens_app_even.
Qed.

Lemma parsers_concatenate_witness :
  parseGitDiffOutput (("A" ++ String NUL "x") ++ String NUL ("M" ++ String NUL "y"))
  = (parseGitDiffOutput ("A" ++ String NUL "x")
     ++ parseGitDiffOutput ("M" ++ String NUL "y"))%list.
Proof.
  apply (proj2 (parsers_concatenate ("A" ++ String NUL "x") ("M" ++ String NUL "y"))).
  reflexivity.
Defined.

(** X5: delimiters count once.  Any number of delimiters before the output
    and any number of further delimiters where one stands change the result
    of neither parser: an empty token is not a status code and not a path. *)
Theorem parsers_skip_empty_tokens :
  forall (j k : nat) (a b : string),
    parseGitDiffOutput (nuls j ++ a ++ String NUL (nuls k ++ b))
    = parseGitDiffOutput (a ++ String NUL b)
    /\ filesAsAdded (nuls j ++ a ++ String NUL (nuls k ++ b))
       = filesAsAdded (a ++ String NUL b).
Proof.
  intros j k a b.
  assert (H : tokens (nuls j ++ a ++ String NUL (nuls k ++ b)) = tokens (a ++ String NUL b)).
  { now rewrite tokens_leading_nuls, !tokens_app_nul, tokens_leading_nuls. }
  split.
  - now rewrite !parseGitDiffOutput_pairs, H.
  - unfold filesAsAdded. now rewrite H.
Qed.

(** ** [statusMap] *)

(** X6: a key of [statusMap] holds a status exactly when it is that status's
    letter: of all strings only A, C, D, M, R and U are mapped, each to its
    own status; a missing key gives no status. *)
Theorem statusMap_own :
  forall (key : string) (s : ChangeStatus),
    statusMap key = Own s <-> key = statusLetter s.
Proof.
  intros key s. split.
  - unfold statusMap.
    repeat match goal with
           | |- context [String.eqb key ?l] =>
               destruct (String.eqb_spec key l) as [->|_];
               [intros [= <-]; reflexivity|]
           end.
    destruct (existsb _ _); discriminate.
  - intros ->. now destruct s.
Qed.

(** ** Numbers: [parseInt], the template literal and [Math.min] *)













Section Counting.

Variable World : Type.
Variable run : Command -> World -> Reply * World.


End Counting.


(** X8: the fetch depth of the search.  Doubling never exceeds
    [Number.MAX_SAFE_INTEGER]; a positive depth below the bound grows with
    every doubling, reaches the bound after at most 53 doublings and stays
    there; a depth that is not positive never becomes positive, so an
    initial depth of 0 stays 0. *)
Theorem deepen_saturates :
  forall d : Z,
    (deepen d <= MAX_SAFE_INTEGER)%Z
    /\ ((0 < d < MAX_SAFE_INTEGER)%Z -> (d < deepen d)%Z)
    /\ ((MAX_SAFE_INTEGER <= d)%Z -> deepen d = MAX_SAFE_INTEGER)
    /\ ((d <= 0)%Z -> (deepen d <= d)%Z)
    /\ ((1 <= d)%Z -> forall j : nat, (53 <= j)%nat -> saturatedDepth d j = MAX_SAFE_INTEGER).
Proof.
  intros d. unfold deepen, saturatedDepth, MAX_SAFE_INTEGER.
  repeat split; try lia.
  intros Hd j Hj.
  assert (Hp : (2 ^ 53 <= 2 ^ Z.of_nat j)%Z) by (apply Z.pow_le_mono_r; lia).
  change (2 ^ 53)%Z with 9007199254740992%Z in Hp.
  apply Z.min_r. nia.
Qed.

Lemma deepen_saturates_witness :
  saturatedDepth 10 60 = MAX_SAFE_INTEGER /\ (1 < deepen 1)%Z.
Proof.
  split.
  - apply (proj2 (proj2 (proj2 (proj2 (deepen_saturates 10))))); [lia | repeat constructor].
  - apply (proj1 (proj2 (deepen_saturates 1))). unfold MAX_SAFE_INTEGER. lia.
Defined.
(** ** [trim] and [getCurrentRef] *)

Lemma trimEnd_endsBlank (s : string) : endsBlank (trimEnd s) = false.
Proof.
  induction s as [|c s IH]; [reflexivity|].
  cbn [trimEnd]. destruct (trimEnd s) as [|c' r'].
  - destruct (jsWhiteSpace c) eqn:Hc; [reflexivity | simpl; exact Hc].
  - exact IH.
Qed.

Lemma trimEnd_beginsBlank (s : string) :
  beginsBlank s = false -> beginsBlank (trimEnd s) = false.
Proof.
  destruct s as [|c s]; [reflexivity|]. cbn [trimEnd beginsBlank]. intros Hc.
  destruct (trimEnd s); [rewrite Hc|]; exact Hc.
Qed.

Lemma trimEnd_suffix (s : string) :
  exists b, s = trimEnd s ++ b /\ allWhiteSpace b = true.
Proof.
  induction s as [|c s (b & Hs & Hb)]; [now exists ""|].
  cbn [trimEnd]. destruct (trimEnd s) as [|c' r'].
  - destruct (jsWhiteSpace c) eqn:Hc.
    + exists (String c s). split; [reflexivity|].
      simpl in Hs. subst b. unfold allWhiteSpace in *. simpl. now rewrite Hc.
    + exists b. split; [|exact Hb]. simpl in *. now subst b.
  - exists b. split; [|exact Hb]. simpl in *. now rewrite Hs at 1.
Qed.

Lemma skipWhiteSpace_beginsBlank (s : string) : beginsBlank (skipWhiteSpace s) = false.
Proof.
  induction s as [|c s IH]; [reflexivity|].
  simpl. destruct (jsWhiteSpace c) eqn:Hc; [exact IH | simpl; exact Hc].
Qed.

Lemma skipWhiteSpace_prefix (s : string) :
  exists a, s = a ++ skipWhiteSpace s /\ allWhiteSpace a = true.
Proof.
  induction s as [|c s (a & Hs & Ha)]; [now exists ""|].
  simpl. destruct (jsWhiteSpace c) eqn:Hc.
  - exists (String c a). split; [simpl; now rewrite <- Hs|].
    unfold allWhiteSpace in *. simpl. now rewrite Hc.
  - now exists "".
Qed.

(** What [trim] removes and what it leaves. *)
Lemma trim_spec (s : string) :
  beginsBlank (trim s) = false /\ endsBlank (trim s) = false
  /\ exists a b, s = a ++ trim s ++ b /\ allWhiteSpace a = true /\ allWhiteSpace b = true.
Proof.
  unfold trim. split; [|split].
  - apply trimEnd_beginsBlank, skipWhiteSpace_beginsBlank.
  - apply trimEnd_endsBlank.
  - destruct (skipWhiteSpace_prefix s) as (a & Hs & Ha).
    destruct (trimEnd_suffix (skipWhiteSpace s)) as (b & Ht & Hb).
    exists a, b. repeat split; auto. now rewrite <- Ht.
Qed.

Section CurrentRefRuns.

Variable World : Type.
Variable run : Command -> World -> Reply * World.

(** Every run of [getCurrentRef], by the replies of the accessor. *)
Lemma getCurrentRef_run (w : World) :
  getCurrentRef run w =
  let '(r1, w1) := run branchShowCurrent w in
  match r1 with
  | Failed e =>
      {| trace := [EStartGroup "Determining current ref"; EExec branchShowCurrent r1; EEndGroup];
         outcome := Throw e; final := w1 |}
  | Done b =>
      if nonEmpty (trim (stdout b)) then
        {| trace := [EStartGroup "Determining current ref"; EExec branchShowCurrent r1; EEndGroup];
           outcome := Ret (trim (stdout b)); final := w1 |}
      else
        let '(r2, w2) := run describeExact w1 in
        match r2 with
        | Failed e =>
            {| trace := [EStartGroup "Determining current ref"; EExec branchShowCurrent r1;
                         EExec describeExact r2; EEndGroup];
               outcome := Throw e; final := w2 |}
        | Done d =>
            if (code d =? 0)%Z then
              {| trace := [EStartGroup "Determining current ref"; EExec branchShowCurrent r1;
                           EExec describeExact r2; EEndGroup];
                 outcome := Ret (trim (stdout d)); final := w2 |}
            else
              let '(r3, w3) := run revParseHead w2 in
              {| trace := [EStartGroup "Determining current ref"; EExec branchShowCurrent r1;
                           EExec describeExact r2; EExec revParseHead r3; EEndGroup];
                 outcome := match r3 with
                            | Failed e => Throw e
                            | Done h => Ret (trim (stdout h))
                            end;
                 final := w3 |}
        end
  end.
Proof.
  unfold getCurrentRef, startGroup, endGroup, emit, bind, tryFinally, exec, ret,
    branchShowCurrent, describeExact, revParseHead, git.
  destruct (run _ w) as [[e|b] w1]; [reflexivity|].
  destruct (nonEmpty (trim (stdout b))); [reflexivity|].
  destruct (run _ w1) as [[e|d] w2]; [reflexivity|].
  destruct (code d =? 0)%Z; [reflexivity|].
  destruct (run _ w2) as [[e|h] w3]; reflexivity.
Qed.


(** X9: what [getCurrentRef] prefers.  With the replies of git trimmed: a
    branch name that is not empty is the result and nothing else is asked;
    otherwise the tag that [git describe] finds with exit code 0 is the
    result, also when it printed nothing; otherwise, [git describe] having
    exited with another code without an error thrown, it is what
    [git rev-parse HEAD] prints.  The log group is closed in each case. *)
Theorem getCurrentRef_precedence :
  forall (w w1 : World) (b : ExecResult),
    run branchShowCurrent w = (Done b, w1) ->
    (nonEmpty (trim (stdout b)) = true ->
     getCurrentRef run w
     = {| trace := [EStartGroup "Determining current ref";
                    EExec branchShowCurrent (Done b); EEndGroup];
          outcome := Ret (trim (stdout b)); final := w1 |})
    /\ (nonEmpty (trim (stdout b)) = false ->
        forall (w2 : World) (d : ExecResult),
          run describeExact w1 = (Done d, w2) ->
          (code d = 0%Z ->
           getCurrentRef run w
           = {| trace := [EStartGroup "Determining current ref";
                          EExec branchShowCurrent (Done b);
                          EExec describeExact (Done d); EEndGroup];
                outcome := Ret (trim (stdout d)); final := w2 |})
          /\ (code d <> 0%Z ->
              forall (w3 : World) (h : ExecResult),
                run revParseHead w2 = (Done h, w3) ->
                getCurrentRef run w
                = {| trace := [EStartGroup "Determining current ref";
                               EExec branchShowCurrent (Done b);
                               EExec describeExact (Done d);
                               EExec revParseHead (Done h); EEndGroup];
                     outcome := Ret (trim (stdout h)); final := w3 |})).
Proof.
  intros w w1 b Hb. rewrite getCurrentRef_run, Hb. split.
  - now intros ->.
  - intros -> w2 d Hd. rewrite Hd. split.
    + intros Hc. now rewrite Hc.
    + intros Hc w3 h Hh. apply Z.eqb_neq in Hc. now rewrite Hc, Hh.
Qed.

(** X10: every run of [getCurrentRef].  It asks git at most three times,
    for the branch, then the tag, then the commit, in this order and
    stopping at the first answer it takes or the first error; it never fails
    to end; and a reference it returns is the trimmed output of the last
    call: it neither begins nor ends with white space or a line end. *)
Theorem getCurrentRef_every_run :
  forall w : World,
    (exists k : nat,
        (1 <= k <= 3)%nat
        /\ calls (trace (getCurrentRef run w))
           = firstn k [branchShowCurrent; describeExact; revParseHead])
    /\ outcome (getCurrentRef run w) <> OutOfFuel
    /\ (forall ref : string,
           outcome (getCurrentRef run w) = Ret ref ->
           beginsBlank ref = false /\ endsBlank ref = false
           /\ exists out, lastOutput (trace (getCurrentRef run w)) = Some out
                          /\ ref = trim out).
Proof.
  intros w. rewrite getCurrentRef_run.
  assert (Htrim : forall out ref, trim out = ref ->
                    beginsBlank ref = false /\ endsBlank ref = false).
  { intros out ref <-. split; apply trim_spec. }
  destruct (run branchShowCurrent w) as [[e|b] w1].
  { split; [exists 1%nat; split; [lia | reflexivity]|]. split; discriminate. }
  destruct (nonEmpty (trim (stdout b))).
  { split; [exists 1%nat; split; [lia | reflexivity]|]. split; [discriminate|].
    intros ref [= Href]. destruct (Htrim _ _ Href) as [H1 H2].
    repeat split; auto. exists (stdout b). now split. }
  destruct (run describeExact w1) as [[e|d] w2].
  { split; [exists 2%nat; split; [lia | reflexivity]|]. split; discriminate. }
  destruct (code d =? 0)%Z.
  { split; [exists 2%nat; split; [lia | reflexivity]|]. split; [discriminate|].
    intros ref [= Href]. destruct (Htrim _ _ Href) as [H1 H2].
    repeat split; auto. exists (stdout d). now split. }
  destruct (run revParseHead w2) as [[e|h] w3].
  { split; [exists 3%nat; split; [lia | reflexivity]|]. split; discriminate. }
  split; [exists 3%nat; split; [lia | reflexivity]|]. split; [discriminate|].
  intros ref [= Href]. destruct (Htrim _ _ Href) as [H1 H2].
  repeat split; auto. exists (stdout h). now split.
Qed.

End CurrentRefRuns.

Lemma getCurrentRef_precedence_witness :
  getCurrentRef scripted [ok (String LF ""); ok ("v1.2" ++ String LF "")]
  = {| trace := [EStartGroup "Determining current ref";
                 EExec branchShowCurrent (ok (String LF ""));
                 EExec describeExact (ok ("v1.2" ++ String LF "")); EEndGroup];
       outcome := Ret "v1.2"; final := [] |}.
Proof.
  apply (proj1 (proj2 (@getCurrentRef_precedence _ scripted
                         [ok (String LF ""); ok ("v1.2" ++ String LF "")]
                         [ok ("v1.2" ++ String LF "")] _ eq_refl)
                  eq_refl [] _ eq_refl));
    reflexivity.
Defined.

Lemma getCurrentRef_every_run_witness :
  beginsBlank "main" = false /\ endsBlank "main" = false
  /\ exists out,
       lastOutput (trace (getCurrentRef scripted [ok (" main" ++ String LF "")])) = Some out
       /\ "main" = trim out.
Proof.
  apply (proj2 (proj2 (@getCurrentRef_every_run _ scripted [ok (" main" ++ String LF "")]))).
  reflexivity.
Defined.

(** ** What every run does and never does *)

Section Traces.

Variable World : Type.
Variable run : Command -> World -> Reply * World.
Variable P : Event -> Prop.

Lemma trace_bind_Forall (A B : Type) (m : M World A) (k : A -> M World B) (w : World) :
  Forall P (trace (m w)) -> (forall a w', Forall P (trace (k a w'))) ->
  Forall P (trace (bind m k w)).
Proof.
  intros Hm Hk. unfold bind. destruct (m w) as [tr [a|e|] w1]; simpl in *; auto.
  specialize (Hk a w1). destruct (k a w1) as [tr' o w2]. simpl in *.
  apply Forall_app. now split.
Qed.

Lemma trace_tryFinally_Forall (A : Type) (body : M World A) (fin : M World unit) (w : World) :
  Forall P (trace (body w)) -> (forall w', Forall P (trace (fin w'))) ->
  Forall P (trace (tryFinally body fin w)).
Proof.
  intros Hb Hf. unfold tryFinally.
  destruct (body w) as [tr [a|e|] w1]; simpl in *; auto;
    specialize (Hf w1); destruct (fin w1) as [tr' [[]|e'|] w2]; simpl in *;
    apply Forall_app; now split.
Qed.

Lemma trace_exec_Forall (cl : string) (a : list string) (ignore : bool) (w : World) :
  (forall reply, P (EExec (mkCommand cl a ignore) reply)) ->
  Forall P (trace (exec run cl a ignore w)).
Proof.
  intros H. unfold exec. destruct (run _ w) as [reply w1]. simpl. now repeat constructor.
Qed.

Lemma trace_emit_Forall (e : Event) (w : World) : P e -> Forall P (trace (emit e w)).
Proof. intros H. simpl. now repeat constructor. Qed.

End Traces.

(** One step through a computation, for a property of all the events of
    its trace. *)
Ltac trace_step :=
  lazymatch goal with
  | |- Forall _ (trace (bind _ _ _)) => apply trace_bind_Forall; [|intros ? ?]
  | |- Forall _ (trace (tryFinally _ _ _)) => apply trace_tryFinally_Forall; [|intros ?]
  | |- Forall _ (trace (exec _ _ _ _ _)) =>
      apply trace_exec_Forall; intros ?; cbn; auto
  | |- Forall _ (trace (emit _ _)) => apply trace_emit_Forall; cbn; auto
  | |- Forall _ (trace (ret _ _)) => constructor
  | |- Forall _ (trace (throw _ _)) => constructor
  | |- Forall _ (trace (diverge _)) => constructor
  | |- Forall _ (trace ((if ?b then _ else _) _)) => destruct b
  | |- Forall _ (trace (match ?x with _ => _ end _)) => destruct x
  end.

Ltac trace_steps :=
  repeat (unfold startGroup, endGroup, info, warning, fixStdOutNullTermination;
          trace_step).

Lemma Forall_plain_known (tr : list Event) : Forall plainEvent tr -> Forall knownEvent tr.
Proof. apply Forall_impl. intros e. destruct e; simpl; tauto. Qed.

Lemma Forall_plain_noGroup (tr : list Event) : Forall plainEvent tr -> Forall noGroup tr.
Proof. apply Forall_impl. intros e. destruct e; simpl; tauto. Qed.

Lemma Forall_known_calls (tr : list Event) :
  Forall knownEvent tr -> Forall (fun c => knownCall c = true) (calls tr).
Proof.
  induction 1 as [|e tr He _ IH]; [constructor|].
  destruct e; simpl; auto.
Qed.

Section Calls.

Variable World : Type.
Variable run : Command -> World -> Reply * World.

Lemma getFullRef_plain (shortName : string) (w : World) :
  Forall plainEvent (trace (getFullRef run shortName w)).
Proof. unfold getFullRef, plainEvent. trace_steps. Qed.

Lemma hasMergeBase_plain (baseRef : option string) (ref : string) (w : World) :
  Forall plainEvent (trace (hasMergeBase run baseRef ref w)).
Proof. unfold hasMergeBase, plainEvent. trace_steps. Qed.

Lemma getCommitCount_plain (w : World) :
  Forall plainEvent (trace (getCommitCount run w)).
Proof. unfold getCommitCount, plainEvent. trace_steps. Qed.

Lemma mergeBaseLoop_plain (fuel : nat) (baseRef : option string) (base ref : string) :
  forall (depth lastCommitCount : Z) (w : World),
    Forall plainEvent (trace (mergeBaseLoop run fuel baseRef base ref depth lastCommitCount w)).
Proof.
  induction fuel as [|fuel IH]; intros depth lastCommitCount w; [constructor|].
  cbn [mergeBaseLoop].
  apply trace_bind_Forall; [apply hasMergeBase_plain|]. intros found w1.
  destruct found; [constructor|].
  apply trace_bind_Forall; [unfold plainEvent; trace_steps|]. intros _ w2.
  apply trace_bind_Forall; [apply getCommitCount_plain|]. intros commitCount w3.
  destruct (commitCount =? lastCommitCount)%Z; [|apply IH].
  unfold info.
  do 3 (apply trace_bind_Forall; [unfold plainEvent; trace_steps|]; intros ? ?).
  apply trace_bind_Forall; [apply hasMergeBase_plain|]. intros ? ?. constructor.
Qed.

Lemma ensureBaseRef_plain (base ref : string) (baseRef : option string) (w : World) :
  Forall plainEvent (trace (ensureBaseRef run base ref baseRef w)).
Proof.
  unfold ensureBaseRef. destruct baseRef; [constructor|].
  apply trace_bind_Forall; [apply getFullRef_plain|]. intros [b|] w1; [constructor|].
  apply trace_bind_Forall; [unfold plainEvent; trace_steps|]. intros _ w2.
  apply trace_bind_Forall; [apply getFullRef_plain|]. intros [b|] w3; constructor.
Qed.

Lemma searchMergeBase_plain (fuel : nat) (base ref : string) (depth : Z) (w : World) :
  Forall plainEvent (trace (searchMergeBase run fuel base ref depth w)).
Proof.
  unfold searchMergeBase.
  apply trace_bind_Forall; [apply getFullRef_plain|]. intros baseRef w1.
  apply trace_bind_Forall; [apply hasMergeBase_plain|]. intros found w2.
  destruct found; [constructor|].
  apply trace_bind_Forall; [unfold plainEvent; trace_steps|]. intros _ w3.
  apply trace_bind_Forall; [apply ensureBaseRef_plain|]. intros baseRef' w4.
  apply trace_bind_Forall; [apply getCommitCount_plain|]. intros count w5.
  apply trace_bind_Forall; [apply mergeBaseLoop_plain|]. intros ? ?. constructor.
Qed.

Lemma getChangesSinceMergeBase_known (fuel : nat) (base ref : string) (depth : Z) (w : World) :
  Forall knownEvent (trace (getChangesSinceMergeBase run fuel base ref depth w)).
Proof.
  unfold getChangesSinceMergeBase.
  apply trace_bind_Forall; [trace_steps|]. intros _ w1.
  apply trace_bind_Forall.
  { apply trace_tryFinally_Forall; [|intros; trace_steps].
    apply Forall_plain_known, searchMergeBase_plain. }
  intros [baseRef noMergeBase] w2. trace_steps.
Qed.

(** X11: git.ts runs git and nothing else, and of git only the subcommands
    log, cat-file, fetch, diff, ls-files, rev-list, show-ref, merge-base,
    branch, describe and rev-parse; it reads the exit code of cat-file,
    show-ref, merge-base and describe and lets every other call throw.  This
    holds of every call of every run of every function, however the run
    ends. *)
Theorem only_known_calls :
  forall (w : World) (fuel : nat) (base ref : string) (depth : Z),
    Forall (fun c => knownCall c = true) (calls (trace (getChangesInLastCommit run w)))
    /\ Forall (fun c => knownCall c = true) (calls (trace (getChanges run base w)))
    /\ Forall (fun c => knownCall c = true) (calls (trace (getChangesOnHead run w)))
    /\ Forall (fun c => knownCall c = true)
         (calls (trace (getChangesSinceMergeBase run fuel base ref depth w)))
    /\ Forall (fun c => knownCall c = true) (calls (trace (listAllFilesAsAdded run w)))
    /\ Forall (fun c => knownCall c = true) (calls (trace (getCurrentRef run w)))
    /\ Forall (fun c => knownCall c = true) (calls (trace (hasCommit run base w)))
    /\ Forall (fun c => knownCall c = true) (calls (trace (getCommitCount run w)))
    /\ Forall (fun c => knownCall c = true) (calls (trace (getFullRef run base w))).
Proof.
  intros w fuel base ref depth.
  repeat split; apply Forall_known_calls.
  - unfold getChangesInLastCommit. trace_steps.
  - unfold getChanges, hasCommit. trace_steps.
  - unfold getChangesOnHead. trace_steps.
  - apply getChangesSinceMergeBase_known.
  - unfold listAllFilesAsAdded. trace_steps.
  - unfold getCurrentRef. trace_steps.
  - unfold hasCommit. trace_steps.
  - apply Forall_plain_known, getCommitCount_plain.
  - apply Forall_plain_known, getFullRef_plain.
Qed.

End Calls.

(** ** Log groups *)

Lemma groupState_noGroup (tr : list Event) (open : bool) :
  Forall noGroup tr -> groupState open tr = Some open.
Proof.
  induction 1 as [|e tr He _ IH]; [reflexivity|].
  destruct e; simpl in *; tauto.
Qed.

Lemma groupState_app (tr1 tr2 : list Event) :
  forall open open' : bool,
    groupState open tr1 = Some open' ->
    groupState open (tr1 ++ tr2) = groupState open' tr2.
Proof.
  induction tr1 as [|e tr1 IH]; intros open open' H; simpl in *.
  - now injection H as ->.
  - destruct e; try (now apply IH); destruct open; try discriminate; now apply IH.
Qed.

Section Groups.

Variable World : Type.
Variable run : Command -> World -> Reply * World.

(** The block that reads the output of one call inside a log group. *)
Lemma read_output_groups (A : Type) (name : string) (a : list string)
    (post : string -> A) (w : World) :
  groupState false
    (trace ((startGroup name ;;;
             output <- tryFinally (r <- exec run "git" a false ;; ret (stdout r))
                                  (fixStdOutNullTermination ;;; endGroup) ;;
             ret (post output)) w))
  = Some false.
Proof.
  unfold fixStdOutNullTermination, startGroup, endGroup, info, emit, bind, tryFinally,
    exec, ret.
  destruct (run _ w) as [[e|x] w1]; reflexivity.
Qed.

Lemma getChangesSinceMergeBase_groups (fuel : nat) (base ref : string) (depth : Z)
    (w : World) :
  outcome (getChangesSinceMergeBase run fuel base ref depth w) <> OutOfFuel ->
  groupState false (trace (getChangesSinceMergeBase run fuel base ref depth w)) = Some false.
Proof.
  unfold getChangesSinceMergeBase, startGroup. rewrite bind_emit. cbn [trace outcome groupState].
  pose proof (Forall_plain_noGroup (searchMergeBase_plain run fuel base ref depth w)) as Hfree.
  pose proof (tryFinally_endGroup (searchMergeBase run fuel base ref depth) w) as Htry.
  destruct (outcome (searchMergeBase run fuel base ref depth w)) as [[baseRef nm]|e|] eqn:Hs.
  - cbv beta iota in Htry. erewrite bind_known by exact Htry. cbn [trace outcome]. intros _.
    rewrite <- app_assoc.
    erewrite groupState_app by exact (groupState_noGroup true Hfree).
    cbn [app groupState].
    destruct nm.
    + unfold warning. rewrite bind_assoc, bind_emit. cbn [trace groupState].
      rewrite bind_ret. apply read_output_groups.
    + rewrite bind_ret. apply read_output_groups.
  - cbv beta iota in Htry. rewrite bind_Throw with (e := e) by now rewrite Htry.
    rewrite Htry. cbn [trace]. intros _.
    erewrite groupState_app by exact (groupState_noGroup true Hfree). reflexivity.
  - cbv beta iota in Htry. rewrite bind_OutOfFuel by now rewrite Htry.
    cbn [outcome]. congruence.
Qed.

(** X12: log groups are opened one at a time and closed again.  In every run
    of [getChangesInLastCommit], [getChangesOnHead], [listAllFilesAsAdded],
    [hasCommit], [getCurrentRef] and [getChangesSinceMergeBase], whether it
    returns or throws, no group is opened inside another, none is closed
    that is not open, and none is open at the end. *)
Theorem groups_closed :
  forall (w : World) (base ref : string) (depth : Z) (fuel : nat),
    groupState false (trace (getChangesInLastCommit run w)) = Some false
    /\ groupState false (trace (getChangesOnHead run w)) = Some false
    /\ groupState false (trace (listAllFilesAsAdded run w)) = Some false
    /\ groupState false (trace (hasCommit run base w)) = Some false
    /\ groupState false (trace (getCurrentRef run w)) = Some false
    /\ (outcome (getChangesSinceMergeBase run fuel base ref depth w) <> OutOfFuel ->
        groupState false (trace (getChangesSinceMergeBase run fuel base ref depth w))
        = Some false).
Proof.
  intros w base ref depth fuel. repeat split.
  - apply read_output_groups.
  - apply read_output_groups.
  - apply read_output_groups.
  - unfold hasCommit, startGroup, endGroup, emit, bind, tryFinally, exec, ret.
    destruct (run _ w) as [[e|x] w1]; reflexivity.
  - rewrite getCurrentRef_run.
    destruct (run branchShowCurrent w) as [[e|b] w1]; [reflexivity|].
    destruct (nonEmpty (trim (stdout b))); [reflexivity|].
    destruct (run describeExact w1) as [[e|d] w2]; [reflexivity|].
    destruct (code d =? 0)%Z; [reflexivity|].
    destruct (run revParseHead w2) as [[e|h] w3]; reflexivity.
  - apply getChangesSinceMergeBase_groups.
Qed.

(** X13: [getChanges] does not close its [Fetching] group when the fetch
    throws.  In every run of [getChanges] the groups are opened one at a
    time, and one is open at the end exactly when the fetch of the base
    failed: that call is not inside a [try]. *)
Theorem getChanges_open_group :
  forall (baseRef : string) (w : World),
    exists open : bool,
      groupState false (trace (getChanges run baseRef w)) = Some open
      /\ (open = true <->
          exists e, In (EExec (fetchOne baseRef) (Failed e)) (trace (getChanges run baseRef w))).
Proof.
  intros baseRef w.
  unfold getChanges, hasCommit, fixStdOutNullTermination, startGroup, endGroup, info, emit,
    bind, tryFinally, exec, ret, fetchOne, git.
  destruct (run _ w) as [[e|x] w1]; cbn.
  { exists false. split; [reflexivity|]. split; [discriminate|].
    intros (e' & H). simpl in H. repeat (destruct H as [H|H]; [discriminate H|]). destruct H. }
  destruct (code x =? 0)%Z; cbn.
  { destruct (run _ w1) as [[e|y] w2]; cbn;
      (exists false; split; [reflexivity|]; split; [discriminate|];
       intros (e' & H); simpl in H;
       repeat (destruct H as [H|H]; [discriminate H|]); destruct H). }
  destruct (run _ w1) as [[e|f] w2]; cbn.
  { exists true. split; [reflexivity|]. split; [|reflexivity].
    intros _. exists e. in_list. }
  destruct (run _ w2) as [[e|y] w3]; cbn;
    (exists false; split; [reflexivity|]; split; [discriminate|];
     intros (e' & H); simpl in H;
     repeat (destruct H as [H|H]; [discriminate H|]); destruct H).
Qed.

End Groups.

Lemma groups_closed_witness :
  groupState false
    (trace (getChangesSinceMergeBase scripted 0 "0123456789012345678901234567890123456789"
              "HEAD" 10 [exited 0; ok sampleStream]))
  = Some false.
Proof.
  apply (proj2 (proj2 (proj2 (proj2 (proj2
    (@groups_closed _ scripted [exited 0; ok sampleStream]
       "0123456789012345678901234567890123456789" "HEAD" 10%Z 0%nat)))))).
  discriminate.
Defined.

(** ** The functions that read one output *)

Section Listings.

Variable World : Type.
Variable run : Command -> World -> Reply * World.

Lemma read_output_fails (A : Type) (name : string) (a : list string)
    (post : string -> A) (w w' : World) (e : JsError) :
  run (git a false) w = (Failed e, w') ->
  (startGroup name ;;;
   output <- tryFinally (r <- exec run "git" a false ;; ret (stdout r))
                        (fixStdOutNullTermination ;;; endGroup) ;;
   ret (post output)) w
  = {| trace := [EStartGroup name; EExec (git a false) (Failed e); EInfo ""; EEndGroup];
       outcome := Throw e;
       final := w' |}.
Proof.
  intros Hrun.
  unfold fixStdOutNullTermination, startGroup, endGroup, info, emit, bind, tryFinally,
    exec, ret. unfold git in Hrun. now rewrite Hrun.
Qed.

(** X14: [listAllFilesAsAdded] returns every path that [git ls-files -z]
    prints, in the order printed and with duplicates kept, each as an added
    file, however many delimiters end the output; an empty listing gives no
    file. *)
Theorem listAllFilesAsAdded_lists :
  forall (w w' : World) (x : ExecResult) (paths : list string) (k : nat),
    run (git ["ls-files"; "-z"] false) w = (Done x, w') ->
    Forall (fun p => isToken p = true) paths ->
    stdout x = renderPaths paths ++ nuls k ->
    listAllFilesAsAdded run w
    = {| trace := [EStartGroup "Listing all files tracked by git";
                   EExec (git ["ls-files"; "-z"] false) (Done x); EInfo ""; EEndGroup];
         outcome := Ret (map (fun p => {| status := Own Added; filename := p |}) paths);
         final := w' |}.
Proof.
  intros w w' x paths k Hrun Hpaths Hout.
  unfold listAllFilesAsAdded. erewrite read_output_run by exact Hrun.
  unfold filesAsAdded. now rewrite Hout, tokens_trailing_nuls, tokens_renderPaths.
Qed.

(** X15: [getChangesInLastCommit] asks for the last commit only and
    [getChangesOnHead] for the difference between HEAD and the working
    tree, both without rename detection; each returns the records git
    printed, a status code and a path each, in order. *)
Theorem last_commit_and_head_changes :
  forall (w w' : World) (x : ExecResult) (recs : list (string * string)) (k : nat),
    Forall wellFormedRecord recs ->
    stdout x = renderRecords recs ++ nuls k ->
    (run (git ["log"; "--format="; "--no-renames"; "--name-status"; "-z"; "-n"; "1"] false) w
     = (Done x, w') ->
     getChangesInLastCommit run w
     = {| trace := [EStartGroup "Change detection in last commit";
                    EExec (git ["log"; "--format="; "--no-renames"; "--name-status"; "-z";
                                "-n"; "1"] false) (Done x);
                    EInfo ""; EEndGroup];
          outcome := Ret (map fileOfRecord recs);
          final := w' |})
    /\ (run (diff "HEAD") w = (Done x, w') ->
        getChangesOnHead run w
        = {| trace := [EStartGroup "Change detection on HEAD";
                       EExec (diff "HEAD") (Done x); EInfo ""; EEndGroup];
             outcome := Ret (map fileOfRecord recs);
             final := w' |}).
Proof.
  intros w w' x recs k Hrecs Hout. split; intros Hrun.
  - unfold getChangesInLastCommit. erewrite read_output_run by exact Hrun.
    now rewrite Hout, parse_renderRecords.
  - unfold getChangesOnHead. unfold diff in Hrun. erewrite read_output_run by exact Hrun.
    now rewrite Hout, parse_renderRecords.
Qed.

(** X16: when the one git call of [getChangesInLastCommit],
    [getChangesOnHead] or [listAllFilesAsAdded] throws, the function throws
    the same error, after the empty line of [fixStdOutNullTermination] has
    been logged and the group closed. *)
Theorem listing_failure :
  forall (w w' : World) (e : JsError),
    (run (git ["log"; "--format="; "--no-renames"; "--name-status"; "-z"; "-n"; "1"] false) w
     = (Failed e, w') ->
     getChangesInLastCommit run w
     = {| trace := [EStartGroup "Change detection in last commit";
                    EExec (git ["log"; "--format="; "--no-renames"; "--name-status"; "-z";
                                "-n"; "1"] false) (Failed e);
                    EInfo ""; EEndGroup];
          outcome := Throw e; final := w' |})
    /\ (run (diff "HEAD") w = (Failed e, w') ->
        getChangesOnHead run w
        = {| trace := [EStartGroup "Change detection on HEAD";
                       EExec (diff "HEAD") (Failed e); EInfo ""; EEndGroup];
             outcome := Throw e; final := w' |})
    /\ (run (git ["ls-files"; "-z"] false) w = (Failed e, w') ->
        listAllFilesAsAdded run w
        = {| trace := [EStartGroup "Listing all files tracked by git";
                       EExec (git ["ls-files"; "-z"] false) (Failed e); EInfo ""; EEndGroup];
             outcome := Throw e; final := w' |}).
Proof.
  intros w w' e. repeat split; intros Hrun.
  - unfold getChangesInLastCommit. now erewrite read_output_fails by exact Hrun.
  - unfold getChangesOnHead. unfold diff in Hrun. now erewrite read_output_fails by exact Hrun.
  - unfold listAllFilesAsAdded. now erewrite read_output_fails by exact Hrun.
Qed.

End Listings.

Lemma listAllFilesAsAdded_lists_witness :
  listAllFilesAsAdded scripted [ok ("a" ++ String NUL ("b" ++ String NUL ""))]
  = {| trace := [EStartGroup "Listing all files tracked by git";
                 EExec (git ["ls-files"; "-z"] false)
                   (ok ("a" ++ String NUL ("b" ++ String NUL "")));
                 EInfo ""; EEndGroup];
       outcome := Ret [ {| status := Own Added; filename := "a" |};
                        {| status := Own Added; filename := "b" |} ];
       final := [] |}.
Proof.
  apply (@listAllFilesAsAdded_lists _ scripted
           [ok ("a" ++ String NUL ("b" ++ String NUL ""))] [] _ ["a"; "b"] 0%nat eq_refl).
  - repeat constructor.
  - reflexivity.
Defined.

Lemma last_commit_and_head_changes_witness :
  getChangesOnHead scripted [ok sampleStream]
  = {| trace := [EStartGroup "Change detection on HEAD";
                 EExec (diff "HEAD") (ok sampleStream); EInfo ""; EEndGroup];
       outcome := Ret (map fileOfRecord [("A", "foo.txt"); ("D", "bar.txt")]);
       final := [] |}.
Proof.
  refine (proj2 (@last_commit_and_head_changes _ scripted [ok sampleStream] []
                   {| code := 0; stdout := sampleStream |}
                   [("A", "foo.txt"); ("D", "bar.txt")] 0%nat _ _) _);
    [repeat constructor | reflexivity | reflexivity].
Defined.

Lemma listing_failure_witness :
  getChangesInLastCommit scripted [Failed (Error "not a git repository")]
  = {| trace := [EStartGroup "Change detection in last commit";
                 EExec (git ["log"; "--format="; "--no-renames"; "--name-status"; "-z";
                             "-n"; "1"] false) (Failed (Error "not a git repository"));
                 EInfo ""; EEndGroup];
       outcome := Throw (Error "not a git repository"); final := [] |}.
Proof.
  apply (proj1 (@listing_failure _ scripted [Failed (Error "not a git repository")] [] _)).
  reflexivity.
Defined.

(** ** The search when the merge base is at hand *)

Section AtHand.

Variable World : Type.
Variable run : Command -> World -> Reply * World.

(** X17: with the merge base at hand nothing is fetched.  When the base
    resolves to [b] and [git merge-base b ref] exits with code 0 at once,
    [getChangesSinceMergeBase] fetches nothing, counts nothing and logs no
    warning: it compares [b...ref] and returns the records of that
    comparison, whatever the initial fetch depth. *)
Theorem getChangesSinceMergeBase_at_hand :
  forall (fuel : nat) (base ref b : string) (depth : Z) (w w0 w1 w2 : World)
         (tr : list Event) (x y : ExecResult),
    getFullRef run base w = {| trace := tr; outcome := Ret (Some b); final := w0 |} ->
    run (mergeBase b ref) w0 = (Done x, w1) ->
    code x = 0%Z ->
    run (diff (b ++ "..." ++ ref)) w1 = (Done y, w2) ->
    getChangesSinceMergeBase run fuel base ref depth w
    = {| trace := (EStartGroup ("Searching for merge-base " ++ base ++ "..." ++ ref)
                   :: tr
                   ++ [EExec (mergeBase b ref) (Done x); EEndGroup;
                       EStartGroup ("Change detection " ++ b ++ "..." ++ ref);
                       EExec (diff (b ++ "..." ++ ref)) (Done y); EInfo ""; EEndGroup])%list;
         outcome := Ret (parseGitDiffOutput (stdout y));
         final := w2 |}.
Proof.
  intros fuel base ref b depth w w0 w1 w2 tr x y Hfull Hmb Hcode Hdiff.
  assert (Hs : searchMergeBase run fuel base ref depth w
               = {| trace := (tr ++ [EExec (mergeBase b ref) (Done x)])%list;
                    outcome := Ret (Some b, false); final := w1 |}).
  { unfold searchMergeBase. erewrite bind_known by exact Hfull.
    unfold hasMergeBase. rewrite bind_assoc.
    unfold mergeBase in Hmb. erewrite bind_exec_Done by exact Hmb.
    rewrite bind_ret. rewrite Hcode. reflexivity. }
  unfold getChangesSinceMergeBase. unfold startGroup at 1. rewrite bind_emit.
  erewrite bind_known by (erewrite tryFinally_known by exact Hs; reflexivity).
  cbn [refToString]. rewrite bind_ret.
  unfold diff in Hdiff. erewrite read_output_run by exact Hdiff.
  cbn [trace outcome final]. f_equal. rewrite <- !app_assoc. reflexivity.
Qed.

End AtHand.

Lemma getChangesSinceMergeBase_at_hand_witness :
  getChangesSinceMergeBase scripted 0 "main" "HEAD" 10
    [ok ("0123456789012345678901234567890123456789 refs/heads/main" ++ String LF "");
     exited 0; ok sampleStream]
  = {| trace := [EStartGroup "Searching for merge-base main...HEAD";
                 EExec (showRef "main")
                   (ok ("0123456789012345678901234567890123456789 refs/heads/main"
                        ++ String LF ""));
                 EExec (mergeBase "refs/heads/main" "HEAD") (exited 0); EEndGroup;
                 EStartGroup "Change detection refs/heads/main...HEAD";
                 EExec (diff "refs/heads/main...HEAD") (ok sampleStream);
                 EInfo ""; EEndGroup];
       outcome := Ret (parseGitDiffOutput sampleStream);
       final := [] |}.
Proof.
  apply (@getChangesSinceMergeBase_at_hand _ scripted 0%nat "main" "HEAD" "refs/heads/main"
           10%Z _ [exited 0; ok sampleStream] [ok sampleStream] []
           [EExec (showRef "main")
              (ok ("0123456789012345678901234567890123456789 refs/heads/main"
                   ++ String LF ""))]);
    reflexivity.
Defined.

(** ** The references [getFullRef] takes from [git show-ref] *)

Lemma matchRefs_spec (l : string) :
  matchRefs l = ""
  \/ (startsWith "refs/" (matchRefs l) = true /\ noLineTerminator (matchRefs l) = true).
Proof.
  induction l as [|c l IH]; [now left|].
  cbn [matchRefs].
  destruct (startsWith "refs/" (String c l) && noLineTerminator (String c l)) eqn:H.
  - right. now apply andb_true_iff in H.
  - exact IH.
Qed.

Lemma candidateRefs_qualified (output r : string) :
  In r (candidateRefs output) ->
  startsWith "refs/" r = true /\ noLineTerminator r = true.
Proof.
  unfold candidateRefs. intros H. apply filter_In in H as [Hin Hne].
  apply in_map_iff in Hin as (l & <- & _).
  destruct (matchRefs_spec l) as [He|H]; [|exact H].
  rewrite He in Hne. discriminate.
Qed.

Section Qualified.

Variable World : Type.
Variable run : Command -> World -> Reply * World.

(** X18: a name that [getFullRef] finds is fully qualified.  For a name
    that is no SHA, a result other than [undefined] is taken from the output
    of the one call of [git show-ref], begins with [refs/] and holds no line
    end; and [undefined] is returned exactly when that output holds no
    [refs/] at all. *)
Theorem getFullRef_qualified :
  forall (shortName : string) (w : World) (result : option string),
    isGitSha shortName = false ->
    outcome (getFullRef run shortName w) = Ret result ->
    exists x : ExecResult,
      trace (getFullRef run shortName w) = [EExec (showRef shortName) (Done x)]
      /\ match result with
         | Some r =>
             In r (candidateRefs (stdout x))
             /\ startsWith "refs/" r = true /\ noLineTerminator r = true
         | None => candidateRefs (stdout x) = []
         end.
Proof.
  intros shortName w result Hsha.
  rewrite (getFullRef_show_ref _ _ _ Hsha).
  destruct (run (showRef shortName) w) as [[e|x] w1]; cbn [trace outcome]; [discriminate|].
  intros H. exists x. split; [reflexivity|].
  assert (Hin : forall r, In r (candidateRefs (stdout x)) ->
                  In r (candidateRefs (stdout x))
                  /\ startsWith "refs/" r = true /\ noLineTerminator r = true).
  { intros r Hr. split; [exact Hr | now apply candidateRefs_qualified with (output := stdout x)]. }
  destruct (candidateRefs (stdout x)) as [|first rest] eqn:Hrefs.
  - now injection H as <-.
  - destruct (find (startsWith "refs/remotes/origin/") (first :: rest)) as [remote|] eqn:Hfind.
    + apply find_some in Hfind as [Hr _].
      injection H as <-. now apply Hin.
    + injection H as <-. apply Hin. now left.
Qed.

End Qualified.

Lemma getFullRef_qualified_witness :
  exists x : ExecResult,
    trace (getFullRef scripted "v1" [ok ("0123456789012345678901234567890123456789 refs/tags/v1"
                                         ++ String LF "")])
    = [EExec (showRef "v1") (Done x)]
    /\ In "refs/tags/v1" (candidateRefs (stdout x))
    /\ startsWith "refs/" "refs/tags/v1" = true /\ noLineTerminator "refs/tags/v1" = true.
Proof.
  apply (@getFullRef_qualified _ scripted "v1"
           [ok ("0123456789012345678901234567890123456789 refs/tags/v1" ++ String LF "")]
           (Some "refs/tags/v1"));
    reflexivity.
Defined.

Lemma splitLines_line (l eol rest : string) :
  noLineTerminator l = true -> lineEnd eol ->
  splitLines (l ++ eol ++ rest) = l :: splitLines rest.
Proof.
  intros Hl Heol. induction l as [|c l IH].
  - destruct Heol as [-> | ->]; reflexivity.
  - cbn [noLineTerminator] in Hl. apply andb_true_iff in Hl as [Hc Hl].
    apply negb_true_iff in Hc. unfold lineTerminator in Hc.
    apply orb_false_iff in Hc as [Hlf Hcr].
    specialize (IH Hl). cbn [append splitLines]. rewrite Hlf, Hcr. cbn [andb].
    cbn [append] in IH.
    destruct (l ++ eol ++ rest) as [|c2 r2]; rewrite IH; reflexivity.
Qed.

Lemma lowerAlnum_no_lineTerminator (c : ascii) :
  lowerAlnum c = true -> lineTerminator c = false.
Proof. destruct c as [[] [] [] [] [] [] [] []]; intros H; try discriminate H; reflexivity. Qed.

Lemma noLineTerminator_entry (s ref : string) :
  forallb lowerAlnum (list_ascii_of_string s) = true -> noLineTerminator ref = true ->
  noLineTerminator (s ++ String " " ref) = true.
Proof.
  intros Hs Href. induction s as [|c s IH]; [simpl; exact Href|].
  simpl in Hs. apply andb_true_iff in Hs as [Hc Hs].
  cbn [append noLineTerminator]. now rewrite (lowerAlnum_no_lineTerminator _ Hc), IH.
Qed.

Lemma startsWith_refs_lowerAlnum (s t : string) :
  forallb lowerAlnum (list_ascii_of_string s) = true ->
  startsWith "refs/" (s ++ String " " t) = false.
Proof.
  intros Hs. destruct (startsWith "refs/" (s ++ String " " t)) eqn:H; [|reflexivity].
  apply startsWith_slice in H.
  destruct s as [|c1 [|c2 [|c3 [|c4 [|c5 s]]]]]; simpl in H; try congruence.
  inversion H; subst. simpl in Hs. discriminate Hs.
Qed.

Lemma matchRefs_entry (s ref : string) :
  forallb lowerAlnum (list_ascii_of_string s) = true ->
  startsWith "refs/" ref = true -> noLineTerminator ref = true ->
  matchRefs (s ++ String " " ref) = ref.
Proof.
  intros Hs Href Hnl. induction s as [|c s IH].
  - pose proof (startsWith_refs_lowerAlnum "" ref eq_refl) as H0. cbn [append] in H0.
    cbn [append matchRefs]. rewrite H0. cbn [andb].
    destruct ref as [|c r]; [discriminate Href|].
    cbn [matchRefs]. now rewrite Href, Hnl.
  - cbn [append matchRefs].
    change (String c (s ++ String " " ref)) with (String c s ++ String " " ref).
    rewrite (@startsWith_refs_lowerAlnum (String c s) ref Hs). cbn [andb].
    simpl in Hs. apply andb_true_iff in Hs as [_ Hs]. now apply IH.
Qed.

Lemma append_assoc_string (a b c : string) : (a ++ b) ++ c = a ++ b ++ c.
Proof. induction a as [|x a IH]; simpl; [reflexivity | now rewrite IH]. Qed.

(** X19: [getFullRef] reads the output of [git show-ref] as git writes it.
    From lines that hold a SHA, a space and a full reference name, ended by
    LF or by CR LF, the candidates are exactly the reference names, in the
    order of the lines. *)
Theorem candidateRefs_show_ref :
  forall (eol : string) (entries : list (string * string)),
    lineEnd eol -> Forall showRefEntry entries ->
    candidateRefs (renderShowRef eol entries) = map snd entries.
Proof.
  intros eol entries Heol. induction 1 as [|[sha ref] entries (Hsha & Href & Hnl) _ IH].
  - reflexivity.
  - cbn [fst snd] in *.
    apply isGitSha_match, matchClassTimes_all in Hsha as [_ Hsha].
    unfold candidateRefs in *. cbn [renderShowRef map].
    change (sha ++ String " " (ref ++ eol ++ renderShowRef eol entries))
      with (sha ++ String " " ref ++ eol ++ renderShowRef eol entries).
    rewrite <- (append_assoc_string sha (String " " ref)).
    rewrite splitLines_line by (auto using noLineTerminator_entry).
    cbn [map filter]. rewrite matchRefs_entry by assumption.
    destruct ref as [|c r]; [discriminate Href|]. cbn [String.eqb negb].
    now rewrite IH.
Qed.

Lemma candidateRefs_show_ref_witness :
  candidateRefs
    (renderShowRef (String CR (String LF ""))
       [("0123456789012345678901234567890123456789", "refs/heads/main");
        ("abcdefabcdefabcdefabcdefabcdefabcdefabcd", "refs/remotes/origin/main")])
  = ["refs/heads/main"; "refs/remotes/origin/main"].
Proof.
  apply (@candidateRefs_show_ref (String CR (String LF ""))
           [("0123456789012345678901234567890123456789", "refs/heads/main");
            ("abcdefabcdefabcdefabcdefabcdefabcdefabcd", "refs/remotes/origin/main")]).
  - right. reflexivity.
  - repeat constructor.
Defined.

(** ** Errors *)

Lemma replies_app (tr1 tr2 : list Event) :
  replies (tr1 ++ tr2) = (replies tr1 ++ replies tr2)%list.
Proof. unfold replies. apply flat_map_app. Qed.

Section Errors.

Variable World : Type.
Variable run : Command -> World -> Reply * World.
Variable own : JsError -> Prop.

Lemma failFast_ret (A : Type) (a : A) (w : World) : failFast own (ret a w).
Proof. reflexivity. Qed.

Lemma failFast_diverge (A : Type) (w : World) : failFast own (@diverge World A w).
Proof. reflexivity. Qed.

Lemma failFast_throw (A : Type) (e : JsError) (w : World) :
  own e -> failFast own (@throw World A e w).
Proof. intros H. right. now split. Qed.

Lemma failFast_emit (e : Event) (w : World) :
  replies [e] = [] -> failFast own (emit e w).
Proof. intros H. unfold failFast. simpl. unfold replies in H. simpl in H. now rewrite H. Qed.

Lemma failFast_exec (cl : string) (a : list string) (ignore : bool) (w : World) :
  failFast own (exec run cl a ignore w).
Proof.
  unfold exec, failFast. destruct (run _ w) as [[e|x] w1]; simpl; [|reflexivity].
  left. now exists [].
Qed.

Lemma failFast_bind (A B : Type) (m : M World A) (k : A -> M World B) (w : World) :
  failFast own (m w) -> (forall a w', failFast own (k a w')) ->
  failFast own (bind m k w).
Proof.
  intros Hm Hk. unfold bind. destruct (m w) as [tr [a|e|] w1]; try exact Hm.
  specialize (Hk a w1). destruct (k a w1) as [tr' o w2].
  unfold failFast in *. cbn [trace outcome] in *. rewrite replies_app.
  destruct o as [b|e|].
  - rewrite forallb_app, Hm, Hk. reflexivity.
  - destruct Hk as [(rs & Hrs & Hall) | [Hown Hall]].
    + left. exists (replies tr ++ rs)%list. rewrite Hrs, app_assoc. split; [reflexivity|].
      now rewrite forallb_app, Hm, Hall.
    + right. split; [exact Hown|]. now rewrite forallb_app, Hm, Hall.
  - rewrite forallb_app, Hm, Hk. reflexivity.
Qed.

(** A [finally] block that only logs leaves the outcome of the body. *)
Lemma failFast_tryFinally (A : Type) (body : M World A) (fin : M World unit)
    (logged : list Event) (w : World) :
  (forall w', fin w' = {| trace := logged; outcome := Ret tt; final := w' |}) ->
  replies logged = [] ->
  failFast own (body w) -> failFast own (tryFinally body fin w).
Proof.
  intros Hfin Hlog Hb. unfold tryFinally.
  destruct (body w) as [tr [a|e|] w1]; try exact Hb;
    rewrite Hfin; unfold failFast in *; cbn [trace outcome] in *;
    rewrite replies_app, Hlog, app_nil_r; exact Hb.
Qed.

Lemma endGroup_logs (w : World) :
  endGroup w = {| trace := [EEndGroup]; outcome := Ret tt; final := w |}.
Proof. reflexivity. Qed.

Lemma fix_endGroup_logs (w : World) :
  (fixStdOutNullTermination ;;; endGroup) w
  = {| trace := [EInfo ""; EEndGroup]; outcome := Ret tt; final := w |}.
Proof. reflexivity. Qed.

End Errors.

(** One step through a computation, for [failFast]. *)
Ltac fail_fast_step :=
  lazymatch goal with
  | |- failFast _ (bind _ _ _) => apply failFast_bind; [|intros ? ?]
  | |- failFast _ (tryFinally _ endGroup _) =>
      apply failFast_tryFinally with (logged := [EEndGroup]);
      [intros ?; apply endGroup_logs | reflexivity |]
  | |- failFast _ (tryFinally _ (fixStdOutNullTermination ;;; endGroup) _) =>
      apply failFast_tryFinally with (logged := [EInfo ""; EEndGroup]);
      [intros ?; apply fix_endGroup_logs | reflexivity |]
  | |- failFast _ (exec _ _ _ _ _) => apply failFast_exec
  | |- failFast _ (emit _ _) => apply failFast_emit; reflexivity
  | |- failFast _ (startGroup _ _) => apply failFast_emit; reflexivity
  | |- failFast _ (endGroup _) => apply failFast_emit; reflexivity
  | |- failFast _ (info _ _) => apply failFast_emit; reflexivity
  | |- failFast _ (warning _ _) => apply failFast_emit; reflexivity
  | |- failFast _ (ret _ _) => apply failFast_ret
  | |- failFast _ (diverge _) => apply failFast_diverge
  | |- failFast _ ((if ?b then _ else _) _) => destruct b
  | |- failFast _ (match ?x with _ => _ end _) => destruct x
  end.

Section FailFast.

Variable World : Type.
Variable run : Command -> World -> Reply * World.
Variable own : JsError -> Prop.

Lemma getFullRef_failFast (shortName : string) (w : World) :
  failFast own (getFullRef run shortName w).
Proof. unfold getFullRef. repeat fail_fast_step. Qed.

Lemma hasMergeBase_failFast (baseRef : option string) (ref : string) (w : World) :
  failFast own (hasMergeBase run baseRef ref w).
Proof. unfold hasMergeBase. repeat fail_fast_step. Qed.

Lemma getCommitCount_failFast (w : World) : failFast own (getCommitCount run w).
Proof. unfold getCommitCount. repeat fail_fast_step. Qed.

Lemma mergeBaseLoop_failFast (fuel : nat) (baseRef : option string) (base ref : string) :
  forall (depth lastCommitCount : Z) (w : World),
    failFast own (mergeBaseLoop run fuel baseRef base ref depth lastCommitCount w).
Proof.
  induction fuel as [|fuel IH]; intros depth lastCommitCount w; [reflexivity|].
  cbn [mergeBaseLoop].
  apply failFast_bind; [apply hasMergeBase_failFast|]. intros found w1.
  destruct found; [apply failFast_ret|].
  apply failFast_bind; [apply failFast_exec|]. intros _ w2.
  apply failFast_bind; [apply getCommitCount_failFast|]. intros commitCount w3.
  destruct (commitCount =? lastCommitCount)%Z; [|apply IH].
  do 3 (apply failFast_bind; [fail_fast_step|]; intros ? ?).
  apply failFast_bind; [apply hasMergeBase_failFast|]. intros ? ?. apply failFast_ret.
Qed.

Lemma simple_failFast (base : string) (w : World) :
  failFast own (getChangesInLastCommit run w)
  /\ failFast own (getChanges run base w)
  /\ failFast own (getChangesOnHead run w)
  /\ failFast own (listAllFilesAsAdded run w)
  /\ failFast own (getCurrentRef run w)
  /\ failFast own (hasCommit run base w).
Proof.
  unfold getChangesInLastCommit, getChanges, getChangesOnHead, listAllFilesAsAdded,
    getCurrentRef, hasCommit.
  repeat split; repeat fail_fast_step.
Qed.

End FailFast.

Section SearchErrors.

Variable World : Type.
Variable run : Command -> World -> Reply * World.

Lemma ensureBaseRef_failFast (base ref : string) (baseRef : option string) (w : World) :
  failFast (eq (couldNotDetermine base)) (ensureBaseRef run base ref baseRef w).
Proof.
  unfold ensureBaseRef. destruct baseRef; [apply failFast_ret|].
  apply failFast_bind; [apply getFullRef_failFast|]. intros [b|] w1; [apply failFast_ret|].
  apply failFast_bind; [apply failFast_exec|]. intros _ w2.
  apply failFast_bind; [apply getFullRef_failFast|]. intros [b|] w3; [apply failFast_ret|].
  now apply failFast_throw.
Qed.

Lemma getChangesSinceMergeBase_failFast (fuel : nat) (base ref : string) (depth : Z)
    (w : World) :
  failFast (eq (couldNotDetermine base))
    (getChangesSinceMergeBase run fuel base ref depth w).
Proof.
  unfold getChangesSinceMergeBase.
  apply failFast_bind; [fail_fast_step|]. intros _ w1.
  apply failFast_bind.
  { fail_fast_step. unfold searchMergeBase.
    apply failFast_bind; [apply getFullRef_failFast|]. intros baseRef w2.
    apply failFast_bind; [apply hasMergeBase_failFast|]. intros found w3.
    destruct found; [apply failFast_ret|].
    apply failFast_bind; [apply failFast_exec|]. intros _ w4.
    apply failFast_bind; [apply ensureBaseRef_failFast|]. intros baseRef' w5.
    apply failFast_bind; [apply getCommitCount_failFast|]. intros count w6.
    apply failFast_bind; [apply mergeBaseLoop_failFast|]. intros ? ?. apply failFast_ret. }
  intros [baseRef noMergeBase] w2. repeat fail_fast_step.
Qed.

(** X20: git.ts swallows no error and does not carry on after one.  In
    every run of [getChangesInLastCommit], [getChanges], [getChangesOnHead],
    [listAllFilesAsAdded], [getCurrentRef] and [getChangesSinceMergeBase]:
    a run that returns made no call that threw; a run that throws throws the
    error of its last call, the only one that threw, or, in
    [getChangesSinceMergeBase], the error that the base is no branch or
    tag, after calls that all replied. *)
Theorem errors_propagate :
  forall (w : World) (fuel : nat) (base ref : string) (depth : Z),
    failFast (fun _ => False) (getChangesInLastCommit run w)
    /\ failFast (fun _ => False) (getChanges run base w)
    /\ failFast (fun _ => False) (getChangesOnHead run w)
    /\ failFast (fun _ => False) (listAllFilesAsAdded run w)
    /\ failFast (fun _ => False) (getCurrentRef run w)
    /\ failFast (eq (couldNotDetermine base))
         (getChangesSinceMergeBase run fuel base ref depth w).
Proof.
  intros w fuel base ref depth.
  destruct (simple_failFast run (fun _ => False) base w) as (H1 & H2 & H3 & H4 & H5 & _).
  repeat split; try assumption. apply getChangesSinceMergeBase_failFast.
Qed.

End SearchErrors.

(** ** The layout of every run of the search *)

Section Layout.

Variable World : Type.
Variable run : Command -> World -> Reply * World.

(** X21: the layout of every run of [getChangesSinceMergeBase], however it
    ends.  Inside the group of the search git is asked only to look up
    references, to check for a merge base, to fetch and to count, and no
    warning is logged.  A run that gets past the search closes that group,
    logs the warning once or not at all, and then compares once, inside a
    group of its own: [git diff] is called at most once and is the last
    call. *)
Theorem getChangesSinceMergeBase_layout :
  forall (fuel : nat) (base ref : string) (depth : Z) (w : World),
    exists search rest : list Event,
      trace (getChangesSinceMergeBase run fuel base ref depth w)
      = (EStartGroup ("Searching for merge-base " ++ base ++ "..." ++ ref)
         :: search ++ rest)%list
      /\ Forall plainEvent search
      /\ (rest = [] \/ rest = [EEndGroup]
          \/ exists (warn : list Event) (range : string) (reply : Reply),
               rest = (EEndGroup :: warn
                       ++ [EStartGroup ("Change detection " ++ range);
                           EExec (diff range) reply; EInfo ""; EEndGroup])%list
               /\ (warn = [] \/ warn = [EWarning noMergeBaseWarning])).
Proof.
  intros fuel base ref depth w.
  exists (trace (searchMergeBase run fuel base ref depth w)).
  pose proof (searchMergeBase_plain run fuel base ref depth w) as Hplain.
  pose proof (tryFinally_endGroup (searchMergeBase run fuel base ref depth) w) as Htry.
  unfold getChangesSinceMergeBase. unfold startGroup at 1. rewrite bind_emit. cbn [trace].
  destruct (outcome (searchMergeBase run fuel base ref depth w)) as [[baseRef nm]|e|] eqn:Hs;
    cbv beta iota in Htry.
  - erewrite bind_known by exact Htry. cbn [trace].
    assert (Hdiff : forall range w',
      exists reply,
        trace ((startGroup ("Change detection " ++ range) ;;;
                output <- tryFinally
                  (r <- exec run "git" ["diff"; "--no-renames"; "--name-status"; "-z"; range]
                          false ;;
                   ret (stdout r))
                  (fixStdOutNullTermination ;;; endGroup) ;;
                ret (parseGitDiffOutput output)) w')
        = [EStartGroup ("Change detection " ++ range); EExec (diff range) reply;
           EInfo ""; EEndGroup]).
    { intros range w'.
      unfold fixStdOutNullTermination, startGroup, endGroup, info, emit, bind, tryFinally,
        exec, ret, diff, git.
      destruct (run _ w') as [[e|x] w'']; eexists; reflexivity. }
    destruct nm.
    + unfold warning. rewrite bind_assoc, bind_emit, bind_ret. cbn [trace].
      destruct (Hdiff (refToString baseRef ++ ".." ++ ref)
                  (final (searchMergeBase run fuel base ref depth w))) as [reply Hr].
      rewrite Hr. eexists. split; [|split; [exact Hplain|]].
      * rewrite <- app_assoc. reflexivity.
      * right. right. exists [EWarning noMergeBaseWarning], (refToString baseRef ++ ".." ++ ref), reply. split; [reflexivity|].
        now right.
    + rewrite bind_ret.
      destruct (Hdiff (refToString baseRef ++ "..." ++ ref)
                  (final (searchMergeBase run fuel base ref depth w))) as [reply Hr].
      rewrite Hr. eexists. split; [|split; [exact Hplain|]].
      * rewrite <- app_assoc. reflexivity.
      * right. right. exists [], (refToString baseRef ++ "..." ++ ref), reply. split; [reflexivity|]. now left.
  - rewrite bind_Throw with (e := e) by now rewrite Htry.
    rewrite Htry. cbn [trace]. exists [EEndGroup]. split; [reflexivity|]. split; auto.
  - rewrite bind_OutOfFuel by now rewrite Htry.
    rewrite Htry. cbn [trace]. exists []. rewrite app_nil_r. split; [reflexivity|].
    split; auto.
Qed.

End Layout.

(** * The merge-base search as a whole *)

(** ** Depths in decimal digits *)

Lemma numberToString_safe (n : Z) :
  (Z.abs n <= MAX_SAFE_INTEGER)%Z -> numberToString n = decimal n.
Proof.
  unfold numberToString, MAX_SAFE_INTEGER. intros H.
  replace (Z.abs n <=? 2 ^ 53)%Z with true; [reflexivity|].
  symmetry. apply Z.leb_le. change (2 ^ 53)%Z with 9007199254740992%Z. lia.
Qed.

Lemma saturatedDepth_range (d0 : Z) (j : nat) :
  (0 <= d0)%Z -> (0 <= saturatedDepth d0 j <= MAX_SAFE_INTEGER)%Z.
Proof.
  intros H. unfold saturatedDepth, MAX_SAFE_INTEGER.
  assert (Hp : (0 < 2 ^ Z.of_nat j)%Z) by (apply Z.pow_pos_nonneg; lia).
  split; [apply Z.min_glb; nia | apply Z.le_min_r].
Qed.

Lemma fetchShallow_decimal (base ref : string) (d : Z) :
  (0 <= d <= MAX_SAFE_INTEGER)%Z -> fetchShallow base ref d = gitFetchShallow base ref d.
Proof.
  intros H. unfold fetchShallow, gitFetchShallow. now rewrite numberToString_safe by lia.
Qed.

Lemma fetchDeepen_decimal (base ref : string) (d : Z) :
  (0 <= d <= MAX_SAFE_INTEGER)%Z -> fetchDeepen base ref d = gitFetchDeepen base ref d.
Proof.
  intros H. unfold fetchDeepen, deepenFetch, gitFetchDeepen.
  now rewrite numberToString_safe by lia.
Qed.

Lemma rounds_decimal (b base ref : string) (d0 : Z) (k : nat) :
  (0 <= d0)%Z -> rounds b base ref d0 k = searchRoundsCalls b base ref d0 k.
Proof.
  intros H. unfold rounds, searchRoundsCalls. apply flat_map_ext. intros j.
  unfold round, searchRoundCalls.
  now rewrite fetchDeepen_decimal by (apply saturatedDepth_range; exact H).
Qed.

Lemma preludeCalls_decimal (b base ref : string) (d0 : Z) :
  (0 <= d0 <= MAX_SAFE_INTEGER)%Z ->
  preludeCalls b base ref d0 = searchPreludeCalls b base ref d0.
Proof.
  intros H. unfold preludeCalls, searchPreludeCalls. now rewrite fetchShallow_decimal.
Qed.

Lemma deepen_le (d : Z) : (deepen d <= MAX_SAFE_INTEGER)%Z.
Proof. unfold deepen. apply Z.le_min_r. Qed.

Lemma saturatedDepth_zero (d : Z) : (d <= MAX_SAFE_INTEGER)%Z -> saturatedDepth d 0 = d.
Proof. intros H. unfold saturatedDepth. simpl. rewrite Z.mul_1_r. now apply Z.min_l. Qed.

(** ** Full fetches *)

Lemma rounds_no_full_fetch (b base ref : string) (d0 : Z) (k : nat) :
  filter isFullFetch (searchRoundsCalls b base ref d0 k) = [].
Proof.
  unfold searchRoundsCalls. induction (seq 1 k) as [|j l IH]; [reflexivity|].
  cbn [flat_map]. rewrite filter_app, IH. reflexivity.
Qed.

Lemma prelude_no_full_fetch (b base ref : string) (d0 : Z) (prelude : list Command) :
  incl prelude (searchPreludeCalls b base ref d0) -> filter isFullFetch prelude = [].
Proof.
  intros Hincl. induction prelude as [|c prelude IH]; [reflexivity|].
  cbn [filter]. rewrite IH by (intros x Hx; apply Hincl; now right).
  assert (Hc : In c (searchPreludeCalls b base ref d0)) by (apply Hincl; now left).
  simpl in Hc. repeat (destruct Hc as [<-|Hc]; [reflexivity|]). destruct Hc.
Qed.

Section WholeSearch.

Variable World : Type.
Variable run : Command -> World -> Reply * World.

Lemma filter_calls_app (tr1 tr2 : list Event) :
  filter isFullFetch (calls (tr1 ++ tr2))
  = (filter isFullFetch (calls tr1) ++ filter isFullFetch (calls tr2))%list.
Proof. now rewrite calls_app, filter_app. Qed.

(** The shape of a run that returns, with the fetches as git is given them. *)
Lemma getChangesSinceMergeBase_decimal_shape :
  forall (fuel : nat) (base ref : string) (d0 : Z) (w : World) (files : list File),
    (0 <= d0 <= MAX_SAFE_INTEGER)%Z ->
    let r := getChangesSinceMergeBase run fuel base ref d0 w in
    outcome r = Ret files ->
    exists (b : string) (before : list Event) (prelude : list Command) (k : nat)
           (stalled : bool) (g z y : ExecResult),
      let fallback := stalled && negb (code z =? 0)%Z in
      let range := b ++ (if fallback then ".." else "...") ++ ref in
      trace r = (before ++ searchEnding b ref stalled g z
                   ++ EEndGroup
                   :: (if fallback then [EWarning noMergeBaseWarning] else [])
                   ++ diffEvents range y)%list
      /\ files = parseGitDiffOutput (stdout y)
      /\ calls before = (prelude ++ searchRoundsCalls b base ref d0 k)%list
      /\ incl prelude (searchPreludeCalls b base ref d0)
      /\ countsOfSearch (counts before) stalled
      /\ (List.length (counts before) = S k \/ (k = 0%nat /\ counts before = []))
      /\ (forall m, ~ In (EWarning m) before)
      /\ noMergeBaseIn before
      /\ (stalled = false -> code z = 0%Z)
      /\ (stalled = true -> (1 <= k)%nat)
      /\ List.length (filter isFullFetch (calls (trace r)))
         = (if stalled then 1 else 0)%nat.
Proof.
  intros fuel base ref d0 w files Hd r H.
  destruct (getChangesSinceMergeBase_shape run fuel base ref d0 w H)
    as (b & before & prelude & k & stalled & g & z & y & Htr & Hfiles & Hcalls & Hincl
        & Hcounts & Hlen & Hwarn & Hnomb & Hz & Hk).
  rewrite rounds_decimal in Hcalls by lia. rewrite preludeCalls_decimal in Hincl by exact Hd.
  exists b, before, prelude, k, stalled, g, z, y. cbn zeta in *.
  repeat (split; [assumption|]).
  fold r in Htr. rewrite Htr. rewrite !filter_calls_app, Hcalls, filter_app.
  rewrite (prelude_no_full_fetch Hincl), rounds_no_full_fetch.
  destruct stalled; destruct (negb (code z =? 0)%Z); reflexivity.
Qed.

(** ** Running out of iterations *)

Lemma countsWhenOutOfFuel_bind (A B : Type) (n : nat) (m : M World A) (k : A -> M World B)
    (w : World) :
  countsWhenOutOfFuel n (m w) -> (forall a w', countsWhenOutOfFuel n (k a w')) ->
  countsWhenOutOfFuel n (bind m k w).
Proof.
  unfold countsWhenOutOfFuel, bind. intros Hm Hk.
  destruct (m w) as [tr [a|e|] w1]; cbn [trace outcome] in *; try discriminate.
  - specialize (Hk a w1). destruct (k a w1) as [tr' o w2]. cbn [trace outcome] in *.
    intros Ho. specialize (Hk Ho). rewrite counts_app, length_app. lia.
  - intros _. now apply Hm.
Qed.

Lemma countsWhenOutOfFuel_tryFinally (A : Type) (n : nat) (body : M World A)
    (fin : M World unit) (logged : list Event) (w : World) :
  (forall w', fin w' = {| trace := logged; outcome := Ret tt; final := w' |}) ->
  countsWhenOutOfFuel n (body w) -> countsWhenOutOfFuel n (tryFinally body fin w).
Proof.
  unfold countsWhenOutOfFuel, tryFinally. intros Hfin Hb.
  destruct (body w) as [tr [a|e|] w1]; cbn [trace outcome] in *;
    try (rewrite Hfin; discriminate). intros _. now apply Hb.
Qed.

Lemma countsWhenOutOfFuel_exec (n : nat) (cl : string) (a : list string) (ignore : bool)
    (w : World) :
  countsWhenOutOfFuel n (exec run cl a ignore w).
Proof.
  unfold countsWhenOutOfFuel, exec. destruct (run _ w) as [[e|x] w1]; discriminate.
Qed.

(** A count that the computation goes on from is one more. *)
Lemma countsWhenOutOfFuel_count (B : Type) (n : nat) (k : Z -> M World B) (w : World) :
  (forall c w', countsWhenOutOfFuel n (k c w')) ->
  countsWhenOutOfFuel (S n) (bind (getCommitCount run) k w).
Proof.
  unfold countsWhenOutOfFuel, getCommitCount, bind, exec, ret. intros Hk.
  destruct (run _ w) as [[e|y] w1]; cbn [trace outcome]; [discriminate|].
  specialize (Hk (commitCountOf (stdout y)) w1).
  destruct (k (commitCountOf (stdout y)) w1) as [tr' o w2]. cbn [trace outcome app] in *.
  intros Ho. specialize (Hk Ho).
  change (S n <= List.length (commitCountOf (stdout y) :: counts tr'))%nat.
  cbn [List.length]. lia.
Qed.

End WholeSearch.

(** One step through a computation that cannot run out of iterations. *)
Ltac fuel_step :=
  lazymatch goal with
  | |- countsWhenOutOfFuel _ (bind _ _ _) => apply countsWhenOutOfFuel_bind; [|intros ? ?]
  | |- countsWhenOutOfFuel _ (tryFinally _ endGroup _) =>
      apply countsWhenOutOfFuel_tryFinally with (logged := [EEndGroup]);
      [intros ?; apply endGroup_logs |]
  | |- countsWhenOutOfFuel _ (tryFinally _ (fixStdOutNullTermination ;;; endGroup) _) =>
      apply countsWhenOutOfFuel_tryFinally with (logged := [EInfo ""; EEndGroup]);
      [intros ?; apply fix_endGroup_logs |]
  | |- countsWhenOutOfFuel _ (exec _ _ _ _ _) => apply countsWhenOutOfFuel_exec
  | |- countsWhenOutOfFuel _ ((if ?b then _ else _) _) => destruct b
  | |- countsWhenOutOfFuel _ (match ?x with _ => _ end _) => destruct x
  | |- countsWhenOutOfFuel _ _ => discriminate
  end.

Section SearchFuel.

Variable World : Type.
Variable run : Command -> World -> Reply * World.

Lemma mergeBaseLoop_counts (fuel : nat) (baseRef : option string) (base ref : string) :
  forall (depth lastCommitCount : Z) (w : World),
    countsWhenOutOfFuel fuel
      (mergeBaseLoop run fuel baseRef base ref depth lastCommitCount w).
Proof.
  induction fuel as [|fuel IH]; intros depth lastCommitCount w.
  - intros _. apply Nat.le_0_l.
  - cbn [mergeBaseLoop].
    apply countsWhenOutOfFuel_bind; [unfold hasMergeBase; repeat fuel_step|].
    intros found w1. destruct found; [discriminate|].
    apply countsWhenOutOfFuel_bind; [apply countsWhenOutOfFuel_exec|]. intros _ w2.
    apply countsWhenOutOfFuel_count. intros c w3.
    destruct (c =? lastCommitCount)%Z; [|apply IH].
    unfold info, hasMergeBase. repeat fuel_step.
Qed.

Lemma getChangesSinceMergeBase_counts (fuel : nat) (base ref : string) (depth : Z)
    (w : World) :
  countsWhenOutOfFuel (S fuel) (getChangesSinceMergeBase run fuel base ref depth w).
Proof.
  unfold getChangesSinceMergeBase.
  apply countsWhenOutOfFuel_bind; [discriminate|]. intros _ w1.
  apply countsWhenOutOfFuel_bind.
  { fuel_step. unfold searchMergeBase.
    apply countsWhenOutOfFuel_bind; [unfold getFullRef; repeat fuel_step|]. intros baseRef w2.
    apply countsWhenOutOfFuel_bind; [unfold hasMergeBase; repeat fuel_step|]. intros found w3.
    destruct found; [discriminate|].
    apply countsWhenOutOfFuel_bind; [apply countsWhenOutOfFuel_exec|]. intros _ w4.
    apply countsWhenOutOfFuel_bind; [unfold ensureBaseRef, getFullRef; repeat fuel_step|].
    intros baseRef' w5.
    apply countsWhenOutOfFuel_count. intros c w6.
    apply countsWhenOutOfFuel_bind; [apply mergeBaseLoop_counts|]. intros ? ?. discriminate. }
  intros [baseRef noMergeBase] w2. unfold warning, startGroup. repeat fuel_step.
Qed.

End SearchFuel.

(** ** Runs that go through *)

Section SearchRuns.

Variable World : Type.
Variable run : Command -> World -> Reply * World.

Lemma searchRounds_depth (b base ref : string) :
  forall (n : nat) (d c : Z) (w : World) (d' c' : Z) (w' : World),
    (d <= MAX_SAFE_INTEGER)%Z ->
    searchRounds run b base ref n d c w = Some (d', c', w') ->
    d' = saturatedDepth d n.
Proof.
  induction n as [|n IH]; intros d c w d' c' w' Hd H.
  - injection H as <- _ _. symmetry. now apply saturatedDepth_zero.
  - cbn [searchRounds] in H.
    destruct (run (mergeBase b ref) w) as [[e|z] w1]; [discriminate|].
    destruct (code z =? 0)%Z; [discriminate|].
    destruct (run (fetchDeepen base ref (deepen d)) w1) as [[e|x] w2]; [discriminate|].
    destruct (run revListCount w2) as [[e|y] w3]; [discriminate|].
    destruct (commitCountOf (stdout y) =? c)%Z; [discriminate|].
    apply IH in H; [|apply deepen_le]. now rewrite saturatedDepth_deepen in H.
Qed.

Lemma mergeBaseLoop_found_round (fuel : nat) (b base ref : string) (d c : Z)
    (w w1 : World) (z : ExecResult) :
  run (mergeBase b ref) w = (Done z, w1) ->
  code z = 0%Z ->
  mergeBaseLoop run (S fuel) (Some b) base ref d c w
  = {| trace := [EExec (mergeBase b ref) (Done z)]; outcome := Ret false; final := w1 |}.
Proof.
  intros Hmb Hz. rewrite mergeBaseLoop_step. unfold hasMergeBase. rewrite bind_assoc.
  unfold mergeBase in Hmb. erewrite bind_exec_Done by exact Hmb.
  rewrite bind_ret, Hz. reflexivity.
Qed.

(** The search from its start to the end of its loop. *)
Lemma searchMergeBase_through (fuel : nat) (base ref b : string) (d0 : Z)
    (r0 : option string) (tr0 tr1 tr3 loop : list Event) (w wa w1 w2 wb w3 w9 : World)
    (x0 y0 : ExecResult) (nm : bool) :
  getFullRef run base w = {| trace := tr0; outcome := Ret r0; final := wa |} ->
  hasMergeBase run r0 ref wa = {| trace := tr1; outcome := Ret false; final := w1 |} ->
  run (fetchShallow base ref d0) w1 = (Done x0, w2) ->
  ensureBaseRef run base ref r0 w2
  = {| trace := tr3; outcome := Ret (Some b); final := wb |} ->
  run revListCount wb = (Done y0, w3) ->
  mergeBaseLoop run fuel (Some b) base ref d0 (commitCountOf (stdout y0)) w3
  = {| trace := loop; outcome := Ret nm; final := w9 |} ->
  searchMergeBase run fuel base ref d0 w
  = {| trace := (tr0 ++ tr1 ++ EExec (fetchShallow base ref d0) (Done x0)
                 :: tr3 ++ EExec revListCount (Done y0) :: loop)%list;
       outcome := Ret (Some b, nm);
       final := w9 |}.
Proof.
  intros H0 H1 H2 H3 H4 Hloop. unfold searchMergeBase.
  erewrite bind_known by exact H0. erewrite bind_known by exact H1. cbv beta iota.
  unfold fetchShallow in H2. erewrite bind_exec_Done by exact H2.
  erewrite bind_known by exact H3.
  unfold getCommitCount. rewrite bind_assoc.
  unfold revListCount in H4. erewrite bind_exec_Done by exact H4. rewrite bind_ret.
  erewrite bind_known by exact Hloop.
  cbn [trace outcome final ret app]. rewrite app_nil_r. reflexivity.
Qed.

(** From the end of the search to the result. *)
Lemma getChangesSinceMergeBase_compare (fuel : nat) (base ref b : string) (d0 : Z)
    (search : list Event) (w w9 w10 : World) (nm : bool) (y : ExecResult) :
  searchMergeBase run fuel base ref d0 w
  = {| trace := search; outcome := Ret (Some b, nm); final := w9 |} ->
  run (diff (b ++ (if nm then ".." else "...") ++ ref)) w9 = (Done y, w10) ->
  getChangesSinceMergeBase run fuel base ref d0 w
  = {| trace := (EStartGroup ("Searching for merge-base " ++ base ++ "..." ++ ref)
                 :: search
                 ++ EEndGroup
                 :: (if nm then [EWarning noMergeBaseWarning] else [])
                 ++ diffEvents (b ++ (if nm then ".." else "...") ++ ref) y)%list;
       outcome := Ret (parseGitDiffOutput (stdout y));
       final := w10 |}.
Proof.
  intros HS Hdiff.
  unfold getChangesSinceMergeBase. unfold startGroup at 1. rewrite bind_emit.
  erewrite bind_known by (apply tryFinally_known; exact HS).
  cbn [trace outcome final refToString]. unfold diff in Hdiff.
  destruct nm.
  - unfold warning. rewrite bind_assoc, bind_emit, bind_ret.
    erewrite read_output_run by exact Hdiff. cbn [trace outcome final].
    rewrite <- !app_assoc. reflexivity.
  - rewrite bind_ret. erewrite read_output_run by exact Hdiff.
    cbn [trace outcome final]. rewrite <- !app_assoc. reflexivity.
Qed.

(** Runs of the search in which every call replies: the base resolves at
    once or after the shallow fetch, [n] rounds go on, and then the merge
    base is found, or the search stalls. *)
Lemma getChangesSinceMergeBase_runs :
  forall (n fuel : nat) (base ref b : string) (d0 : Z) (r0 : option string)
         (tr0 tr1 tr3 : list Event) (w wa w1 w2 wb w3 w4 : World) (x0 y0 : ExecResult)
         (d' c' : Z),
    (0 <= d0 <= MAX_SAFE_INTEGER)%Z ->
    getFullRef run base w = {| trace := tr0; outcome := Ret r0; final := wa |} ->
    hasMergeBase run r0 ref wa = {| trace := tr1; outcome := Ret false; final := w1 |} ->
    run (gitFetchShallow base ref d0) w1 = (Done x0, w2) ->
    ensureBaseRef run base ref r0 w2
    = {| trace := tr3; outcome := Ret (Some b); final := wb |} ->
    run revListCount wb = (Done y0, w3) ->
    searchRounds run b base ref n d0 (commitCountOf (stdout y0)) w3 = Some (d', c', w4) ->
    (n < fuel)%nat ->
    exists pre : list Event,
      calls pre = searchRoundsCalls b base ref d0 n
      /\ (forall m, ~ In (EWarning m) pre)
      /\ (forall (w5 w6 : World) (z1 y : ExecResult),
            run (mergeBase b ref) w4 = (Done z1, w5) ->
            code z1 = 0%Z ->
            run (diff (b ++ "..." ++ ref)) w5 = (Done y, w6) ->
            getChangesSinceMergeBase run fuel base ref d0 w
            = {| trace :=
                   (EStartGroup ("Searching for merge-base " ++ base ++ "..." ++ ref)
                    :: (tr0 ++ tr1 ++ EExec (gitFetchShallow base ref d0) (Done x0)
                        :: tr3 ++ EExec revListCount (Done y0)
                        :: pre ++ [EExec (mergeBase b ref) (Done z1)])
                    ++ EEndGroup :: diffEvents (b ++ "..." ++ ref) y)%list;
                 outcome := Ret (parseGitDiffOutput (stdout y));
                 final := w6 |})
      /\ (forall (w5 w6 w7 w8 w9 w10 : World) (z1 x1 y1 g z2 y : ExecResult),
            run (mergeBase b ref) w4 = (Done z1, w5) ->
            code z1 <> 0%Z ->
            run (gitFetchDeepen base ref (saturatedDepth d0 (S n))) w5 = (Done x1, w6) ->
            run revListCount w6 = (Done y1, w7) ->
            commitCountOf (stdout y1) = c' ->
            run fetchAll w7 = (Done g, w8) ->
            run (mergeBase b ref) w8 = (Done z2, w9) ->
            let fallback := negb (code z2 =? 0)%Z in
            let range := b ++ (if fallback then ".." else "...") ++ ref in
            run (diff range) w9 = (Done y, w10) ->
            getChangesSinceMergeBase run fuel base ref d0 w
            = {| trace :=
                   (EStartGroup ("Searching for merge-base " ++ base ++ "..." ++ ref)
                    :: (tr0 ++ tr1 ++ EExec (gitFetchShallow base ref d0) (Done x0)
                        :: tr3 ++ EExec revListCount (Done y0)
                        :: pre
                        ++ [EExec (mergeBase b ref) (Done z1);
                            EExec (gitFetchDeepen base ref (saturatedDepth d0 (S n)))
                              (Done x1);
                            EExec revListCount (Done y1);
                            EInfo "No more commits were fetched";
                            EInfo "Last attempt will be to fetch full history";
                            EExec fetchAll (Done g);
                            EExec (mergeBase b ref) (Done z2)])
                    ++ EEndGroup
                    :: (if fallback then [EWarning noMergeBaseWarning] else [])
                    ++ diffEvents range y)%list;
                 outcome := Ret (parseGitDiffOutput (stdout y));
                 final := w10 |}).
Proof.
  intros n fuel base ref b d0 r0 tr0 tr1 tr3 w wa w1 w2 wb w3 w4 x0 y0 d' c'
    Hd H0 H1 H2 H3 H4 Hrounds Hfuel.
  rewrite <- fetchShallow_decimal in * by exact Hd.
  pose proof (searchRounds_depth _ _ _ _ _ _ (proj2 Hd) Hrounds) as Hd'.
  destruct (mergeBaseLoop_goes_on run b base ref n _ _ _ (fuel - n) Hrounds)
    as (pre & Hloop & Hcalls & _ & Hwarn).
  replace (n + (fuel - n))%nat with fuel in Hloop by lia.
  replace (fuel - n)%nat with (S (fuel - n - 1)) in Hloop by lia.
  exists pre. split; [|split; [exact Hwarn|split]].
  - now rewrite Hcalls, roundsFrom_rounds, rounds_decimal by lia.
  - intros w5 w6 z1 y Hmb Hz Hdiff.
    erewrite mergeBaseLoop_found_round in Hloop by eassumption.
    cbn [trace outcome final] in Hloop.
    erewrite getChangesSinceMergeBase_compare with (nm := false) (b := b);
      [reflexivity | | exact Hdiff].
    eapply searchMergeBase_through; eassumption.
  - intros w5 w6 w7 w8 w9 w10 z1 x1 y1 g z2 y Hmb1 Hz1 Hdeepen Hcount Hc Hall Hmb2
      fallback range Hdiff.
    assert (Hdepth : deepen d' = saturatedDepth d0 (S n)).
    { subst d'. unfold deepen, saturatedDepth, MAX_SAFE_INTEGER in *.
      rewrite Nat2Z.inj_succ, Z.pow_succ_r by lia.
      assert (Hp : (0 < 2 ^ Z.of_nat n)%Z) by (apply Z.pow_pos_nonneg; lia).
      destruct (Z.min_spec (d0 * 2 ^ Z.of_nat n) 9007199254740991) as [[Hlt ->] | [Hle ->]].
      - f_equal. ring.
      - rewrite !Z.min_r; nia. }
    rewrite <- Hdepth, <- fetchDeepen_decimal in *
      by (rewrite ?Hdepth; apply saturatedDepth_range; lia).
    rewrite (@mergeBaseLoop_stalled_round _ run (fuel - n - 1) b base ref d' c'
               _ _ _ _ _ _ _ _ _ _ _ Hmb1 Hz1 Hdeepen Hcount Hc Hall Hmb2) in Hloop.
    cbn [trace outcome final] in Hloop. fold fallback in Hloop.
    erewrite getChangesSinceMergeBase_compare with (nm := fallback) (b := b);
      [reflexivity | | exact Hdiff].
    eapply searchMergeBase_through; eassumption.
Qed.

End SearchRuns.

Section MergeBaseSearch.

Variable World : Type.
Variable run : Command -> World -> Reply * World.

(** C1: the merge-base search of [getChangesSinceMergeBase], for an initial
    fetch depth from 0 to [MAX_SAFE_INTEGER].

    Every run that returns has this shape.  After a prelude (resolution of
    the base, first merge-base check, shallow fetch, first count) come [k]
    rounds, each a merge-base check that fails, the call
    [git fetch --deepen=<depth> origin <base> <ref>] and a count; the depth of
    the [j]-th of these fetches, in decimal digits, is the initial depth
    doubled [j] times and capped at [MAX_SAFE_INTEGER].  The counts are the
    Numbers that [parseInt] reads; each differs from the one before it,
    except that in a stalled search the count of the last round repeats the
    one before it.  A stalled search continues with exactly one [git fetch]
    without arguments and one last merge-base check, and no deepen fetch
    follows; a search that did not stall ends with a merge-base check that
    succeeds, and a run that did not stall makes no fetch without arguments
    at all.  The comparison is the two-dot one, preceded by the warning,
    exactly when the search stalled and the check after the full fetch
    failed; otherwise it is the three-dot one, without warning.  The files
    returned are the parse of its output.

    Every run, whatever the depth: a run that throws throws the error of
    its last call, the only one that threw, or the error that the base is no
    branch or tag, after calls that all replied; and a run that the bound
    on the iterations stops has read more counts than the bound.  So a run
    returns unless a call throws, the base cannot be resolved, or the loop
    goes on beyond every bound.

    And runs that return exist, with the traces written out: when the base
    resolves, before or after the shallow fetch, [n] rounds go on, and every
    call replies, then, with any bound above [n], the function returns the
    three-dot comparison without a further fetch if the next merge-base
    check succeeds; and if it fails and the next round leaves the count
    unchanged, it returns after that one more deepen fetch, one full fetch
    and the comparison that the last merge-base check selects. *)
Theorem getChangesSinceMergeBase_search :
  (forall (fuel : nat) (base ref : string) (d0 : Z) (w : World) (files : list File),
      (0 <= d0 <= MAX_SAFE_INTEGER)%Z ->
      let r := getChangesSinceMergeBase run fuel base ref d0 w in
      outcome r = Ret files ->
      exists (b : string) (before : list Event) (prelude : list Command) (k : nat)
             (stalled : bool) (g z y : ExecResult),
        let fallback := stalled && negb (code z =? 0)%Z in
        let range := b ++ (if fallback then ".." else "...") ++ ref in
        trace r = (before ++ searchEnding b ref stalled g z
                     ++ EEndGroup
                     :: (if fallback then [EWarning noMergeBaseWarning] else [])
                     ++ diffEvents range y)%list
        /\ files = parseGitDiffOutput (stdout y)
        /\ calls before = (prelude ++ searchRoundsCalls b base ref d0 k)%list
        /\ incl prelude (searchPreludeCalls b base ref d0)
        /\ countsOfSearch (counts before) stalled
        /\ (List.length (counts before) = S k \/ (k = 0%nat /\ counts before = []))
        /\ (forall m, ~ In (EWarning m) before)
        /\ noMergeBaseIn before
        /\ (stalled = false -> code z = 0%Z)
        /\ (stalled = true -> (1 <= k)%nat)
        /\ List.length (filter isFullFetch (calls (trace r)))
           = (if stalled then 1 else 0)%nat)
  /\ (forall (fuel : nat) (base ref : string) (d0 : Z) (w : World),
      let r := getChangesSinceMergeBase run fuel base ref d0 w in
      failFast (eq (couldNotDetermine base)) r
      /\ (outcome r = OutOfFuel -> (fuel < List.length (counts (trace r)))%nat))
  /\ (forall (n fuel : nat) (base ref b : string) (d0 : Z) (r0 : option string)
             (tr0 tr1 tr3 : list Event) (w wa w1 w2 wb w3 w4 : World) (x0 y0 : ExecResult)
             (d' c' : Z),
      (0 <= d0 <= MAX_SAFE_INTEGER)%Z ->
      getFullRef run base w = {| trace := tr0; outcome := Ret r0; final := wa |} ->
      hasMergeBase run r0 ref wa = {| trace := tr1; outcome := Ret false; final := w1 |} ->
      run (gitFetchShallow base ref d0) w1 = (Done x0, w2) ->
      ensureBaseRef run base ref r0 w2
      = {| trace := tr3; outcome := Ret (Some b); final := wb |} ->
      run revListCount wb = (Done y0, w3) ->
      searchRounds run b base ref n d0 (commitCountOf (stdout y0)) w3 = Some (d', c', w4) ->
      (n < fuel)%nat ->
      exists pre : list Event,
        calls pre = searchRoundsCalls b base ref d0 n
        /\ (forall m, ~ In (EWarning m) pre)
        /\ (forall (w5 w6 : World) (z1 y : ExecResult),
              run (mergeBase b ref) w4 = (Done z1, w5) ->
              code z1 = 0%Z ->
              run (diff (b ++ "..." ++ ref)) w5 = (Done y, w6) ->
              getChangesSinceMergeBase run fuel base ref d0 w
              = {| trace :=
                     (EStartGroup ("Searching for merge-base " ++ base ++ "..." ++ ref)
                      :: (tr0 ++ tr1 ++ EExec (gitFetchShallow base ref d0) (Done x0)
                          :: tr3 ++ EExec revListCount (Done y0)
                          :: pre ++ [EExec (mergeBase b ref) (Done z1)])
                      ++ EEndGroup :: diffEvents (b ++ "..." ++ ref) y)%list;
                   outcome := Ret (parseGitDiffOutput (stdout y));
                   final := w6 |})
        /\ (forall (w5 w6 w7 w8 w9 w10 : World) (z1 x1 y1 g z2 y : ExecResult),
              run (mergeBase b ref) w4 = (Done z1, w5) ->
              code z1 <> 0%Z ->
              run (gitFetchDeepen base ref (saturatedDepth d0 (S n))) w5 = (Done x1, w6) ->
              run revListCount w6 = (Done y1, w7) ->
              commitCountOf (stdout y1) = c' ->
              run fetchAll w7 = (Done g, w8) ->
              run (mergeBase b ref) w8 = (Done z2, w9) ->
              let fallback := negb (code z2 =? 0)%Z in
              let range := b ++ (if fallback then ".." else "...") ++ ref in
              run (diff range) w9 = (Done y, w10) ->
              getChangesSinceMergeBase run fuel base ref d0 w
              = {| trace :=
                     (EStartGroup ("Searching for merge-base " ++ base ++ "..." ++ ref)
                      :: (tr0 ++ tr1 ++ EExec (gitFetchShallow base ref d0) (Done x0)
                          :: tr3 ++ EExec revListCount (Done y0)
                          :: pre
                          ++ [EExec (mergeBase b ref) (Done z1);
                              EExec (gitFetchDeepen base ref (saturatedDepth d0 (S n)))
                                (Done x1);
                              EExec revListCount (Done y1);
                              EInfo "No more commits were fetched";
                              EInfo "Last attempt will be to fetch full history";
                              EExec fetchAll (Done g);
                              EExec (mergeBase b ref) (Done z2)])
                      ++ EEndGroup
                      :: (if fallback then [EWarning noMergeBaseWarning] else [])
                      ++ diffEvents range y)%list;
                   outcome := Ret (parseGitDiffOutput (stdout y));
                   final := w10 |})).
Proof.
  split; [|split].
  - exact (getChangesSinceMergeBase_decimal_shape run).
  - intros fuel base ref d0 w r. split.
    + apply getChangesSinceMergeBase_failFast.
    + apply getChangesSinceMergeBase_counts.
  - exact (getChangesSinceMergeBase_runs run).
Qed.

End MergeBaseSearch.

Lemma getChangesSinceMergeBase_search_witness :
  let stalls :=
    [ ok "abc refs/heads/main"; exited 1; ok ""; ok "10";
      exited 1; ok ""; ok "20"; exited 1; ok ""; ok "20"; ok ""; exited 1;
      ok ("A" ++ String NUL "x") ] in
  let finds :=
    [ ok "abc refs/heads/main"; exited 1; ok ""; ok "10";
      exited 1; ok ""; ok "20"; exited 0; ok ("A" ++ String NUL "x") ] in
  let r := getChangesSinceMergeBase scripted 5 "main" "HEAD" 10 stalls in
  (outcome r = Ret (parseGitDiffOutput ("A" ++ String NUL "x"))
   /\ calls (trace r)
      = [showRef "main"; mergeBase "refs/heads/main" "HEAD";
         gitFetchShallow "main" "HEAD" 10; revListCount;
         mergeBase "refs/heads/main" "HEAD"; gitFetchDeepen "main" "HEAD" 20; revListCount;
         mergeBase "refs/heads/main" "HEAD"; gitFetchDeepen "main" "HEAD" 40; revListCount;
         fetchAll; mergeBase "refs/heads/main" "HEAD"; diff "refs/heads/main..HEAD"]
   /\ In (EWarning noMergeBaseWarning) (trace r))
  /\ (calls (trace (getChangesSinceMergeBase scripted 5 "main" "HEAD" 10 finds))
      = [showRef "main"; mergeBase "refs/heads/main" "HEAD";
         gitFetchShallow "main" "HEAD" 10; revListCount;
         mergeBase "refs/heads/main" "HEAD"; gitFetchDeepen "main" "HEAD" 20; revListCount;
         mergeBase "refs/heads/main" "HEAD"; diff "refs/heads/main...HEAD"])
  /\ (exists stalled : bool,
        List.length (filter isFullFetch (calls (trace r))) = (if stalled then 1 else 0)%nat)
  /\ (1 < List.length
            (counts (trace (getChangesSinceMergeBase scripted 1 "main" "HEAD" 10 stalls))))%nat.
Proof.
  intros stalls finds r.
  assert (Hd : (0 <= 10 <= MAX_SAFE_INTEGER)%Z) by (unfold MAX_SAFE_INTEGER; lia).
  split; [|split; [|split]].
  - destruct (proj2 (proj2 (@getChangesSinceMergeBase_search _ scripted))
                1%nat 5%nat "main" "HEAD" "refs/heads/main" 10%Z (Some "refs/heads/main")
                [EExec (showRef "main") (ok "abc refs/heads/main")]
                [EExec (mergeBase "refs/heads/main" "HEAD") (exited 1)]
                []
                stalls (tl stalls) (tl (tl stalls)) (tl (tl (tl stalls)))
                (tl (tl (tl stalls))) (skipn 4 stalls) (skipn 7 stalls)
                (mkExecResult 0 "") (mkExecResult 0 "10") 20%Z 20%Z
                Hd eq_refl eq_refl eq_refl eq_refl eq_refl eq_refl ltac:(lia))
      as (pre & Hpre & _ & _ & Hstalled).
    specialize (Hstalled (skipn 8 stalls) (skipn 9 stalls) (skipn 10 stalls)
                  (skipn 11 stalls) (skipn 12 stalls) []
                  (mkExecResult 1 "") (mkExecResult 0 "") (mkExecResult 0 "20")
                  (mkExecResult 0 "") (mkExecResult 1 "")
                  (mkExecResult 0 ("A" ++ String NUL "x"))
                  eq_refl ltac:(discriminate) eq_refl eq_refl eq_refl eq_refl eq_refl
                  eq_refl).
    subst r. rewrite Hstalled. cbn [trace outcome].
    split; [reflexivity|]. split.
    + unfold calls in *. cbn [flat_map app]. rewrite !flat_map_app, Hpre. reflexivity.
    + apply in_cons, in_or_app. right. apply in_cons, in_or_app. left. left. reflexivity.
  - destruct (proj2 (proj2 (@getChangesSinceMergeBase_search _ scripted))
                1%nat 5%nat "main" "HEAD" "refs/heads/main" 10%Z (Some "refs/heads/main")
                [EExec (showRef "main") (ok "abc refs/heads/main")]
                [EExec (mergeBase "refs/heads/main" "HEAD") (exited 1)]
                []
                finds (tl finds) (tl (tl finds)) (tl (tl (tl finds)))
                (tl (tl (tl finds))) (skipn 4 finds) (skipn 7 finds)
                (mkExecResult 0 "") (mkExecResult 0 "10") 20%Z 20%Z
                Hd eq_refl eq_refl eq_refl eq_refl eq_refl eq_refl ltac:(lia))
      as (pre & Hpre & _ & Hfound & _).
    rewrite (Hfound (skipn 8 finds) [] (mkExecResult 0 "")
               (mkExecResult 0 ("A" ++ String NUL "x")) eq_refl eq_refl eq_refl).
    cbn [trace]. unfold calls in *. cbn [flat_map app]. rewrite !flat_map_app, Hpre.
    reflexivity.
  - destruct (proj1 (@getChangesSinceMergeBase_search _ scripted) 5%nat "main" "HEAD" 10%Z
                stalls [ {| status := Own Added; filename := "x" |} ] Hd eq_refl)
      as (b & before & prelude & k & stalled & g & z & y & _ & _ & _ & _ & _ & _ & _ & _
          & _ & _ & Hfull).
    exists stalled. exact Hfull.
  - apply (proj2 (proj1 (proj2 (@getChangesSinceMergeBase_search _ scripted))
                    1%nat "main" "HEAD" 10%Z stalls)).
    reflexivity.
Defined.
